(** * sshconfig_to_iterm.py: SSH config to iTerm2 dynamic profiles

    A shallow embedding of [sshconfig_to_iterm.py] and the properties of
    its configuration resolver, profile generator, writers and exit
    statuses.

    Conventions.
    - A Python [str] is a [string]; its characters are the code points
      below 256.
    - The operating system (path normalisation, the file system, globbing,
      the random source) is a record of primitives, [OS]; the program is a
      function of it.
    - [print] appends a line to a list of output lines; [open] for reading
      is recorded in a list of opened paths.
    - An exception is the text of its message.  The exceptions modelled
      are those of the file system and of the library calls on paths:
      a file that cannot be read, [os.path.expanduser] and [glob.glob]
      raising on an Include pattern, a directory that cannot be made, a
      file that cannot be opened for writing, and a write that fails
      after the file was opened.
    - The disk is the text of the files written, by path; the calls of
      [os.makedirs] are recorded in a list of directories.
    - The recursion of [parse_config_file] through Include directives is
      bounded by a fuel argument; running out of fuel is [None], which is
      not a result of the program.  The recursion limit of the interpreter
      is not modelled. *)

From Stdlib Require Import ZArith Ascii String List Lia.
From stdpp Require Import gmap strings list pretty sorting.

Local Open Scope string_scope.
Local Open Scope list_scope.

(** ** Python string operations used by the program *)

Module Py.

(** [str.isspace] on one character (code points below 256). *)
Definition isspace (c : ascii) : bool :=
  let n := N_of_ascii c in
  ((9 <=? n) && (n <=? 13) || (28 <=? n) && (n <=? 32)
   || (n =? 133) || (n =? 160))%N.

(** [str.lower] on one character: ASCII and Latin-1 capitals. *)
Definition lower_char (c : ascii) : ascii :=
  let n := N_of_ascii c in
  if ((65 <=? n) && (n <=? 90)
      || (192 <=? n) && (n <=? 222) && negb (n =? 215))%N
  then ascii_of_N (n + 32) else c.

(** [str.upper] on one character of ASCII text (it is applied to the
    text of a UUID only). *)
Definition upper_char (c : ascii) : ascii :=
  let n := N_of_ascii c in
  if ((97 <=? n) && (n <=? 122))%N then ascii_of_N (n - 32) else c.

Fixpoint map_chars (f : ascii -> ascii) (s : string) : string :=
  match s with
  | EmptyString => EmptyString
  | String c s' => String (f c) (map_chars f s')
  end.

Definition lower : string -> string := map_chars lower_char.
Definition upper : string -> string := map_chars upper_char.

Fixpoint lstrip (s : string) : string :=
  match s with
  | EmptyString => EmptyString
  | String c s' => if isspace c then lstrip s' else s
  end.

Definition rstrip (s : string) : string :=
  String.rev (lstrip (String.rev s)).

(** [s.strip()] *)
Definition strip (s : string) : string := rstrip (lstrip s).

(** [s.split()]: the maximal runs of non-whitespace characters.
    [cur] is the run being read, reversed. *)
Fixpoint split_go (cur : string) (s : string) : list string :=
  match s with
  | EmptyString =>
      match cur with
      | EmptyString => []
      | _ => [String.rev cur]
      end
  | String c s' =>
      if isspace c then
        match cur with
        | EmptyString => split_go EmptyString s'
        | _ => String.rev cur :: split_go EmptyString s'
        end
      else split_go (String c cur) s'
  end.

Definition split (s : string) : list string := split_go EmptyString s.

(** [s.startswith(c)] and [s.endswith(c)] for a one-character [c]. *)
Definition startswith (s : string) (c : ascii) : bool :=
  match s with
  | String c' _ => bool_decide (c' = c)
  | EmptyString => false
  end.

Definition endswith (s : string) (c : ascii) : bool :=
  startswith (String.rev s) c.

(** [s[1:-1]] *)
Definition slice_1_m1 (s : string) : string :=
  String.substring 1 (String.length s - 2) s.

(** [sep.join(l)] *)
Definition join (sep : string) (l : list string) : string :=
  String.concat sep l.

(** [s.replace(c, new)] for a one-character [c]. *)
Fixpoint replace (c : ascii) (new : string) (s : string) : string :=
  match s with
  | EmptyString => EmptyString
  | String c' s' =>
      if bool_decide (c' = c) then new +:+ replace c new s'
      else String c' (replace c new s')
  end.

(** [c * n] *)
Fixpoint repeat_char (c : ascii) (n : nat) : string :=
  match n with
  | O => EmptyString
  | S n' => String c (repeat_char c n')
  end.

(** [sorted(l)] on strings: Python compares strings by code point,
    lexicographically. *)
Definition sorted (l : list string) : list string :=
  merge_sort String.le l.

End Py.

(** ** [posixpath] functions that are pure string functions *)

Module PosixPath.

(** [os.path.isabs] *)
Definition isabs (p : string) : bool := Py.startswith p "/".

(** [os.path.join(a, b)] *)
Definition join (a b : string) : string :=
  if Py.startswith b "/" then b
  else if bool_decide (a = EmptyString) || Py.endswith a "/" then a +:+ b
  else a +:+ "/" +:+ b.

(** [head] of [p]: everything up to and including the last slash.
    [acc] is the prefix read so far and [pending] the characters read
    since the last slash, both reversed. *)
Fixpoint head_go (acc pending : string) (p : string) : string :=
  match p with
  | EmptyString => String.rev acc
  | String c p' =>
      if bool_decide (c = "/"%char)
      then head_go (String c (pending +:+ acc)) EmptyString p'
      else head_go acc (String c pending) p'
  end.

Fixpoint rstrip_slash_rev (r : string) : string :=
  match r with
  | String c r' => if bool_decide (c = "/"%char) then rstrip_slash_rev r' else r
  | EmptyString => EmptyString
  end.

(** [os.path.dirname]: the head, without its trailing slashes unless it
    consists of slashes only. *)
Definition dirname (p : string) : string :=
  let head := head_go EmptyString EmptyString p in
  match rstrip_slash_rev (String.rev head) with
  | EmptyString => head
  | r => String.rev r
  end.

End PosixPath.

(** ** The operating system *)

(** What the program asks of its environment.  [read_text p] is what
    [open(p, 'r')] followed by iteration over the lines gives: the lines
    read, and the text of the exception if opening or reading raised one
    (after those lines).  [expanduser_error p] and [glob_error p] are the
    exceptions that [os.path.expanduser] and [glob.glob] raise on [p], if
    they raise ([ValueError] on a NUL character); [expanduser p] and
    [glob p] are their results when they return.  [write_limit p] is the
    number of characters that can be written to the file [p], once it is
    open, before a write raises (a full device); [None] is no limit. *)
Record OS := {
  abspath : string -> string;        (* os.path.abspath *)
  expanduser : string -> string;     (* os.path.expanduser *)
  expanduser_error : string -> option string;
  expandvars : string -> string;     (* os.path.expandvars *)
  path_exists : string -> bool;      (* os.path.exists *)
  isfile : string -> bool;           (* os.path.isfile *)
  glob : string -> list string;      (* glob.glob *)
  glob_error : string -> option string;
  read_text : string -> list string * option string;
  urandom16 : nat -> Z;              (* the n-th os.urandom(16), big-endian *)
  makedirs_ok : string -> bool;      (* os.makedirs(p, exist_ok=True) succeeds *)
  open_w_ok : string -> bool;        (* open(p, 'w') succeeds *)
  write_limit : string -> option nat;
}.

(** ** SSH config parsing *)

(** [{'name': host_name}] *)
Record host := Host { name : string }.

Global Instance host_eq_dec : EqDecision host.
Proof. solve_decision. Defined.

(** The state a resolution acts on: the [visited] set, which every
    recursive call shares, the lines printed and the files opened. *)
Record pstate := PState {
  visited : gset string;
  stdout : list string;
  opened : list string;
}.

Definition print (line : string) (st : pstate) : pstate :=
  PState (visited st) (stdout st ++ [line]) (opened st).

Definition print_if (verbose : bool) (line : string) (st : pstate) : pstate :=
  if verbose then print line st else st.

Definition visit (p : string) (st : pstate) : pstate :=
  PState ({[p]} ∪ visited st) (stdout st) (opened st).

Definition open_r (p : string) (st : pstate) : pstate :=
  PState (visited st) (stdout st) (opened st ++ [p]).

Definition squote : ascii := "'"%char.
Definition dquote : ascii := "034"%char.

Section Resolver.

Variable os : OS.

(** [expand_path] *)
Definition expand_path (path : string) : string :=
  let expanded := expanduser os path in
  let expanded := expandvars os expanded in
  abspath os expanded.

(** The pattern of [resolve_includes], before globbing. *)
Definition include_glob_pattern (include_line current_dir : string) : string :=
  let pattern := Py.strip include_line in
  let pattern :=
    if Py.startswith pattern dquote && Py.endswith pattern dquote
       || Py.startswith pattern squote && Py.endswith pattern squote
    then Py.slice_1_m1 pattern else pattern in
  let pattern := expanduser os pattern in
  if negb (PosixPath.isabs pattern)
  then PosixPath.join current_dir pattern else pattern.

(** [resolve_includes], when it returns. *)
Definition resolve_includes (include_line current_dir : string) : list string :=
  let matches := glob os (include_glob_pattern include_line current_dir) in
  Py.sorted (filter (fun f => isfile os f = true) matches).

(** The exception that [resolve_includes] raises, if it does: the one of
    [os.path.expanduser] on the pattern without its quotes, or else the
    one of [glob.glob] on the pattern to expand. *)
Definition resolve_includes_error (include_line current_dir : string)
    : option string :=
  let pattern := Py.strip include_line in
  let pattern :=
    if Py.startswith pattern dquote && Py.endswith pattern dquote
       || Py.startswith pattern squote && Py.endswith pattern squote
    then Py.slice_1_m1 pattern else pattern in
  match expanduser_error os pattern with
  | Some e => Some e
  | None => glob_error os (include_glob_pattern include_line current_dir)
  end.

(** The exception that leaves the body of [for line in f] on [line], if
    any: the one that [resolve_includes] raises on an Include line. *)
Definition line_error (current_dir : string) (line : string) : option string :=
  let line := Py.strip line in
  if bool_decide (line = EmptyString) || Py.startswith line "#" then None
  else
    match Py.split line with
    | [] => None
    | tok0 :: args =>
        if bool_decide (Py.lower tok0 = "include") then
          match args with
          | [] => None
          | _ => resolve_includes_error (Py.join " " args) current_dir
          end
        else None
    end.

(** What [for line in f] runs, where the file gives [lines] and then
    [err]: the lines before the first one on which an exception leaves
    the loop, and that exception; all the lines and [err] if there is no
    such line. *)
Fixpoint lines_run (current_dir : string) (lines : list string)
    (err : option string) : list string * option string :=
  match lines with
  | [] => ([], err)
  | line :: rest =>
      match line_error current_dir line with
      | Some e => ([], Some e)
      | None =>
          let '(run, err') := lines_run current_dir rest err in
          (line :: run, err')
      end
  end.

Section Loops.

(** The recursive call [parse_config_file(inc_file, visited, verbose)]. *)
Variable rec : string -> pstate -> option (list host * pstate).

(** [for inc_file in included_files: hosts.extend(rec(inc_file))] *)
Fixpoint parse_included (included_files : list string)
    (hosts : list host) (st : pstate) : option (list host * pstate) :=
  match included_files with
  | [] => Some (hosts, st)
  | inc_file :: rest =>
      match rec inc_file st with
      | None => None
      | Some (hs, st') => parse_included rest (hosts ++ hs) st'
      end
  end.

(** [for host_name in host_names: ...] *)
Fixpoint add_hosts (host_names : list string) (hosts : list host) : list host :=
  match host_names with
  | [] => hosts
  | host_name :: rest =>
      if bool_decide (host_name = "*") then add_hosts rest hosts
      else add_hosts rest (hosts ++ [Host host_name])
  end.

(** The body of [for line in f].  An exception that [resolve_includes]
    raises leaves the body before it has had an effect; [line_error] tells
    it, and [lines_run] ends the loop there. *)
Definition parse_line (verbose : bool) (current_dir : string) (line : string)
    (hosts : list host) (st : pstate) : option (list host * pstate) :=
  let line := Py.strip line in
  if bool_decide (line = EmptyString) || Py.startswith line "#" then Some (hosts, st)
  else
    match Py.split line with
    | [] => Some (hosts, st)
    | tok0 :: args =>
        let keyword := Py.lower tok0 in
        if bool_decide (keyword = "include") then
          match args with
          | [] => Some (hosts, st)
          | _ =>
              let include_pattern := Py.join " " args in
              match resolve_includes_error include_pattern current_dir with
              | Some _ => Some (hosts, st)
              | None =>
                  let included_files :=
                    resolve_includes include_pattern current_dir in
                  let st :=
                    match included_files with
                    | [] => st
                    | _ =>
                        print_if verbose
                          ("    Include directive resolved to "
                           +:+ pretty (length included_files) +:+ " file(s)") st
                    end in
                  parse_included included_files hosts st
              end
          end
        else if bool_decide (keyword = "host") then
          match args with
          | [] => Some (hosts, st)
          | host_names => Some (add_hosts host_names hosts, st)
          end
        else Some (hosts, st)
    end.

(** [for line in f: ...] *)
Fixpoint parse_lines (verbose : bool) (current_dir : string) (lines : list string)
    (hosts : list host) (st : pstate) : option (list host * pstate) :=
  match lines with
  | [] => Some (hosts, st)
  | line :: rest =>
      match parse_line verbose current_dir line hosts st with
      | None => None
      | Some (hosts', st') => parse_lines verbose current_dir rest hosts' st'
      end
  end.

End Loops.

(** [parse_config_file].  [fuel] bounds the depth of the recursion.  The
    [try] block runs the lines that [lines_run] gives; the exception that
    ends it, of the file or of an Include line, is printed by the
    handler. *)
Fixpoint parse_config_file (fuel : nat) (verbose : bool) (file_path : string)
    (st : pstate) : option (list host * pstate) :=
  match fuel with
  | O => None
  | S fuel' =>
      let file_path := abspath os file_path in
      if bool_decide (file_path ∈ visited st) then
        Some ([], print_if verbose
                    ("  Warning: Skipping already-visited file: " +:+ file_path) st)
      else
        let st := visit file_path st in
        if negb (path_exists os file_path) then
          Some ([], print_if verbose
                      ("  Warning: Config file not found: " +:+ file_path) st)
        else
          let st := print_if verbose ("  Parsing: " +:+ file_path) st in
          let current_dir := PosixPath.dirname file_path in
          let '(lines, err) := read_text os file_path in
          let '(lines, err) := lines_run current_dir lines err in
          let st := open_r file_path st in
          match parse_lines (parse_config_file fuel' verbose)
                  verbose current_dir lines [] st with
          | None => None
          | Some (hosts, st) =>
              match err with
              | None => Some (hosts, st)
              | Some e =>
                  Some (hosts, print_if verbose
                                 ("  Error reading " +:+ file_path +:+ ": " +:+ e) st)
              end
          end
  end.

Definition initial_state (out : list string) : pstate := PState ∅ out [].

(** [parse_ssh_config]: a fresh [visited] set for each call. *)
Definition parse_ssh_config (fuel : nat) (config_path : string) (verbose : bool)
    (out : list string) : option (list host * pstate) :=
  parse_config_file fuel verbose config_path (initial_state out).

End Resolver.

(** ** Profile generation *)

(** The Python values the program builds and serialises: [str], [list]
    and [dict].  A dict is the list of its items in insertion order. *)
#[local] Unset Elimination Schemes.
Inductive pyval :=
| PyStr (s : string)
| PyList (l : list pyval)
| PyDict (items : list (string * pyval)).
#[local] Set Elimination Schemes.

(** [d[key]]; [None] is [KeyError]. *)
Fixpoint dict_get (key : string) (items : list (string * pyval)) : option pyval :=
  match items with
  | [] => None
  | (k, v) :: rest => if bool_decide (k = key) then Some v else dict_get key rest
  end.

Definition getitem (key : string) (v : pyval) : option pyval :=
  match v with
  | PyDict items => dict_get key items
  | _ => None
  end.

Module Uuid.

(** One lower-case hexadecimal digit. *)
Definition hex_digit (d : Z) : ascii :=
  if (d <? 10)%Z then ascii_of_N (Z.to_N (48 + d))
  else ascii_of_N (Z.to_N (87 + d)).

(** The [k] low hexadecimal digits of [n], most significant first:
    ['%0kx' % n] for [0 <= n < 16^k]. *)
Fixpoint hex_fixed (k : nat) (n : Z) : string :=
  match k with
  | O => EmptyString
  | S k' => hex_fixed k' (n / 16) +:+ String (hex_digit (n mod 16)) EmptyString
  end.

(** [UUID(bytes=b, version=4).int] where [r] is [int.from_bytes(b)]. *)
Definition v4_int (r : Z) : Z :=
  let int := r in
  let int := Z.land int (Z.lnot (Z.shiftl 0xc000 48)) in
  let int := Z.lor int (Z.shiftl 0x8000 48) in
  let int := Z.land int (Z.lnot (Z.shiftl 0xf000 64)) in
  Z.lor int (Z.shiftl 4 76).

(** [str(u)] for a UUID with integer value [int]. *)
Definition to_str (int : Z) : string :=
  let hex := hex_fixed 32 int in
  String.substring 0 8 hex +:+ "-" +:+ String.substring 8 4 hex +:+ "-"
  +:+ String.substring 12 4 hex +:+ "-" +:+ String.substring 16 4 hex +:+ "-"
  +:+ String.substring 20 12 hex.

End Uuid.

Section Generator.

Variable os : OS.

(** [uuid.uuid4()], at the [n]-th draw from the random source: sixteen
    random bytes read as a big-endian integer. *)
Definition uuid4 (n : nat) : Z :=
  Uuid.v4_int (urandom16 os n mod 2 ^ 128).

(** [generate_guid]; the state is the number of draws made so far. *)
Definition generate_guid (n : nat) : string * nat :=
  (Py.upper (Uuid.to_str (uuid4 n)), S n).

(** [create_profile] *)
Definition create_profile (host_name parent_profile : string) (n : nat)
    : pyval * nat :=
  let '(guid, n') := generate_guid n in
  (PyDict [ ("Name", PyStr host_name);
            ("Guid", PyStr guid);
            ("Dynamic Profile Parent Name", PyStr parent_profile);
            ("Custom Command", PyStr "Yes");
            ("Command", PyStr ("ssh " +:+ host_name));
            ("Tags", PyList [PyStr "ssh"]) ],
   n').

(** The loop of [generate_profiles]. *)
Fixpoint generate_profiles_loop (hosts : list host) (parent_profile : string)
    (profiles : list pyval) (n : nat) : list pyval * nat :=
  match hosts with
  | [] => (profiles, n)
  | h :: rest =>
      let '(profile, n') := create_profile (name h) parent_profile n in
      generate_profiles_loop rest parent_profile (profiles ++ [profile]) n'
  end.

(** [generate_profiles] *)
Definition generate_profiles (hosts : list host) (parent_profile : string)
    (n : nat) : list pyval * nat :=
  generate_profiles_loop hosts parent_profile [] n.

End Generator.

(** ** [json.dump(obj, f, indent=2)] for [str], [list] and [dict] *)

Module Json.

Definition nl : string := String "010" EmptyString.

(** ['\\u{0:04x}'.format(n)] *)
Definition u_escape (c : ascii) : string :=
  String "\" (String "u" (Uuid.hex_fixed 4 (Z.of_N (N_of_ascii c)))).

(** The replacement of one character in [encode_basestring_ascii]. *)
Definition escape_char (c : ascii) : string :=
  let n := N_of_ascii c in
  if bool_decide (c = "\"%char) then String "\" (String "\" EmptyString)
  else if bool_decide (c = dquote) then String "\" (String dquote EmptyString)
  else if (n =? 8)%N then String "\" (String "b" EmptyString)
  else if (n =? 12)%N then String "\" (String "f" EmptyString)
  else if (n =? 10)%N then String "\" (String "n" EmptyString)
  else if (n =? 13)%N then String "\" (String "r" EmptyString)
  else if (n =? 9)%N then String "\" (String "t" EmptyString)
  else if ((32 <=? n) && (n <=? 126))%N then String c EmptyString
  else u_escape c.

Fixpoint escape (s : string) : string :=
  match s with
  | EmptyString => EmptyString
  | String c s' => escape_char c +:+ escape s'
  end.

(** [encode_basestring_ascii] *)
Definition encode_str (s : string) : string :=
  String dquote (escape s +:+ String dquote EmptyString).

(** ['\n' + ' ' * (2 * level)] *)
Definition newline_indent (level : nat) : string :=
  nl +:+ Py.repeat_char " " (2 * level).

(** [_iterencode], [_iterencode_list] and [_iterencode_dict], with the
    chunks concatenated. *)
Fixpoint encode (level : nat) (v : pyval) : string :=
  match v with
  | PyStr s => encode_str s
  | PyList [] => "[]"
  | PyList (x :: l) =>
      "[" +:+ newline_indent (S level) +:+ encode (S level) x
      +:+ (fix rest (l : list pyval) : string :=
             match l with
             | [] => EmptyString
             | y :: l' =>
                 "," +:+ newline_indent (S level) +:+ encode (S level) y
                 +:+ rest l'
             end) l
      +:+ newline_indent level +:+ "]"
  | PyDict [] => "{}"
  | PyDict ((k, x) :: l) =>
      "{" +:+ newline_indent (S level) +:+ encode_str k +:+ ": "
      +:+ encode (S level) x
      +:+ (fix rest (l : list (string * pyval)) : string :=
             match l with
             | [] => EmptyString
             | (k', y) :: l' =>
                 "," +:+ newline_indent (S level) +:+ encode_str k' +:+ ": "
                 +:+ encode (S level) y +:+ rest l'
             end) l
      +:+ newline_indent level +:+ "}"
  end.

(** [json.dumps(v, indent=2)] *)
Definition dumps (v : pyval) : string := encode 0 v.

End Json.

(** ** Output *)

(** The state of the writers and of [main]: what was written to standard
    output, one element per [print] (or prompt), the text of the files
    written, by path, and the directories [os.makedirs] was called on,
    in order.  Such a call may leave the directory, or directories above
    it, made also when it raises. *)
Record world := {
  w_stdout : list string;
  w_disk : gmap string string;
  w_dirs : list string;
}.

(** A state in which [os.makedirs] has not been called. *)
Definition World (out : list string) (disk : gmap string string) : world :=
  {| w_stdout := out; w_disk := disk; w_dirs := [] |}.

(** How a call ends: it returns, or an exception leaves it. *)
Inductive outcome (A : Type) :=
| Returned (a : A)
| Raised (exn : string).
Arguments Returned {A} a.
Arguments Raised {A} exn.

Definition wprint (line : string) (w : world) : world :=
  {| w_stdout := w_stdout w ++ [line]; w_disk := w_disk w; w_dirs := w_dirs w |}.

Definition wprint_if (verbose : bool) (line : string) (w : world) : world :=
  if verbose then wprint line w else w.

Definition write_file (path text : string) (w : world) : world :=
  {| w_stdout := w_stdout w; w_disk := <[path := text]> (w_disk w);
     w_dirs := w_dirs w |}.

Definition called_makedirs (dir : string) (w : world) : world :=
  {| w_stdout := w_stdout w; w_disk := w_disk w; w_dirs := w_dirs w ++ [dir] |}.

Definition with_stdout (out : list string) (w : world) : world :=
  {| w_stdout := out; w_disk := w_disk w; w_dirs := w_dirs w |}.

Section Writer.

Variable os : OS.

(** [os.makedirs(dir, exist_ok=True)] *)
Definition makedirs (dir : string) (w : world) : outcome unit * world :=
  let w := called_makedirs dir w in
  if makedirs_ok os dir then (Returned tt, w)
  else (Raised ("OSError: " +:+ dir), w).

(** [with open(path, 'w') as f: json.dump(output, f, indent=2)].  When
    the file cannot be opened nothing is written.  Once it is open it
    holds what was written to it: the whole text, or, when a write
    raises, the characters written before. *)
Definition dump_to (path : string) (output : pyval) (w : world)
    : outcome unit * world :=
  if open_w_ok os path then
    let text := Json.dumps output in
    match write_limit os path with
    | Some n =>
        if (n <? String.length text)%nat
        then (Raised ("OSError: " +:+ path),
              write_file path (String.substring 0 n text) w)
        else (Returned tt, write_file path text w)
    | None => (Returned tt, write_file path text w)
    end
  else (Raised ("OSError: " +:+ path), w).

(** [write_single_file] *)
Definition write_single_file (profiles : list pyval) (output_path : string)
    (verbose : bool) (w : world) : outcome unit * world :=
  let output_dir := PosixPath.dirname output_path in
  let made :=
    if bool_decide (output_dir = EmptyString) then (Returned tt, w)
    else makedirs output_dir w in
  match made with
  | (Raised e, w) => (Raised e, w)
  | (Returned _, w) =>
      let output := PyDict [("Profiles", PyList profiles)] in
      match dump_to output_path output w with
      | (Raised e, w') => (Raised e, w')
      | (Returned _, w') =>
          (Returned tt,
           wprint_if verbose
             (Json.nl +:+ "Wrote " +:+ pretty (length profiles)
              +:+ " profile(s) to: " +:+ output_path) w')
      end
  end.

(** [profile['Name'].replace('/', '_').replace('*', 'wildcard')] *)
Definition sanitize (profile_name : string) : string :=
  Py.replace "*" "wildcard" (Py.replace "/" "_" profile_name).

(** The file a profile named [profile_name] is written to. *)
Definition multi_file_path (output_dir profile_name : string) : string :=
  PosixPath.join output_dir (sanitize profile_name +:+ ".json").

(** [for profile in profiles: ...] of [write_multi_file] *)
Fixpoint write_multi_loop (profiles : list pyval) (output_dir : string)
    (verbose : bool) (w : world) : outcome unit * world :=
  match profiles with
  | [] => (Returned tt, w)
  | profile :: rest =>
      match getitem "Name" profile with
      | Some (PyStr profile_name) =>
          let filepath := multi_file_path output_dir profile_name in
          let output := PyDict [("Profiles", PyList [profile])] in
          match dump_to filepath output w with
          | (Raised e, w') => (Raised e, w')
          | (Returned _, w') =>
              write_multi_loop rest output_dir verbose
                (wprint_if verbose ("  Wrote: " +:+ filepath) w')
          end
      | Some _ => (Raised "AttributeError", w)
      | None => (Raised "KeyError: 'Name'", w)
      end
  end.

(** [write_multi_file] *)
Definition write_multi_file (profiles : list pyval) (output_dir : string)
    (verbose : bool) (w : world) : outcome unit * world :=
  match makedirs output_dir w with
  | (Raised e, w) => (Raised e, w)
  | (Returned _, w) =>
      match write_multi_loop profiles output_dir verbose w with
      | (Raised e, w') => (Raised e, w')
      | (Returned _, w') =>
          (Returned tt,
           wprint_if verbose
             (Json.nl +:+ "Wrote " +:+ pretty (length profiles)
              +:+ " profile(s) to: " +:+ output_dir) w')
      end
  end.

End Writer.

(** ** The command line *)

(** The namespace [parse_arguments] returns. *)
Record args := Args {
  config : string;
  output_dir : string;
  multi_file : bool;
  parent_profile : string;
  yes : bool;
  verbose : bool;
  quiet : bool;
}.

(** How the process ends, and what it leaves behind. *)
Record run := Run {
  exit_status : Z;
  final : world;
}.

Section Main.

Variable os : OS.

(** [for i, host in enumerate(hosts, 1): print(f"  {i}. {host['name']}")] *)
Fixpoint print_hosts (i : nat) (hosts : list host) (w : world) : world :=
  match hosts with
  | [] => w
  | h :: rest =>
      print_hosts (S i) rest
        (wprint ("  " +:+ pretty i +:+ ". " +:+ name h) w)
  end.

(** [confirm_write]; [answer] is the line [input] reads, [None] at end
    of input ([EOFError]). *)
Definition confirm_write (profiles : list pyval) (answer : option string)
    (w : world) : outcome bool * world :=
  let w := wprint (Json.nl +:+ "Ready to write " +:+ pretty (length profiles)
                   +:+ " profile(s).") w in
  let w := wprint "Proceed? [Y/n]: " w in
  match answer with
  | None => (Raised "EOFError", w)
  | Some line =>
      let response := Py.lower (Py.strip line) in
      (Returned (bool_decide (response = EmptyString)
                 || bool_decide (response = "y")
                 || bool_decide (response = "yes")), w)
  end.

(** [main], from the parsed arguments on.  An exception that leaves
    [main] ends the process with status 1; [sys.exit(n)] with status
    [n]; returning with status 0.  [None] is running out of [fuel]. *)
Definition main (fuel : nat) (a : args) (answer : option string) : option run :=
  let verbose := verbose a && negb (quiet a) in
  let banner := Py.repeat_char "=" 60 in
  let w := World [] ∅ in
  let w := wprint_if verbose banner w in
  let w := wprint_if verbose "SSH Config to iTerm2 Dynamic Profiles Converter" w in
  let w := wprint_if verbose banner w in
  let config_path := expand_path os (config a) in
  let output_dir := expand_path os (output_dir a) in
  let w := wprint_if verbose (Json.nl +:+ "Configuration:") w in
  let w := wprint_if verbose ("  SSH config: " +:+ config_path) w in
  let w := wprint_if verbose ("  Output directory: " +:+ output_dir) w in
  let w := wprint_if verbose
             ("  Output mode: "
              +:+ (if negb (multi_file a) then "single-file" else "multi-file")) w in
  let w := wprint_if verbose ("  Parent profile: " +:+ parent_profile a) w in
  if negb (path_exists os config_path) then
    Some (Run 1 (wprint (Json.nl +:+ "Error: SSH config file not found: "
                         +:+ config_path) w))
  else
    let w := wprint_if verbose (Json.nl +:+ "Parsing SSH config...") w in
    match parse_ssh_config os fuel config_path verbose (w_stdout w) with
    | None => None
    | Some (hosts, st) =>
        let w := with_stdout (stdout st) w in
        match hosts with
        | [] => Some (Run 0 (wprint (Json.nl +:+ "No Host entries found in SSH config.") w))
        | _ =>
            let w := wprint_if verbose
                       (Json.nl +:+ "Found " +:+ pretty (length hosts)
                        +:+ " Host entries:") w in
            let w := if verbose then print_hosts 1 hosts w else w in
            let w := wprint_if verbose (Json.nl +:+ "Generating iTerm2 profiles...") w in
            let '(profiles, _) := generate_profiles os hosts (parent_profile a) 0 in
            let confirmed :=
              if negb (yes a) then confirm_write profiles answer w
              else (Returned true, w) in
            match confirmed with
            | (Raised _, w) => Some (Run 1 w)
            | (Returned false, w) =>
                Some (Run 0 (wprint (Json.nl +:+ "Cancelled by user.") w))
            | (Returned true, w) =>
                let w := wprint_if verbose (Json.nl +:+ "Writing profiles...") w in
                let written :=
                  if multi_file a then write_multi_file os profiles output_dir verbose w
                  else write_single_file os profiles
                         (PosixPath.join output_dir "ssh-hosts.json") verbose w in
                match written with
                | (Raised _, w) => Some (Run 1 w)
                | (Returned _, w) =>
                    let w := wprint_if verbose (Json.nl +:+ "Done!") w in
                    let w := wprint_if verbose banner w in
                    Some (Run 0 w)
                end
            end
        end
    end.

End Main.

(** ** Reading a JSON document back

    [json.loads] on documents made of strings, arrays and objects (the
    values the program writes); numbers and the literals [true], [false]
    and [null] are outside this model and read as a failure.  An object
    becomes a dict: a repeated key keeps its first position and its last
    value. *)

Module JsonRead.

Definition is_ws (c : ascii) : bool :=
  let n := N_of_ascii c in
  ((n =? 32) || (n =? 9) || (n =? 10) || (n =? 13))%N.

Fixpoint skip_ws (s : string) : string :=
  match s with
  | EmptyString => EmptyString
  | String c s' => if is_ws c then skip_ws s' else s
  end.

Definition hex_val (c : ascii) : option N :=
  let n := N_of_ascii c in
  if ((48 <=? n) && (n <=? 57))%N then Some (n - 48)%N
  else if ((97 <=? n) && (n <=? 102))%N then Some (n - 87)%N
  else if ((65 <=? n) && (n <=? 70))%N then Some (n - 55)%N
  else None.

Definition hex4 (a b c d : ascii) : option N :=
  match hex_val a, hex_val b, hex_val c, hex_val d with
  | Some x, Some y, Some z, Some t => Some (((x * 16 + y) * 16 + z) * 16 + t)%N
  | _, _, _, _ => None
  end.

(** The character a two-character escape stands for. *)
Definition simple_escape (e : ascii) : option ascii :=
  if bool_decide (e = dquote) then Some dquote
  else if bool_decide (e = "\"%char) then Some "\"%char
  else if bool_decide (e = "/"%char) then Some "/"%char
  else if bool_decide (e = "b"%char) then Some "008"%char
  else if bool_decide (e = "f"%char) then Some "012"%char
  else if bool_decide (e = "n"%char) then Some "010"%char
  else if bool_decide (e = "r"%char) then Some "013"%char
  else if bool_decide (e = "t"%char) then Some "009"%char
  else None.

Definition cons_char (c : ascii) (r : option (string * string))
    : option (string * string) :=
  match r with
  | Some (str, rest) => Some (String c str, rest)
  | None => None
  end.

(** The characters of a string, after its opening quote, up to the
    closing one; control characters must be escaped, and an escaped code
    point must be below 256. *)
Fixpoint parse_chars (s : string) : option (string * string) :=
  match s with
  | EmptyString => None
  | String c s' =>
      if bool_decide (c = dquote) then Some (EmptyString, s')
      else if bool_decide (c = "\"%char) then
        match s' with
        | String e s'' =>
            match simple_escape e with
            | Some ch => cons_char ch (parse_chars s'')
            | None =>
                if bool_decide (e = "u"%char) then
                  match s'' with
                  | String h1 (String h2 (String h3 (String h4 s5))) =>
                      match hex4 h1 h2 h3 h4 with
                      | Some n =>
                          if (n <? 256)%N
                          then cons_char (ascii_of_N n) (parse_chars s5)
                          else None
                      | None => None
                      end
                  | _ => None
                  end
                else None
            end
        | EmptyString => None
        end
      else if (N_of_ascii c <? 32)%N then None
      else cons_char c (parse_chars s')
  end.

(** [d[k] = v] *)
Fixpoint dict_set (k : string) (v : pyval) (items : list (string * pyval))
    : list (string * pyval) :=
  match items with
  | [] => [(k, v)]
  | (k', v') :: rest =>
      if bool_decide (k' = k) then (k', v) :: rest
      else (k', v') :: dict_set k v rest
  end.

(** The dict of a list of pairs. *)
Definition dict_of (pairs : list (string * pyval)) : list (string * pyval) :=
  fold_left (fun d kv => dict_set (fst kv) (snd kv) d) pairs [].

(** The next character that is not white space, and what follows it. *)
Definition next_char (s : string) : option (ascii * string) :=
  match skip_ws s with
  | EmptyString => None
  | String c rest => Some (c, rest)
  end.

(** A value, the elements of a non-empty array after its bracket, the
    members of a non-empty object after its brace.  Each call consumes
    input, so a fuel of the length of the input is enough. *)
Fixpoint parse_value (fuel : nat) (s : string) : option (pyval * string) :=
  match fuel with
  | O => None
  | S f =>
      match next_char s with
      | None => None
      | Some (c, s') =>
          if bool_decide (c = dquote) then
            match parse_chars s' with
            | Some (str, rest) => Some (PyStr str, rest)
            | None => None
            end
          else if bool_decide (c = "["%char) then
            match next_char s' with
            | None => None
            | Some (c', rest) =>
                if bool_decide (c' = "]"%char) then Some (PyList [], rest)
                else
                  match parse_elements f s' with
                  | Some (l, rest') => Some (PyList l, rest')
                  | None => None
                  end
            end
          else if bool_decide (c = "{"%char) then
            match next_char s' with
            | None => None
            | Some (c', rest) =>
                if bool_decide (c' = "}"%char) then Some (PyDict [], rest)
                else
                  match parse_members f s' with
                  | Some (pairs, rest') => Some (PyDict (dict_of pairs), rest')
                  | None => None
                  end
            end
          else None
      end
  end
with parse_elements (fuel : nat) (s : string) : option (list pyval * string) :=
  match fuel with
  | O => None
  | S f =>
      match parse_value f s with
      | None => None
      | Some (v, rest) =>
          match next_char rest with
          | None => None
          | Some (c, rest') =>
              if bool_decide (c = ","%char) then
                match parse_elements f rest' with
                | Some (l, rest'') => Some (v :: l, rest'')
                | None => None
                end
              else if bool_decide (c = "]"%char) then Some ([v], rest')
              else None
          end
      end
  end
with parse_members (fuel : nat) (s : string)
    : option (list (string * pyval) * string) :=
  match fuel with
  | O => None
  | S f =>
      match next_char s with
      | None => None
      | Some (c, s') =>
          if bool_decide (c = dquote) then
            match parse_chars s' with
            | None => None
            | Some (k, rest) =>
                match next_char rest with
                | None => None
                | Some (c', rest') =>
                    if bool_decide (c' = ":"%char) then
                      match parse_value f rest' with
                      | None => None
                      | Some (v, rest'') =>
                          match next_char rest'' with
                          | None => None
                          | Some (c'', r) =>
                              if bool_decide (c'' = ","%char) then
                                match parse_members f r with
                                | Some (l, r') => Some ((k, v) :: l, r')
                                | None => None
                                end
                              else if bool_decide (c'' = "}"%char)
                              then Some ([(k, v)], r)
                              else None
                          end
                      end
                    else None
                end
            end
          else None
      end
  end.

(** [json.loads]: one value, then only white space. *)
Definition loads (s : string) : option pyval :=
  match parse_value (String.length s) s with
  | Some (v, rest) =>
      if bool_decide (skip_ws rest = EmptyString) then Some v else None
  | None => None
  end.

End JsonRead.

(** ** Concrete environments, for examples *)

Module Env.

(** [s.split('/')]; [cur] is the component being read, reversed. *)
Fixpoint split_slash (cur : string) (s : string) : list string :=
  match s with
  | EmptyString => [String.rev cur]
  | String c s' =>
      if bool_decide (c = "/"%char)
      then String.rev cur :: split_slash EmptyString s'
      else split_slash (String c cur) s'
  end.

(** The loop of [posixpath.normpath] over the components; [new_comps]
    is kept reversed. *)
Fixpoint norm_comps (absolute : bool) (comps new_comps : list string) : list string :=
  match comps with
  | [] => rev new_comps
  | comp :: rest =>
      if bool_decide (comp = EmptyString) || bool_decide (comp = ".")
      then norm_comps absolute rest new_comps
      else if negb (bool_decide (comp = ".."))
              || (negb absolute && bool_decide (new_comps = []))
              || bool_decide (head new_comps = Some "..")
      then norm_comps absolute rest (comp :: new_comps)
      else norm_comps absolute rest (tail new_comps)
  end.

(** [posixpath.normpath] *)
Definition normpath (path : string) : string :=
  match path with
  | EmptyString => "."
  | _ =>
      let initial_slashes :=
        if String.prefix "/" path then
          if String.prefix "//" path && negb (String.prefix "///" path)
          then "//" else "/"
        else EmptyString in
      let comps :=
        norm_comps (negb (bool_decide (initial_slashes = EmptyString)))
          (split_slash EmptyString path) [] in
      match initial_slashes +:+ Py.join "/" comps with
      | EmptyString => "."
      | p => p
      end
  end.

(** [posixpath.abspath] in the working directory [cwd]. *)
Definition abspath_in (cwd path : string) : string :=
  normpath (if PosixPath.isabs path then path else PosixPath.join cwd path).

(** Whether the user name that starts [s] (up to the first slash) holds
    a NUL character. *)
Fixpoint user_has_nul (s : string) : bool :=
  match s with
  | EmptyString => false
  | String c s' =>
      if bool_decide (c = "/"%char) then false
      else bool_decide (c = "000"%char) || user_has_nul s'
  end.

(** [posixpath.expanduser] raises on [~user] when the name of the user
    holds a NUL character: [pwd.getpwnam] refuses it. *)
Definition expanduser_error_in (path : string) : option string :=
  match path with
  | String "~" rest =>
      if user_has_nul rest then Some "embedded null byte" else None
  | _ => None
  end.

(** [posixpath.expanduser] for the current user, whose home is [home]. *)
Definition expanduser_in (home path : string) : string :=
  match path with
  | String "~" EmptyString => home
  | String "~" (String "/" rest) => home +:+ String "/" rest
  | _ => path
  end.

Fixpoint assoc {A} (k : string) (l : list (string * A)) : option A :=
  match l with
  | [] => None
  | (k', a) :: rest => if bool_decide (k' = k) then Some a else assoc k rest
  end.

(** What a path names. *)
Inductive node :=
| File (lines : list string)        (* a readable regular file *)
| Locked                            (* a regular file that cannot be opened *)
| Dir                               (* a directory *)
| Link (target : string).           (* a symbolic link to a path *)

(** Follow symbolic links, at most [n] of them. *)
Fixpoint follow (n : nat) (fs : list (string * node)) (p : string) : string :=
  match n, assoc p fs with
  | S n', Some (Link t) => follow n' fs t
  | _, _ => p
  end.

(** [os.path.realpath], for paths whose last component only may be a
    link. *)
Definition realpath_in (fs : list (string * node)) (cwd p : string) : string :=
  follow (length fs) fs (abspath_in cwd p).

Definition resolve (fs : list (string * node)) (p : string) : option node :=
  assoc (follow (length fs) fs p) fs.

(** A machine with the files [fs] (by absolute path), where a pattern
    listed in [globs] matches the paths listed with it and any other
    pattern matches itself if it exists and [glob.glob] does not raise,
    where no environment variable is referenced, the [n]-th random value
    is [rand n], and every write succeeds. *)
Definition machine (home cwd : string) (fs : list (string * node))
    (globs : list (string * list string)) (rand : nat -> Z) : OS :=
  {| abspath := abspath_in cwd;
     expanduser := expanduser_in home;
     expanduser_error := expanduser_error_in;
     expandvars := fun p => p;
     path_exists := fun p => bool_decide (is_Some (resolve fs (PosixPath.join cwd p)));
     isfile := fun p =>
       match resolve fs (PosixPath.join cwd p) with
       | Some (File _) | Some Locked => true
       | _ => false
       end;
     glob := fun pattern =>
       match assoc pattern globs with
       | Some l => l
       | None =>
           if bool_decide (is_Some (resolve fs (PosixPath.join cwd pattern)))
           then [pattern] else []
       end;
     glob_error := fun _ => None;
     read_text := fun p =>
       match resolve fs (PosixPath.join cwd p) with
       | Some (File lines) => (lines, None)
       | Some Locked => ([], Some ("[Errno 13] Permission denied: '" +:+ p +:+ "'"))
       | Some Dir => ([], Some ("[Errno 21] Is a directory: '" +:+ p +:+ "'"))
       | _ => ([], Some ("[Errno 2] No such file or directory: '" +:+ p +:+ "'"))
       end;
     urandom16 := rand;
     makedirs_ok := fun _ => true;
     open_w_ok := fun _ => true;
     write_limit := fun _ => None |}.

(** The scenario of the specification: a config with two [Host] lines
    and an [Include] of a sibling file. *)
Definition scenario_fs : list (string * node) :=
  [ ("/home/u/.ssh", Dir);
    ("/home/u/.ssh/config",
     File ["Host alpha beta"; "Host *"; "Include other.conf"]);
    ("/home/u/.ssh/other.conf", File ["Host gamma"]) ].

Definition scenario : OS :=
  machine "/home/u" "/home/u" scenario_fs [] (fun n => Z.of_nat n).

(** The same machine with a random source that gives the same sixteen
    bytes at every draw. *)
Definition repeating : OS :=
  machine "/home/u" "/home/u" scenario_fs [] (fun _ => 7%Z).

(** A config without any entry. *)
Definition hostless_fs : list (string * node) :=
  [ ("/home/u/.ssh", Dir);
    ("/home/u/.ssh/config", File ["# no host yet"; "Host *"; "  User u"]) ].

Definition hostless : OS :=
  machine "/home/u" "/home/u" hostless_fs [] (fun n => Z.of_nat n).

(** The arguments of a run with the defaults of the command line,
    without the confirmation. *)
Definition default_args : args :=
  Args "~/.ssh/config" "~/Library/Application Support/iTerm2/DynamicProfiles"
    false "Default" true true false.

(** Two files that include each other. *)
Definition cycle_fs : list (string * node) :=
  [ ("/etc/ssh", Dir);
    ("/etc/ssh/a.conf", File ["Host a1"; "Include b.conf"; "Host a2"]);
    ("/etc/ssh/b.conf", File ["Host b1"; "Include a.conf"; "Host b2"]) ].

Definition cycle : OS :=
  machine "/home/u" "/etc/ssh" cycle_fs [] (fun n => Z.of_nat n).

(** A file included once under its own name and once through a
    symbolic link to it. *)
Definition link_fs : list (string * node) :=
  [ ("/cfg", Dir);
    ("/cfg/main", File ["Include a.conf"; "Include link.conf"]);
    ("/cfg/a.conf", File ["Host alpha"]);
    ("/cfg/link.conf", Link "/cfg/a.conf") ].

Definition link : OS :=
  machine "/home/u" "/cfg" link_fs [] (fun n => Z.of_nat n).

(** An Include whose pattern matches nothing, a file that cannot be
    opened, an Include of a missing file, and directives without
    arguments. *)
Definition faulty_fs : list (string * node) :=
  [ ("/cfg", Dir);
    ("/cfg/main",
     File ["Include conf.d/*.conf"; "Host first"; "Include locked.conf";
           "Include"; "Host"; "Include gone.conf"; "Host last"]);
    ("/cfg/locked.conf", Locked) ].

Definition faulty : OS :=
  machine "/home/u" "/cfg" faulty_fs
    [("/cfg/conf.d/*.conf", [])] (fun n => Z.of_nat n).




End Env.

(** ** Notions used by the statements *)

(** The tokens of a line that is neither blank nor a comment. *)
Definition tokens_of (line : string) : option (list string) :=
  let line := Py.strip line in
  if bool_decide (line = EmptyString) || Py.startswith line "#" then None
  else Some (Py.split line).

(** A string without white space, as [split] gives them. *)
Fixpoint no_space (s : string) : bool :=
  match s with
  | EmptyString => true
  | String c s' => negb (Py.isspace c) && no_space s'
  end.

Definition token (t : string) : Prop := t ≠ EmptyString ∧ no_space t = true.

(** A string that does not start with white space. *)
Definition starts_clean (s : string) : Prop :=
  match s with
  | EmptyString => True
  | String c _ => Py.isspace c = false
  end.



(** The bits of a random draw that [uuid4] keeps: all 128 but the two of
    the variant and the four of the version. *)
Definition free_bits (r : Z) : Z :=
  Z.land (r mod 2 ^ 128)
    (Z.lnot (Z.lor (Z.shiftl 0xc000 48) (Z.shiftl 0xf000 64))).

(** One upper-case hexadecimal digit. *)
Definition HEX_digit (d : Z) : ascii :=
  if (d <? 10)%Z then ascii_of_N (Z.to_N (48 + d))
  else ascii_of_N (Z.to_N (55 + d)).

(** The [k] low hexadecimal digits of [n] with the digits [digit], most
    significant first. *)
Fixpoint hex_with (digit : Z → ascii) (k : nat) (n : Z) : string :=
  match k with
  | O => EmptyString
  | S k' => hex_with digit k' (n / 16)%Z +:+ String (digit (n mod 16)%Z) EmptyString
  end.

(** The groups 8-4-4-4-12 of 32 digits, with dashes. *)
Definition grouped (hex : string) : string :=
  String.substring 0 8 hex +:+ "-" +:+ String.substring 8 4 hex +:+ "-"
  +:+ String.substring 12 4 hex +:+ "-" +:+ String.substring 16 4 hex +:+ "-"
  +:+ String.substring 20 12 hex.

(** The upper-case canonical text of a 128-bit value. *)
Definition canonical_upper (v : Z) : string := grouped (hex_with HEX_digit 32 v).

(** The record of a host, given its identifier. *)
Definition profile_record (host_name guid parent : string) : pyval :=
  PyDict [ ("Name", PyStr host_name);
           ("Guid", PyStr guid);
           ("Dynamic Profile Parent Name", PyStr parent);
           ("Custom Command", PyStr "Yes");
           ("Command", PyStr ("ssh " +:+ host_name));
           ("Tags", PyList [PyStr "ssh"]) ].

(** A dict without its [Guid] item. *)
Definition without_guid (p : pyval) : pyval :=
  match p with
  | PyDict items => PyDict (filter (λ kv, kv.1 ≠ "Guid") items)
  | _ => p
  end.

(** Two calls agree: both run out of fuel, or both return, with the same
    entries and the same [visited] set. *)
Definition agree (r r' : option (list host * pstate)) : Prop :=
  match r, r' with
  | Some (hs, st), Some (hs', st') => hs = hs' ∧ visited st = visited st'
  | None, None => True
  | _, _ => False
  end.

(** The entries [parse_ssh_config] finds. *)
Definition hosts_of (os : OS) (fuel : nat) (config_path : string)
    : option (list host) :=
  fst <$> parse_ssh_config os fuel config_path true [].

(** The file [write_multi_file] writes a profile to. *)
Definition profile_path (dir : string) (p : pyval) : option string :=
  match getitem "Name" p with
  | Some (PyStr n) => Some (multi_file_path dir n)
  | _ => None
  end.

(** The document of one profile. *)
Definition single_doc (p : pyval) : pyval := PyDict [("Profiles", PyList [p])].

(** The last of [profiles] that is written to [path]. *)
Fixpoint last_written (dir path : string) (profiles : list pyval) : option pyval :=
  match profiles with
  | [] => None
  | p :: rest =>
      match last_written dir path rest with
      | Some q => Some q
      | None => if bool_decide (profile_path dir p = Some path) then Some p else None
      end
  end.

(** The write is confirmed: [--yes], or an answer that [confirm_write]
    accepts. *)
Definition confirmed (a : args) (answer : option string) : bool :=
  yes a
  || match answer with
     | Some line =>
         let response := Py.lower (Py.strip line) in
         bool_decide (response = EmptyString) || bool_decide (response = "y")
         || bool_decide (response = "yes")
     | None => false
     end.

(** An alias other than the wildcard. *)
Definition nonwild (n : string) : Prop := n ≠ "*".

Section Notions.

Variable os : OS.

(** What one call contributes, and how it moves the state: the
    [visited] set only grows, and by results of [abspath] only; the
    files it opens are new, pairwise distinct, and are in the [visited]
    set afterwards; output is only appended, and nothing is printed when
    [verbose] is off; no entry is the wildcard. *)
Record step_ok (verbose : bool) (st : pstate) (hs : list host) (st' : pstate)
    : Prop := {
  ok_visited : visited st ⊆ visited st';
  ok_keys : ∀ q, q ∈ visited st' → q ∈ visited st ∨ ∃ p, q = abspath os p;
  ok_opened : ∃ new, opened st' = opened st ++ new ∧ NoDup new
                     ∧ ∀ q, q ∈ new → q ∈ visited st' ∧ q ∉ visited st;
  ok_stdout : ∃ o, stdout st' = stdout st ++ o ∧ (verbose = false → o = []);
  ok_hosts : Forall (λ h, name h ≠ "*") hs;
}.

Definition rec_ok (verbose : bool)
    (rec : string → pstate → option (list host * pstate)) : Prop :=
  ∀ p st hs st', rec p st = Some (hs, st') → step_ok verbose st hs st'.

(** [rec'] gives every result that [rec] gives. *)
Definition rec_le (rec rec' : string → pstate → option (list host * pstate)) : Prop :=
  ∀ p st r, rec p st = Some r → rec' p st = Some r.

End Notions.

(** ** Notions used by the statements: JSON *)

(** Induction on a value, with the property for the values it holds. *)
Section PyvalInd.
Variable P : pyval → Prop.
Hypothesis Hstr : ∀ s, P (PyStr s).
Hypothesis Hlist : ∀ l, Forall P l → P (PyList l).
Hypothesis Hdict : ∀ items, Forall (λ kv, P kv.2) items → P (PyDict items).

Fixpoint pyval_ind (v : pyval) : P v :=
  match v with
  | PyStr s => Hstr s
  | PyList l =>
      Hlist l ((fix go (l : list pyval) : Forall P l :=
                  match l with
                  | [] => Forall_nil_2 P
                  | x :: l' => Forall_cons_2 P x l' (pyval_ind x) (go l')
                  end) l)
  | PyDict items =>
      Hdict items
        ((fix go (l : list (string * pyval)) : Forall (λ kv, P kv.2) l :=
            match l with
            | [] => Forall_nil_2 _
            | kv :: l' => Forall_cons_2 _ kv l' (pyval_ind kv.2) (go l')
            end) items)
  end.
End PyvalInd.


(** A value whose dicts have distinct keys, as the dicts of Python have. *)
#[local] Unset Elimination Schemes.
Inductive wf_val : pyval → Prop :=
| wf_str s : wf_val (PyStr s)
| wf_list l : Forall wf_val l → wf_val (PyList l)
| wf_dict items :
    NoDup items.*1 → Forall (λ kv, wf_val kv.2) items → wf_val (PyDict items).

#[local] Set Elimination Schemes.

(** The fuel that reading a value back takes. *)
Fixpoint val_size (v : pyval) : nat :=
  match v with
  | PyStr _ => 1
  | PyList l =>
      S ((fix go (l : list pyval) : nat :=
            match l with
            | [] => 0
            | x :: l' => S (val_size x) + go l'
            end) l)
  | PyDict items =>
      S ((fix go (l : list (string * pyval)) : nat :=
            match l with
            | [] => 0
            | kv :: l' => S (val_size kv.2) + go l'
            end) items)
  end.

Definition elems_size (l : list pyval) : nat :=
  sum_list ((λ x, S (val_size x)) <$> l).

Definition members_size (l : list (string * pyval)) : nat :=
  sum_list ((λ kv, S (val_size kv.2)) <$> l).

(** The text of the elements of a list after the first, and of the items
    of a dict after the first. *)
Fixpoint encode_tail (level : nat) (l : list pyval) : string :=
  match l with
  | [] => EmptyString
  | y :: l' =>
      "," +:+ Json.newline_indent level +:+ Json.encode level y
      +:+ encode_tail level l'
  end.

Fixpoint encode_members_tail (level : nat) (l : list (string * pyval)) : string :=
  match l with
  | [] => EmptyString
  | (k, y) :: l' =>
      "," +:+ Json.newline_indent level +:+ Json.encode_str k +:+ ": "
      +:+ Json.encode level y +:+ encode_members_tail level l'
  end.

(** What the induction on a value gives for its components. *)
Definition reads_back (v : pyval) : Prop :=
  ∀ fuel level rest,
    (val_size v ≤ fuel)%nat →
    JsonRead.parse_value fuel (Json.encode level v +:+ rest) = Some (v, rest).


(** A profile record: a dict of the six fields, in their order. *)
Definition is_profile (p : pyval) : Prop :=
  ∃ name guid parent flag command tags,
    p = PyDict [ ("Name", PyStr name);
                 ("Guid", PyStr guid);
                 ("Dynamic Profile Parent Name", PyStr parent);
                 ("Custom Command", PyStr flag);
                 ("Command", PyStr command);
                 ("Tags", PyList (PyStr <$> tags)) ].


(** ** Notions used by the further properties *)

(** The aliases a line declares: the arguments of a Host line, without
    the wildcard. *)
Definition declared (line : string) : list string :=
  match tokens_of line with
  | Some (kw :: args) =>
      if bool_decide (Py.lower kw = "host") then filter nonwild args else []
  | _ => []
  end.

(** [h] is declared by a line of one of the files [files]. *)
Definition from_host_line (os : OS) (files : list string) (h : host) : Prop :=
  ∃ p line, p ∈ files ∧ line ∈ (read_text os p).1 ∧ name h ∈ declared line.

(** What a call returns is sound: its entries are aliases of Host lines
    of the files opened so far, and the files it opened exist. *)
Definition sound (os : OS) (st : pstate) (hs : list host) (st' : pstate) : Prop :=
  Forall (from_host_line os (opened st')) hs
  ∧ ∀ q, q ∈ opened st' → q ∈ opened st ∨ path_exists os q = true.

Definition rec_sound (os : OS)
    (rec : string → pstate → option (list host * pstate)) : Prop :=
  ∀ p st hs st', rec p st = Some (hs, st') → sound os st hs st'.

(** A string of white space only. *)
Fixpoint all_space (s : string) : bool :=
  match s with
  | EmptyString => true
  | String c s' => Py.isspace c && all_space s'
  end.

(** A string of upper-case hexadecimal digits. *)
Fixpoint all_HEX (s : string) : bool :=
  match s with
  | EmptyString => true
  | String c s' =>
      let n := N_of_ascii c in
      ((48 <=? n) && (n <=? 57) || (65 <=? n) && (n <=? 70))%N && all_HEX s'
  end.

(** The text of a version-4 UUID of the variant of RFC 4122, in upper
    case: [XXXXXXXX-XXXX-4XXX-YXXX-XXXXXXXXXXXX] with [Y] one of 8, 9, A
    and B. *)
Definition v4_text (g : string) : Prop :=
  ∃ a b c y d e,
    g = a +:+ "-" +:+ b +:+ "-" +:+ String "4" c +:+ "-" +:+ String y d +:+ "-" +:+ e
    ∧ String.length a = 8 ∧ String.length b = 4 ∧ String.length c = 3
    ∧ String.length d = 3 ∧ String.length e = 12
    ∧ all_HEX (a +:+ b +:+ c +:+ d +:+ e) = true
    ∧ y ∈ ["8"; "9"; "A"; "B"]%char.

(** [c in s] *)
Fixpoint has_char (c : ascii) (s : string) : bool :=
  match s with
  | EmptyString => false
  | String c' s' => bool_decide (c' = c) || has_char c s'
  end.

(** The machine [os] where the file [bad] cannot be opened for
    writing. *)
Definition write_protected (os : OS) (bad : string) : OS :=
  {| abspath := abspath os;
     expanduser := expanduser os;
     expanduser_error := expanduser_error os;
     expandvars := expandvars os;
     path_exists := path_exists os;
     isfile := isfile os;
     glob := glob os;
     glob_error := glob_error os;
     read_text := read_text os;
     urandom16 := urandom16 os;
     makedirs_ok := makedirs_ok os;
     open_w_ok := λ p, negb (bool_decide (p = bad)) && open_w_ok os p;
     write_limit := write_limit os |}.

(** The machine [os] where a write to a file stops after [n]
    characters: a full device. *)
Definition disk_full (os : OS) (n : nat) : OS :=
  {| abspath := abspath os;
     expanduser := expanduser os;
     expanduser_error := expanduser_error os;
     expandvars := expandvars os;
     path_exists := path_exists os;
     isfile := isfile os;
     glob := glob os;
     glob_error := glob_error os;
     read_text := read_text os;
     urandom16 := urandom16 os;
     makedirs_ok := makedirs_ok os;
     open_w_ok := open_w_ok os;
     write_limit := λ _, Some n |}.

(** The call by which [main] writes the profiles. *)
Definition written_by (os : OS) (a : args) (profiles : list pyval) (w : world)
    : outcome unit * world :=
  if multi_file a
  then write_multi_file os profiles (expand_path os (output_dir a))
         (verbose a && negb (quiet a)) w
  else write_single_file os profiles
         (PosixPath.join (expand_path os (output_dir a)) "ssh-hosts.json")
         (verbose a && negb (quiet a)) w.



(** Writing [text] to [path] raises: the file cannot be opened, or the
    write stops before the end of the text. *)
Definition write_fails (os : OS) (path text : string) : Prop :=
  open_w_ok os path = false
  ∨ ∃ n, write_limit os path = Some n ∧ (n < String.length text)%nat.

(** Runs in multi-file mode, of a config file that does not exist, and
    without output and confirmation. *)
Definition multi_args : args :=
  Args "~/.ssh/config" "~/out" true "Default" true true false.


Definition quiet_args : args :=
  Args "~/.ssh/config" "~/out" false "Default" true true true.

(** A text of printable ASCII characters and line feeds. *)
Fixpoint all_plain (s : string) : bool :=
  match s with
  | EmptyString => true
  | String c s' =>
      let n := N_of_ascii c in
      ((32 <=? n) && (n <=? 126) || (n =? 10))%N && all_plain s'
  end.


(** * Properties *)

(** ** The library functions on examples *)

Example strip_ex : Py.strip "  Host  a b	 " = "Host  a b".
Proof. reflexivity. Qed.

Example split_ex : Py.split "Host  alpha	beta " = ["Host"; "alpha"; "beta"].
Proof. reflexivity. Qed.

Example lower_ex : Py.lower "InClUdE" = "include".
Proof. reflexivity. Qed.

Example slice_ex : Py.slice_1_m1 "'a b'" = "a b".
Proof. reflexivity. Qed.

Example sorted_ex :
  Py.sorted ["/c/b.conf"; "/c/B.conf"; "/c/10.conf"; "/c/a.conf"; "/c/2.conf"]
  = ["/c/10.conf"; "/c/2.conf"; "/c/B.conf"; "/c/a.conf"; "/c/b.conf"].
Proof. vm_compute. reflexivity. Qed.

Example dirname_ex :
  PosixPath.dirname "/home/u/.ssh/config" = "/home/u/.ssh"
  ∧ PosixPath.dirname "/config" = "/"
  ∧ PosixPath.dirname "config" = EmptyString
  ∧ PosixPath.dirname "//a" = "//"
  ∧ PosixPath.dirname "/a/b/" = "/a/b".
Proof. repeat split; reflexivity. Qed.

Example join_ex :
  PosixPath.join "/home/u/.ssh" "conf.d/*" = "/home/u/.ssh/conf.d/*"
  ∧ PosixPath.join "/home/u/.ssh" "/etc/ssh/x" = "/etc/ssh/x"
  ∧ PosixPath.join "/out/" "a.json" = "/out/a.json"
  ∧ PosixPath.join EmptyString "a.json" = "a.json".
Proof. repeat split; reflexivity. Qed.

Example normpath_ex :
  Env.normpath "/a/./b/../c//d/" = "/a/c/d"
  ∧ Env.normpath "a/../.." = ".."
  ∧ Env.normpath "//a" = "//a"
  ∧ Env.normpath "///a" = "/a"
  ∧ Env.normpath "/.." = "/"
  ∧ Env.normpath EmptyString = ".".
Proof. repeat split; vm_compute; reflexivity. Qed.

Example sanitize_ex :
  multi_file_path "/out" "prod/db" = "/out/prod_db.json"
  ∧ multi_file_path "/out" "web-*" = "/out/web-wildcard.json".
Proof. split; reflexivity. Qed.

Example uuid_ex :
  Py.upper (Uuid.to_str (Uuid.v4_int 0x123456789abcdef0123456789abcdef0))
  = "12345678-9ABC-4EF0-9234-56789ABCDEF0".
Proof. vm_compute. reflexivity. Qed.

(** The text of a document, with ['] standing for the double quote. *)
Example dumps_ex :
  Json.dumps
    (PyDict [("Profiles",
              PyList [PyDict [("Name", PyStr "a\b"); ("Tags", PyList [PyStr "ssh"])]])])
  = Py.replace "'" (String dquote EmptyString) "{
  'Profiles': [
    {
      'Name': 'a\\b',
      'Tags': [
        'ssh'
      ]
    }
  ]
}".
Proof. vm_compute. reflexivity. Qed.

Example dumps_empty_ex :
  Json.dumps (PyDict [("Profiles", PyList [])])
  = Py.replace "'" (String dquote EmptyString) "{
  'Profiles': []
}".
Proof. vm_compute. reflexivity. Qed.

(** ** Strings *)

#[local] Arguments String.append _ _ : simpl nomatch.

Lemma str_app_nil_r s : s +:+ EmptyString = s.
Proof. induction s as [|c s IH]; simpl; by rewrite ?IH. Qed.

Lemma str_app_assoc a b c : (a +:+ b) +:+ c = a +:+ (b +:+ c).
Proof. induction a as [|x a IH]; simpl; by rewrite ?IH. Qed.

Lemma str_length_app a b :
  String.length (a +:+ b) = (String.length a + String.length b)%nat.
Proof. induction a as [|x a IH]; simpl; by rewrite ?IH. Qed.

Lemma rev_app_app s acc t :
  String.rev_app s acc +:+ t = String.rev_app s (acc +:+ t).
Proof. revert acc. induction s as [|c s IH]; intros acc; simpl; [done|]. by rewrite IH. Qed.

Lemma rev_app_rev_app s a b :
  String.rev_app (String.rev_app s a) b = String.rev_app a (s +:+ b).
Proof. revert a. induction s as [|c s IH]; intros a; simpl; [done|]. by rewrite IH. Qed.

Lemma str_rev_involutive s : String.rev (String.rev s) = s.
Proof. unfold String.rev. rewrite rev_app_rev_app. simpl. apply str_app_nil_r. Qed.

Lemma rev_app_of_app a b acc :
  String.rev_app (a +:+ b) acc = String.rev_app b (String.rev_app a acc).
Proof. revert acc. induction a as [|x a IH]; intros acc; simpl; [done|]. by rewrite IH. Qed.

Lemma str_rev_app a b : String.rev (a +:+ b) = String.rev b +:+ String.rev a.
Proof. unfold String.rev. by rewrite rev_app_of_app, rev_app_app. Qed.

Lemma rev_app_nonempty s acc : acc ≠ EmptyString → String.rev_app s acc ≠ EmptyString.
Proof. revert acc. induction s as [|c s IH]; intros acc H; simpl; [done|]. by apply IH. Qed.

Lemma str_rev_nonempty s : s ≠ EmptyString → String.rev s ≠ EmptyString.
Proof.
  destruct s as [|c s]; [done|]. intros _. unfold String.rev. simpl.
  by apply rev_app_nonempty.
Qed.

Lemma no_space_rev_app s acc :
  no_space (String.rev_app s acc) = no_space s && no_space acc.
Proof.
  revert acc. induction s as [|c s IH]; intros acc; simpl; [done|].
  rewrite IH. simpl. by destruct (Py.isspace c), (no_space s).
Qed.

Lemma no_space_rev s : no_space (String.rev s) = no_space s.
Proof. unfold String.rev. rewrite no_space_rev_app. simpl. by destruct (no_space s). Qed.



(** The tokens [split] gives are not empty and hold no white space. *)
Lemma split_go_tokens cur s :
  no_space cur = true → Forall token (Py.split_go cur s).
Proof.
  revert cur. induction s as [|c s IH]; intros cur Hc; simpl.
  - destruct cur as [|x cur]; [constructor|].
    repeat constructor; [by apply str_rev_nonempty|by rewrite no_space_rev].
  - destruct (Py.isspace c) eqn:E.
    + destruct cur as [|x cur]; [by apply IH|].
      constructor; [|by apply IH].
      split; [by apply str_rev_nonempty|by rewrite no_space_rev].
    + apply IH. simpl. by rewrite E.
Qed.

Lemma split_tokens s : Forall token (Py.split s).
Proof. by apply split_go_tokens. Qed.




Lemma substring_0_app a b : String.substring 0 (String.length a) (a +:+ b) = a.
Proof. induction a as [|c a IH]; simpl; [by destruct b|]. by rewrite IH. Qed.



(** ** Paths and file names *)

Lemma has_char_app c a b : has_char c (a +:+ b) = has_char c a || has_char c b.
Proof.
  induction a as [|x a IH]; [done|]. cbn [String.append has_char].
  by rewrite IH, orb_assoc.
Qed.

Lemma replace_app c new a b :
  Py.replace c new (a +:+ b) = Py.replace c new a +:+ Py.replace c new b.
Proof.
  induction a as [|x a IH]; [done|]. cbn [String.append Py.replace].
  rewrite IH. case_bool_decide; [by rewrite str_app_assoc|done].
Qed.

Lemma has_char_replace c c' new s :
  has_char c' new = false →
  (c' = c ∨ has_char c' s = false) →
  has_char c' (Py.replace c new s) = false.
Proof.
  intros Hn Hs. induction s as [|x s IH]; [done|]. cbn [Py.replace].
  case_bool_decide as Hx.
  - rewrite has_char_app, Hn. apply IH.
    destruct Hs as [->|Hs]; [by left|]. right. simpl in Hs.
    by apply orb_false_iff in Hs as [_ Hs].
  - cbn [has_char]. apply orb_false_iff. split.
    + apply bool_decide_eq_false. destruct Hs as [->|Hs]; [done|].
      simpl in Hs. apply orb_false_iff in Hs as [Hs _].
      by apply bool_decide_eq_false in Hs.
    + apply IH. destruct Hs as [->|Hs]; [by left|]. right. simpl in Hs.
      by apply orb_false_iff in Hs as [_ Hs].
Qed.




Lemma sanitize_clean n :
  has_char "/" (sanitize n) = false ∧ has_char "*" (sanitize n) = false.
Proof.
  unfold sanitize. split.
  - apply has_char_replace; [done|]. right. apply has_char_replace; [done|by left].
  - apply has_char_replace; [done|by left].
Qed.

Lemma head_go_no_slash acc pending f :
  has_char "/" f = false → PosixPath.head_go acc pending f = String.rev acc.
Proof.
  revert pending. induction f as [|c f IH]; intros pending; [done|]. simpl.
  case_bool_decide; [done|]. apply IH.
Qed.

Lemma head_go_slash acc pending x f :
  has_char "/" f = false →
  PosixPath.head_go acc pending (x +:+ "/" +:+ f)
  = String.rev acc +:+ String.rev pending +:+ x +:+ "/".
Proof.
  intros Hf. revert acc pending. induction x as [|c x IH]; intros acc pending.
  - cbn [String.append PosixPath.head_go]. rewrite bool_decide_eq_true_2 by done.
    rewrite head_go_no_slash by done.
    change (String "/" (pending +:+ acc)) with ("/" +:+ (pending +:+ acc)).
    by rewrite !str_rev_app, str_app_assoc.
  - cbn [String.append PosixPath.head_go]. case_bool_decide as Hc.
    + rewrite IH. subst c.
      change (String "/" (pending +:+ acc)) with ("/" +:+ (pending +:+ acc)).
      rewrite !str_rev_app, !str_app_assoc. done.
    + rewrite IH.
      change (String c pending) with (String c EmptyString +:+ pending).
      rewrite str_rev_app, !str_app_assoc. done.
Qed.

(** The directory of a file joined to a directory is that directory. *)
Lemma dirname_join dir f :
  dir ≠ EmptyString → Py.endswith dir "/" = false → has_char "/" f = false →
  PosixPath.join dir f = dir +:+ "/" +:+ f
  ∧ PosixPath.dirname (dir +:+ "/" +:+ f) = dir.
Proof.
  intros Hd He Hf. split.
  - unfold PosixPath.join. rewrite He, bool_decide_eq_false_2 by done.
    destruct f as [|c f]; [done|]. simpl in *.
    apply orb_false_iff in Hf as [Hc _]. by rewrite Hc.
  - unfold PosixPath.dirname. cbv zeta.
    rewrite (head_go_slash EmptyString EmptyString) by done.
    change (String.rev EmptyString) with EmptyString. cbn [String.append].
    rewrite str_rev_app. change (String.rev "/") with "/". cbn [String.append].
    cbn [PosixPath.rstrip_slash_rev]. rewrite bool_decide_eq_true_2 by done.
    unfold Py.endswith in He. destruct (String.rev dir) as [|c r] eqn:E.
    { apply (f_equal String.rev) in E. rewrite str_rev_involutive in E. done. }
    simpl in He. cbn [PosixPath.rstrip_slash_rev]. rewrite He.
    by rewrite <- E, str_rev_involutive.
Qed.



(** ** The resolver: accumulation *)

Section ResolverFacts.

Variable os : OS.

Lemma add_hosts_app (names : list string) (hosts : list host) :
  add_hosts names hosts = hosts ++ map Host (filter nonwild names).
Proof.
  revert hosts. induction names as [|n names IH]; intros hosts; simpl.
  - by rewrite app_nil_r.
  - rewrite filter_cons. unfold nonwild at 1.
    case_bool_decide; case_decide; try done; rewrite IH; try done.
    by rewrite <- app_assoc.
Qed.

Lemma step_ok_refl verbose st : step_ok os verbose st [] st.
Proof.
  split; [done|by left| | |constructor].
  - exists []. rewrite app_nil_r. split; [done|]. split; [constructor|].
    intros q Hq. by apply elem_of_nil in Hq.
  - exists []. by rewrite app_nil_r.
Qed.

Lemma step_ok_trans verbose st1 h1 st2 h2 st3 :
  step_ok os verbose st1 h1 st2 → step_ok os verbose st2 h2 st3 →
  step_ok os verbose st1 (h1 ++ h2) st3.
Proof.
  intros [V1 K1 (n1 & O1 & D1 & N1) (o1 & S1 & Q1) F1]
         [V2 K2 (n2 & O2 & D2 & N2) (o2 & S2 & Q2) F2].
  split; [| | | |by apply Forall_app].
  - by etrans.
  - intros q [Hq|Hq]%K2; [by apply K1|by right].
  - exists (n1 ++ n2). split; [by rewrite O2, O1, app_assoc|]. split.
    + apply NoDup_app. split; [done|]. split; [|done].
      intros q Hq1 Hq2. destruct (N1 q Hq1) as [Hv _]. destruct (N2 q Hq2) as [_ Hn].
      done.
    + intros q [Hq|Hq]%elem_of_app.
      * destruct (N1 q Hq) as [Hin Hout]. split; [by apply V2|done].
      * destruct (N2 q Hq) as [Hin Hout]. split; [done|]. intros Hq1. by apply Hout, V1.
  - exists (o1 ++ o2). split; [by rewrite S2, S1, app_assoc|].
    intros Hv. by rewrite Q1, Q2.
Qed.

Lemma step_ok_print verbose line st :
  step_ok os verbose st [] (print_if verbose line st).
Proof.
  destruct verbose; simpl; [|apply step_ok_refl].
  split; simpl; [done|by left| | |constructor].
  - exists []. rewrite app_nil_r. split; [done|]. split; [constructor|].
    intros q Hq. by apply elem_of_nil in Hq.
  - by exists [line].
Qed.

(** The result of a loop is the list it started from followed by what
    the loop contributes from an empty list. *)
Lemma parse_included_acc rec files hosts st :
  parse_included rec files hosts st =
  match parse_included rec files [] st with
  | Some (hs, st') => Some (hosts ++ hs, st')
  | None => None
  end.
Proof.
  revert hosts st. induction files as [|f files IH]; intros hosts st; simpl.
  - by rewrite app_nil_r.
  - destruct (rec f st) as [[hs st1]|]; [|done].
    rewrite (IH (hosts ++ hs)), (IH ([] ++ hs)).
    destruct (parse_included rec files [] st1) as [[hs' st2]|]; [|done].
    simpl. by rewrite app_assoc.
Qed.

Lemma parse_line_acc rec verbose dir line hosts st :
  parse_line os rec verbose dir line hosts st =
  match parse_line os rec verbose dir line [] st with
  | Some (hs, st') => Some (hosts ++ hs, st')
  | None => None
  end.
Proof.
  unfold parse_line.
  destruct (_ || _); [by rewrite app_nil_r|].
  destruct (Py.split _) as [|tok0 args]; [by rewrite app_nil_r|].
  destruct (bool_decide (Py.lower tok0 = "include")).
  { destruct args as [|a args]; [by rewrite app_nil_r|].
    destruct (resolve_includes_error _ _ _); [by rewrite app_nil_r|].
    apply parse_included_acc. }
  destruct (bool_decide (Py.lower tok0 = "host")); [|by rewrite app_nil_r].
  destruct args as [|a args]; [by rewrite app_nil_r|].
  by rewrite !add_hosts_app.
Qed.

Lemma parse_lines_acc rec verbose dir lines hosts st :
  parse_lines os rec verbose dir lines hosts st =
  match parse_lines os rec verbose dir lines [] st with
  | Some (hs, st') => Some (hosts ++ hs, st')
  | None => None
  end.
Proof.
  revert hosts st. induction lines as [|l lines IH]; intros hosts st; simpl.
  - by rewrite app_nil_r.
  - rewrite parse_line_acc.
    destruct (parse_line os rec verbose dir l [] st) as [[hs st1]|]; [|done].
    rewrite (IH (hosts ++ hs)), (IH hs).
    destruct (parse_lines os rec verbose dir lines [] st1) as [[hs' st2]|]; [|done].
    by rewrite app_assoc.
Qed.

(** Entering a file that was not visited: it is marked, announced and
    opened. *)
Lemma step_ok_enter verbose line p0 st :
  let p := abspath os p0 in
  p ∉ visited st →
  step_ok os verbose st [] (open_r p (print_if verbose line (visit p st))).
Proof.
  intros p Hp. split.
  - destruct verbose; simpl; set_solver.
  - intros q. assert (visited (open_r p (print_if verbose line (visit p st)))
                      = {[p]} ∪ visited st) as -> by (by destruct verbose).
    intros [->%elem_of_singleton|Hq]%elem_of_union; [right; by exists p0|by left].
  - exists [p]. split; [by destruct verbose|]. split.
    + apply NoDup_singleton.
    + intros q ->%list_elem_of_singleton. split; [|done].
      destruct verbose; simpl; set_solver.
  - destruct verbose; simpl.
    + by exists [line].
    + exists []. by rewrite app_nil_r.
  - constructor.
Qed.

Lemma step_ok_hosts verbose names st :
  step_ok os verbose st (map Host (filter nonwild names)) st.
Proof.
  destruct (step_ok_refl verbose st) as [V K O S _]. split; try done.
  apply Forall_forall. intros h (n & -> & Hn)%list_elem_of_fmap.
  by apply list_elem_of_filter in Hn as [Hn _].
Qed.

Section LoopFacts.

Variable rec : string → pstate → option (list host * pstate).
Variable verbose : bool.
Hypothesis Hrec : rec_ok os verbose rec.

Lemma parse_included_ok files st hs st' :
  parse_included rec files [] st = Some (hs, st') → step_ok os verbose st hs st'.
Proof.
  revert st hs st'. induction files as [|f files IH]; intros st hs st'; simpl.
  - intros [= <- <-]. apply step_ok_refl.
  - destruct (rec f st) as [[h1 st1]|] eqn:E1; [|done].
    rewrite parse_included_acc.
    destruct (parse_included rec files [] st1) as [[h2 st2]|] eqn:E2; [|done].
    intros [= <- <-]. simpl. eapply step_ok_trans; eauto.
Qed.

Lemma parse_line_ok dir line st hs st' :
  parse_line os rec verbose dir line [] st = Some (hs, st') →
  step_ok os verbose st hs st'.
Proof.
  unfold parse_line.
  destruct (_ || _); [intros [= <- <-]; apply step_ok_refl|].
  destruct (Py.split _) as [|tok0 args]; [intros [= <- <-]; apply step_ok_refl|].
  destruct (bool_decide (Py.lower tok0 = "include")).
  { destruct args as [|a args]; [intros [= <- <-]; apply step_ok_refl|].
    destruct (resolve_includes_error _ _ _); [intros [= <- <-]; apply step_ok_refl|].
    intros H%parse_included_ok.
    destruct (resolve_includes _ _ _); [done|].
    change hs with ([] ++ hs). eapply step_ok_trans; [apply step_ok_print|done]. }
  destruct (bool_decide (Py.lower tok0 = "host")); [|intros [= <- <-]; apply step_ok_refl].
  destruct args as [|a args]; [intros [= <- <-]; apply step_ok_refl|].
  rewrite add_hosts_app. intros [= <- <-]. apply step_ok_hosts.
Qed.

Lemma parse_lines_ok dir lines st hs st' :
  parse_lines os rec verbose dir lines [] st = Some (hs, st') →
  step_ok os verbose st hs st'.
Proof.
  revert st hs st'. induction lines as [|l lines IH]; intros st hs st'; simpl.
  - intros [= <- <-]. apply step_ok_refl.
  - destruct (parse_line os rec verbose dir l [] st) as [[h1 st1]|] eqn:E1; [|done].
    rewrite parse_lines_acc.
    destruct (parse_lines os rec verbose dir lines [] st1) as [[h2 st2]|] eqn:E2; [|done].
    intros [= <- <-]. eapply step_ok_trans; eauto using parse_line_ok.
Qed.

End LoopFacts.

Lemma parse_config_file_eq fuel verbose p st :
  parse_config_file os (S fuel) verbose p st =
  let file_path := abspath os p in
  if bool_decide (file_path ∈ visited st) then
    Some ([], print_if verbose
                ("  Warning: Skipping already-visited file: " +:+ file_path) st)
  else
    if negb (path_exists os file_path) then
      Some ([], print_if verbose
                  ("  Warning: Config file not found: " +:+ file_path)
                  (visit file_path st))
    else
      let run := lines_run os (PosixPath.dirname file_path)
                   (read_text os file_path).1 (read_text os file_path).2 in
      match parse_lines os (parse_config_file os fuel verbose) verbose
              (PosixPath.dirname file_path) run.1 []
              (open_r file_path
                 (print_if verbose ("  Parsing: " +:+ file_path)
                    (visit file_path st))) with
      | None => None
      | Some (hosts, st') =>
          match run.2 with
          | None => Some (hosts, st')
          | Some e =>
              Some (hosts, print_if verbose
                             ("  Error reading " +:+ file_path +:+ ": " +:+ e) st')
          end
      end.
Proof.
  simpl. case_bool_decide; [done|]. destruct (negb _); [done|].
  destruct (read_text os (abspath os p)) as [lines err]. cbn [fst snd].
  by destruct (lines_run os _ lines err).
Qed.

Lemma parse_config_file_ok fuel verbose :
  rec_ok os verbose (parse_config_file os fuel verbose).
Proof.
  induction fuel as [|fuel IH]; intros p st hs st'; [done|].
  rewrite parse_config_file_eq. cbv zeta.
  case_bool_decide as Hv.
  { intros [= <- <-]. apply step_ok_print. }
  destruct (path_exists os (abspath os p)); simpl.
  2:{ intros [= <- <-]. change (@nil host) with (@nil host ++ []).
      eapply step_ok_trans; [|apply step_ok_print].
      split; simpl; [set_solver| | | |constructor].
      - intros q [->%elem_of_singleton|Hq]%elem_of_union; [right; by exists p|by left].
      - exists []. rewrite app_nil_r. split; [done|]. split; [constructor|].
        intros q Hq. by apply elem_of_nil in Hq.
      - exists []. by rewrite app_nil_r. }
  destruct (lines_run os _ _ _) as [lines err]. cbn [fst snd].
  destruct (parse_lines _ _ _ _ _ _ _) as [[h1 st1]|] eqn:E; [|done].
  apply (parse_lines_ok _ _ IH) in E.
  pose proof (step_ok_enter verbose ("  Parsing: " +:+ abspath os p) p _ Hv) as E0.
  pose proof (step_ok_trans _ _ _ _ _ _ E0 E) as E1. simpl in E1.
  destruct err as [e|]; intros [= <- <-]; [|done].
  rewrite <- (app_nil_r h1). eapply step_ok_trans; [done|apply step_ok_print].
Qed.

(** *** Fuel: more of it does not change a result *)

Section FuelFacts.

Variables rec rec' : string → pstate → option (list host * pstate).
Hypothesis Hle : rec_le rec rec'.

Lemma parse_included_mono files hosts st r :
  parse_included rec files hosts st = Some r →
  parse_included rec' files hosts st = Some r.
Proof.
  revert hosts st. induction files as [|f files IH]; intros hosts st; simpl; [done|].
  destruct (rec f st) as [[hs st1]|] eqn:E; [|done].
  rewrite (Hle _ _ _ E). apply IH.
Qed.

Lemma parse_line_mono verbose dir line hosts st r :
  parse_line os rec verbose dir line hosts st = Some r →
  parse_line os rec' verbose dir line hosts st = Some r.
Proof.
  unfold parse_line.
  destruct (_ || _); [done|].
  destruct (Py.split _) as [|tok0 args]; [done|].
  destruct (bool_decide (Py.lower tok0 = "include")); [|done].
  destruct args as [|a args]; [done|].
  destruct (resolve_includes_error _ _ _); [done|]. apply parse_included_mono.
Qed.

Lemma parse_lines_mono verbose dir lines hosts st r :
  parse_lines os rec verbose dir lines hosts st = Some r →
  parse_lines os rec' verbose dir lines hosts st = Some r.
Proof.
  revert hosts st. induction lines as [|l lines IH]; intros hosts st; simpl; [done|].
  destruct (parse_line os rec verbose dir l hosts st) as [[hs st1]|] eqn:E; [|done].
  rewrite (parse_line_mono _ _ _ _ _ _ E). apply IH.
Qed.

End FuelFacts.

Lemma parse_config_file_S fuel verbose :
  rec_le (parse_config_file os fuel verbose) (parse_config_file os (S fuel) verbose).
Proof.
  induction fuel as [|fuel IH]; intros p st r; [done|].
  rewrite (parse_config_file_eq (S fuel)), (parse_config_file_eq fuel). cbv zeta.
  case_bool_decide; [done|].
  destruct (negb _); [done|].
  destruct (parse_lines _ (parse_config_file os fuel verbose) _ _ _ _ _)
    as [[h1 st1]|] eqn:E; [|done].
  by rewrite (parse_lines_mono _ _ IH _ _ _ _ _ _ E).
Qed.

Lemma parse_config_file_mono fuel fuel' verbose :
  (fuel ≤ fuel')%nat →
  rec_le (parse_config_file os fuel verbose) (parse_config_file os fuel' verbose).
Proof.
  induction 1 as [|fuel' _ IH]; [by intros ???|].
  intros p st r H. by apply parse_config_file_S, IH.
Qed.

(** *** Termination: the files that exist are finitely many *)

Section LoopTotal.

Variable rec : string → pstate → option (list host * pstate).
Variable verbose : bool.
Variable V0 : gset string.
Hypothesis Hrec : rec_ok os verbose rec.
Hypothesis Htotal : ∀ p st, V0 ⊆ visited st → is_Some (rec p st).

Lemma parse_included_total files hosts st :
  V0 ⊆ visited st → is_Some (parse_included rec files hosts st).
Proof.
  revert hosts st. induction files as [|f files IH]; intros hosts st HV; simpl; [done|].
  destruct (Htotal f st HV) as [[hs st1] E]. rewrite E.
  apply IH. apply Hrec in E as [V _ _ _ _]. by etrans.
Qed.

Lemma parse_line_total dir line hosts st :
  V0 ⊆ visited st → is_Some (parse_line os rec verbose dir line hosts st).
Proof.
  intros HV. unfold parse_line.
  destruct (_ || _); [done|].
  destruct (Py.split _) as [|tok0 args]; [done|].
  destruct (bool_decide (Py.lower tok0 = "include")).
  { destruct args as [|a args]; [done|].
    destruct (resolve_includes_error _ _ _); [done|]. apply parse_included_total.
    destruct (resolve_includes _ _ _); [done|]. by destruct verbose. }
  destruct (bool_decide _); [|done]. by destruct args.
Qed.

Lemma parse_lines_total dir lines hosts st :
  V0 ⊆ visited st → is_Some (parse_lines os rec verbose dir lines hosts st).
Proof.
  revert hosts st. induction lines as [|l lines IH]; intros hosts st HV; simpl; [done|].
  destruct (parse_line_total dir l hosts st HV) as [[hs st1] E]. rewrite E.
  apply IH. rewrite parse_line_acc in E.
  destruct (parse_line os rec verbose dir l [] st) as [[h1 st2]|] eqn:E'; [|done].
  injection E as <- <-. apply (parse_line_ok _ _ Hrec) in E' as [V _ _ _ _]. by etrans.
Qed.

End LoopTotal.

(** Visiting an existing file leaves fewer existing files to visit. *)
Lemma unvisited_decreases (U V V' : gset string) p :
  p ∈ U → p ∉ V → {[p]} ∪ V ⊆ V' → U ∖ V' ⊂ U ∖ V.
Proof.
  intros HU HV Hsub. split.
  - intros x [Hx Hn]%elem_of_difference. apply elem_of_difference.
    split; [done|]. intros HxV. apply Hn, Hsub, elem_of_union. by right.
  - intros Hback. assert (p ∈ U ∖ V) as Hp by by apply elem_of_difference.
    apply Hback, elem_of_difference in Hp as [_ Hn].
    apply Hn, Hsub, elem_of_union. left. by apply elem_of_singleton.
Qed.

Lemma parse_config_file_total (U : gset string) fuel verbose p st :
  (∀ q, path_exists os (abspath os q) = true → abspath os q ∈ U) →
  (size (U ∖ visited st) < fuel)%nat →
  is_Some (parse_config_file os fuel verbose p st).
Proof.
  intros HU. revert p st.
  induction fuel as [|fuel IH]; intros p st Hsz; [lia|].
  rewrite parse_config_file_eq. cbv zeta.
  case_bool_decide as Hv; [done|].
  destruct (path_exists os (abspath os p)) eqn:Hex; simpl; [|done].
  destruct (lines_run os _ _ _) as [lines err]. cbn [fst snd].
  set (st0 := open_r _ _).
  destruct (parse_lines_total (parse_config_file os fuel verbose) verbose
              (visited st0) (parse_config_file_ok fuel verbose)) with
    (dir := PosixPath.dirname (abspath os p)) (lines := lines)
    (hosts := @nil host) (st := st0) as [[hs st1] E]; [|done|].
  - intros q st2 HV. apply IH.
    assert (U ∖ visited st2 ⊂ U ∖ visited st) as Hsub%subset_size; [|lia].
    assert (visited st0 = {[abspath os p]} ∪ visited st) as EV
      by (unfold st0; by destruct verbose).
    rewrite EV in HV. apply HU in Hex. by eapply unvisited_decreases.
  - rewrite E. by destruct err.
Qed.

End ResolverFacts.

(** ** The resolver: order of the entries *)


Lemma hosts_fuel_mono os fuel fuel' verbose p st hs :
  fst <$> parse_config_file os fuel verbose p st = Some hs →
  (fuel ≤ fuel')%nat →
  fst <$> parse_config_file os fuel' verbose p st = Some hs.
Proof.
  intros H Hf.
  destruct (parse_config_file os fuel verbose p st) as [[h st']|] eqn:E; [|discriminate].
  by rewrite (parse_config_file_mono os fuel fuel' verbose Hf _ _ _ E).
Qed.


(** The entries of a [Host] line: its aliases but the wildcard, in the
    order of the tokens. *)
Lemma parse_line_host os rec verbose dir line kw a args hosts st :
  tokens_of line = Some (kw :: a :: args) →
  Py.lower kw = "host" →
  parse_line os rec verbose dir line hosts st =
  Some (hosts ++ map Host (filter nonwild (a :: args)), st).
Proof.
  unfold tokens_of, parse_line. cbv zeta.
  destruct (_ || _); [intros; discriminate|]. intros [= ->] Hk. rewrite Hk.
  by rewrite <- (add_hosts_app (a :: args) hosts).
Qed.






(** The lines that run are the first lines of the file, and none of them
    raises. *)
Lemma lines_run_prefix os dir lines err :
  ∃ rest, lines = (lines_run os dir lines err).1 ++ rest
          ∧ Forall (λ l, line_error os dir l = None) (lines_run os dir lines err).1.
Proof.
  induction lines as [|l lines (rest & E & F)]; [by exists []|]. simpl.
  destruct (line_error os dir l) eqn:El; [by exists (l :: lines)|].
  destruct (lines_run os dir lines err) as [run err']. simpl in *.
  exists rest. split; [by rewrite E at 1|]. by constructor.
Qed.



(** ** The example machines *)

Lemma assoc_Some_fst {A} k (l : list (string * A)) a :
  Env.assoc k l = Some a → k ∈ l.*1.
Proof.
  induction l as [|[k' a'] l IH]; simpl; [done|].
  case_bool_decide as Hk; [intros _; subst; apply list_elem_of_here|].
  intros H. apply list_elem_of_further. by apply IH.
Qed.

Lemma resolve_Some_fst fs p :
  is_Some (Env.resolve fs p) → p ∈ fs.*1.
Proof.
  unfold Env.resolve. generalize (length fs) as n. intros n. revert p.
  induction n as [|n IH]; intros p; simpl.
  - intros [x Hx]. by eapply assoc_Some_fst.
  - destruct (Env.assoc p fs) as [[| | |t]|] eqn:E;
      try (intros _; by eapply assoc_Some_fst).
    rewrite E. by intros [? ?].
Qed.

Lemma normpath_isabs p :
  PosixPath.isabs p = true → PosixPath.isabs (Env.normpath p) = true.
Proof.
  destruct p as [|c p]; [done|]. intros Hc. unfold Env.normpath.
  assert (String.prefix "/" (String c p) = true) as ->.
  { simpl in *. apply bool_decide_eq_true in Hc as ->. by destruct p. }
  by destruct (_ && _).
Qed.

Lemma abspath_in_isabs cwd p :
  PosixPath.isabs cwd = true → PosixPath.isabs (Env.abspath_in cwd p) = true.
Proof.
  intros Hc. apply normpath_isabs.
  destruct (PosixPath.isabs p) eqn:Hp; [done|].
  unfold PosixPath.join. unfold PosixPath.isabs in Hp. rewrite Hp.
  destruct cwd as [|c cwd]; [done|]. by destruct (_ || _).
Qed.

(** A path that exists on a machine is one of its listed paths. *)
Lemma machine_exists_listed home cwd fs globs rand q :
  let os := Env.machine home cwd fs globs rand in
  PosixPath.isabs cwd = true →
  path_exists os (abspath os q) = true →
  abspath os q ∈ (list_to_set fs.*1 : gset string).
Proof.
  intros os Hc. simpl.
  pose proof (abspath_in_isabs cwd q Hc) as Ha.
  unfold PosixPath.join. unfold PosixPath.isabs in Ha. rewrite Ha.
  intros H%bool_decide_eq_true. apply elem_of_list_to_set.
  by apply resolve_Some_fst.
Qed.

(** ** The resolver: the wildcard alias *)

(** C3. Whatever files are read, no entry of the result is the alias [*];
    of the aliases of a Host line exactly those equal to [*] are dropped,
    so that an alias such as [web-*] is kept. *)
Theorem wildcard_never_materialized :
  (∀ os fuel verbose file_path st hosts st',
     parse_config_file os fuel verbose file_path st = Some (hosts, st') →
     Host "*" ∉ hosts)
  ∧ (∀ host_names hosts,
       add_hosts host_names hosts
       = hosts ++ map Host (filter (λ n, n ≠ "*") host_names))
  ∧ (∀ os rec verbose dir st,
       parse_line os rec verbose dir "Host web-* * db*" [] st
       = Some ([Host "web-*"; Host "db*"], st)).
Proof.
  split; [|split].
  - intros os fuel verbose p st hosts st' [_ _ _ _ H]%parse_config_file_ok.
    intros Hin. rewrite Forall_forall in H. by apply (H _ Hin).
  - apply add_hosts_app.
  - intros os rec vb dir st.
    rewrite (parse_line_host os rec vb dir _ "Host" "web-*" ["*"; "db*"]);
      vm_compute; reflexivity.
Qed.

Lemma wildcard_never_materialized_witness :
  Host "*" ∉ [Host "alpha"; Host "beta"; Host "gamma"].
Proof.
  eapply (proj1 wildcard_never_materialized Env.scenario 2 false
            "/home/u/.ssh/config" (initial_state [])).
  vm_compute. reflexivity.
Defined.

(** ** The resolver: cycles and termination *)

(** A file that was resolved is in the [visited] set. *)
Lemma parse_config_file_visited os fuel vb p st hosts st' :
  parse_config_file os fuel vb p st = Some (hosts, st') →
  abspath os p ∈ visited st'.
Proof.
  destruct fuel as [|fuel]; [done|].
  rewrite parse_config_file_eq. cbv zeta.
  case_bool_decide as Hv.
  { intros [= <- <-]. by destruct vb. }
  assert (∀ st2 hs st3,
            step_ok os vb st2 hs st3 → abspath os p ∈ visited st2 →
            abspath os p ∈ visited st3) as Hkeep.
  { intros st2 hs st3 [V _ _ _ _] Hin. by apply V. }
  destruct (negb _).
  { intros [= <- <-]. destruct vb; simpl; set_solver. }
  destruct (parse_lines _ _ _ _ _ _ _) as [[h1 st1]|] eqn:E; [|done].
  apply (parse_lines_ok _ _ _ (parse_config_file_ok os fuel vb)) in E.
  assert (abspath os p ∈ visited st1) as Hin.
  { eapply Hkeep; [done|]. destruct vb; simpl; set_solver. }
  destruct (lines_run os _ _ _).2; intros [= <- <-]; [|done].
  by destruct vb.
Qed.

(** C4. On a machine whose existing files are finitely many (all in [U]),
    resolution returns, whatever the files include, once the fuel exceeds
    the number of existing files not yet visited: no include graph, cyclic
    or not, makes it run on.  A file that is met again is in the [visited]
    set: the call on it returns no entry at its first step, without
    opening the file or following its Include lines.  Two files that
    include each other resolve to the entries of both. *)
Theorem cycle_terminates :
  (∀ os (U : gset string) fuel verbose file_path st,
     (∀ q, path_exists os (abspath os q) = true → abspath os q ∈ U) →
     (size (U ∖ visited st) < fuel)%nat →
     is_Some (parse_config_file os fuel verbose file_path st))
  ∧ (∀ os fuel verbose file_path st hosts st',
       parse_config_file os fuel verbose file_path st = Some (hosts, st') →
       abspath os file_path ∈ visited st')
  ∧ (∀ os fuel verbose file_path st,
       abspath os file_path ∈ visited st →
       parse_config_file os (S fuel) verbose file_path st
       = Some ([], print_if verbose
                     ("  Warning: Skipping already-visited file: "
                      +:+ abspath os file_path) st))
  ∧ (∀ fuel vb out,
       (3 ≤ fuel)%nat →
       fst <$> parse_ssh_config Env.cycle fuel "a.conf" vb out
       = Some [Host "a1"; Host "b1"; Host "b2"; Host "a2"]).
Proof.
  split; [|split; [|split]].
  - intros. by eapply parse_config_file_total.
  - apply parse_config_file_visited.
  - intros os fuel vb p st Hv. rewrite parse_config_file_eq. cbv zeta.
    by rewrite bool_decide_eq_true_2.
  - intros fuel vb out Hf. unfold parse_ssh_config.
    apply (hosts_fuel_mono _ 3); [|done].
    destruct vb; vm_compute; reflexivity.
Qed.

Lemma cycle_terminates_witness :
  is_Some (parse_config_file Env.cycle 4 true "a.conf" (initial_state [])).
Proof.
  apply (proj1 cycle_terminates Env.cycle (list_to_set Env.cycle_fs.*1)).
  - intros q. by apply machine_exists_listed.
  - vm_compute. lia.
Defined.

(** ** The resolver: the identity of a file *)

(** C5, as stated, fails: the key of a file is the [abspath] of the path
    it was reached by, which resolves neither symbolic links nor [~].  A
    file included under its own name and through a link to it has one
    canonical path and is opened twice; its entries come twice.  And a
    path that starts with [~] is taken as relative to the working
    directory. *)
Lemma file_identity_is_not_canonical :
  let r := parse_ssh_config Env.link 3 "/cfg/main" true [] in
  (opened ∘ snd) <$> r = Some ["/cfg/main"; "/cfg/a.conf"; "/cfg/link.conf"]
  ∧ Env.realpath_in Env.link_fs "/cfg" "/cfg/a.conf"
    = Env.realpath_in Env.link_fs "/cfg" "/cfg/link.conf"
  ∧ ¬ NoDup (Env.realpath_in Env.link_fs "/cfg"
             <$> ["/cfg/main"; "/cfg/a.conf"; "/cfg/link.conf"])
  ∧ fst <$> r = Some [Host "alpha"; Host "alpha"]
  ∧ parse_ssh_config Env.scenario 2 "~/.ssh/config" true []
    = Some ([], PState {["/home/u/~/.ssh/config"]}
                  ["  Warning: Config file not found: /home/u/~/.ssh/config"] [])
  ∧ fst <$> parse_ssh_config Env.scenario 2
              (expand_path Env.scenario "~/.ssh/config") true []
    = Some [Host "alpha"; Host "beta"; Host "gamma"].
Proof.
  split; [vm_compute; reflexivity|].
  split; [vm_compute; reflexivity|].
  split; [|repeat split; vm_compute; reflexivity].
  intros H. vm_compute in H.
  apply NoDup_cons in H as [_ H]. apply NoDup_cons in H as [H _].
  apply H. apply list_elem_of_here.
Qed.

(** C5, amended. Throughout one call of [parse_ssh_config] a file is
    identified by the [abspath] of the path it is reached by: the
    [visited] set holds results of [abspath] only, every file opened is in
    it, and no path is opened twice, in whatever branches of the recursion
    it is met: there is one [visited] set for the whole resolution. *)
Theorem abspath_processed_at_most_once os fuel config_path vb out hosts st :
  parse_ssh_config os fuel config_path vb out = Some (hosts, st) →
  NoDup (opened st)
  ∧ (∀ q, q ∈ opened st → q ∈ visited st)
  ∧ (∀ q, q ∈ visited st → ∃ p, q = abspath os p)
  ∧ abspath os config_path ∈ visited st.
Proof.
  unfold parse_ssh_config. intros H.
  pose proof (parse_config_file_visited _ _ _ _ _ _ _ H) as Hin.
  apply parse_config_file_ok in H as [_ K (new & O & D & N) _ _].
  simpl in O. rewrite O. repeat split; try done.
  - intros q Hq. by apply N.
  - intros q [Hq|Hq]%K; [|done]. by apply not_elem_of_empty in Hq.
Qed.

Lemma abspath_processed_at_most_once_witness :
  ∃ hosts st,
    parse_ssh_config Env.link 3 "/cfg/main" true [] = Some (hosts, st)
    ∧ NoDup (opened st)
    ∧ opened st = ["/cfg/main"; "/cfg/a.conf"; "/cfg/link.conf"].
Proof.
  eexists _, _. split; [vm_compute; reflexivity|].
  split; [|reflexivity].
  eapply (abspath_processed_at_most_once Env.link 3 "/cfg/main" true []).
  vm_compute. reflexivity.
Defined.

(** ** The resolver: errors *)




(** ** The resolver: Include lines *)





(** ** Identifiers *)

Lemma map_chars_app f a b :
  Py.map_chars f (a +:+ b) = Py.map_chars f a +:+ Py.map_chars f b.
Proof. induction a as [|c a IH]; simpl; by rewrite ?IH. Qed.

Lemma map_chars_substring f s : ∀ i n,
  Py.map_chars f (String.substring i n s) = String.substring i n (Py.map_chars f s).
Proof.
  induction s as [|c s IH]; intros [|i] [|n]; simpl; try done; by rewrite IH.
Qed.

Lemma map_chars_hex f digit k n :
  Py.map_chars f (hex_with digit k n) = hex_with (f ∘ digit) k n.
Proof.
  revert n. induction k as [|k IH]; intros n; simpl; [done|].
  by rewrite map_chars_app, IH.
Qed.

Lemma hex_fixed_with k n : Uuid.hex_fixed k n = hex_with Uuid.hex_digit k n.
Proof. revert n. induction k as [|k IH]; intros n; simpl; [done|]. by rewrite IH. Qed.

Lemma hex_with_ext d1 d2 k n :
  (∀ d, (0 ≤ d < 16)%Z → d1 d = d2 d) → hex_with d1 k n = hex_with d2 k n.
Proof.
  intros H. revert n. induction k as [|k IH]; intros n; simpl; [done|].
  rewrite IH, H; [done|]. apply Z.mod_pos_bound. lia.
Qed.

Lemma upper_hex_digit d :
  (0 ≤ d < 16)%Z → Py.upper_char (Uuid.hex_digit d) = HEX_digit d.
Proof.
  intros H. destruct d as [|p|p]; [reflexivity| |lia].
  do 4 (destruct p as [p|p|]; try lia; try reflexivity).
Qed.

(** The text of a GUID is the upper-case canonical text of its value. *)
Lemma upper_to_str v : Py.upper (Uuid.to_str v) = canonical_upper v.
Proof.
  unfold Py.upper, Uuid.to_str, canonical_upper, grouped. cbv zeta.
  rewrite !map_chars_app, !map_chars_substring, hex_fixed_with, map_chars_hex.
  by rewrite (hex_with_ext _ HEX_digit) by apply upper_hex_digit.
Qed.

Lemma HEX_digit_inj d1 d2 :
  (0 ≤ d1 < 16)%Z → (0 ≤ d2 < 16)%Z → HEX_digit d1 = HEX_digit d2 → d1 = d2.
Proof.
  set (un := λ c : ascii,
         let n := Z.of_N (N_of_ascii c) in
         if (n <? 58)%Z then (n - 48)%Z else (n - 55)%Z).
  assert (∀ d, (0 ≤ d < 16)%Z → un (HEX_digit d) = d) as Hun.
  { intros d H. destruct d as [|p|p]; [reflexivity| |lia].
    do 4 (destruct p as [p|p|]; try lia; try reflexivity). }
  intros H1 H2 E. by rewrite <- (Hun d1 H1), <- (Hun d2 H2), E.
Qed.

Lemma str_app_inj_tail a b c d :
  a +:+ String c EmptyString = b +:+ String d EmptyString → a = b ∧ c = d.
Proof.
  revert b. induction a as [|x a IH]; intros [|y b]; simpl; intros E.
  - by injection E.
  - injection E as _ E. by destruct b.
  - injection E as _ E. by destruct a.
  - injection E as -> E. by destruct (IH _ E) as [-> ->].
Qed.

Lemma hex_with_length digit k n : String.length (hex_with digit k n) = k.
Proof.
  revert n. induction k as [|k IH]; intros n; simpl; [done|].
  rewrite str_length_app, IH. simpl. lia.
Qed.

Lemma hex_with_inj k x y :
  hex_with HEX_digit k x = hex_with HEX_digit k y →
  (x mod 16 ^ Z.of_nat k = y mod 16 ^ Z.of_nat k)%Z.
Proof.
  revert x y. induction k as [|k IH]; intros x y; simpl hex_with.
  - intros _. change (16 ^ Z.of_nat 0)%Z with 1%Z. by rewrite !Z.mod_1_r.
  - intros [E1 E2]%str_app_inj_tail.
    apply IH in E1. apply HEX_digit_inj in E2; [|by apply Z.mod_pos_bound..].
    rewrite Nat2Z.inj_succ, Z.pow_succ_r by lia.
    rewrite !Z.rem_mul_r by lia. by rewrite E1, E2.
Qed.

Lemma grouped_inj h1 h2 :
  String.length h1 = 32%nat → String.length h2 = 32%nat →
  grouped h1 = grouped h2 → h1 = h2.
Proof.
  intros L1 L2.
  do 32 (destruct h1 as [|? h1]; [discriminate L1|]).
  destruct h1; [|discriminate L1].
  do 32 (destruct h2 as [|? h2]; [discriminate L2|]).
  destruct h2; [|discriminate L2].
  clear L1 L2. unfold grouped. cbn. intros E. injection E. intros. by subst.
Qed.

(** Two 128-bit values with the same canonical text are equal. *)
Lemma canonical_upper_inj x y :
  (0 ≤ x < 2 ^ 128)%Z → (0 ≤ y < 2 ^ 128)%Z →
  canonical_upper x = canonical_upper y → x = y.
Proof.
  intros Hx Hy E. apply grouped_inj in E; [|apply hex_with_length..].
  apply hex_with_inj in E.
  change (16 ^ Z.of_nat 32)%Z with (2 ^ 128)%Z in E.
  by rewrite !Z.mod_small in E.
Qed.

(** The value of a version-4 UUID: the kept bits of the draw, with the
    variant and the version set. *)
Lemma v4_int_free r :
  Uuid.v4_int (r mod 2 ^ 128)
  = Z.lor (free_bits r) (Z.lor (Z.shiftl 0x8000 48) (Z.shiftl 4 76)).
Proof.
  unfold Uuid.v4_int, free_bits. cbv zeta. generalize (r mod 2 ^ 128)%Z. intros a.
  apply Z.bits_inj'. intros i Hi.
  repeat (rewrite Z.lor_spec || rewrite Z.land_spec || rewrite Z.lnot_spec by done).
  pose proof (Z.land_spec (Z.shiftl 0x8000 48) (Z.shiftl 0xf000 64) i) as H.
  change (Z.land (Z.shiftl 0x8000 48) (Z.shiftl 0xf000 64)) with 0%Z in H.
  rewrite Z.bits_0 in H.
  destruct (Z.testbit a i), (Z.testbit (Z.shiftl 0xc000 48) i),
    (Z.testbit (Z.shiftl 0x8000 48) i), (Z.testbit (Z.shiftl 0xf000 64) i),
    (Z.testbit (Z.shiftl 4 76) i); simpl in *; congruence.
Qed.

Lemma v4_int_range r :
  (0 ≤ Uuid.v4_int (r mod 2 ^ 128) < 2 ^ 128)%Z.
Proof.
  rewrite v4_int_free. unfold free_bits.
  pose proof (Z.mod_pos_bound r (2 ^ 128) eq_refl) as Hr.
  set (x := Z.lor _ _).
  assert (0 ≤ x)%Z as H0.
  { apply Z.lor_nonneg. split; [|done]. apply Z.land_nonneg. left. lia. }
  split; [done|].
  assert (x mod 2 ^ 128 = x)%Z as <-; [|by apply Z.mod_pos_bound].
  apply Z.bits_inj'. intros i Hi. rewrite Z.testbit_mod_pow2 by done.
  destruct (Z.ltb_spec i 128) as [Hlt|Hge]; [done|]. simpl. symmetry.
  unfold x. rewrite Z.lor_spec, Z.land_spec, Z.mod_pow2_bits_high by lia.
  simpl. apply Z.bits_above_log2; [done|].
  eapply Z.lt_le_trans; [|exact Hge]. reflexivity.
Qed.

Lemma v4_int_inj r1 r2 :
  Uuid.v4_int (r1 mod 2 ^ 128) = Uuid.v4_int (r2 mod 2 ^ 128) →
  free_bits r1 = free_bits r2.
Proof.
  rewrite !v4_int_free.
  set (K := Z.lor (Z.shiftl 0xc000 48) (Z.shiftl 0xf000 64)).
  set (C := Z.lor (Z.shiftl 0x8000 48) (Z.shiftl 4 76)).
  assert (∀ r, Z.land (Z.lor (free_bits r) C) (Z.lnot K) = free_bits r) as H.
  { intros r. unfold free_bits. fold K. generalize (r mod 2 ^ 128)%Z. intros a.
    apply Z.bits_inj'. intros i Hi.
    repeat (rewrite Z.lor_spec || rewrite Z.land_spec || rewrite Z.lnot_spec by done).
    pose proof (Z.land_spec C (Z.lnot K) i) as HC.
    change (Z.land C (Z.lnot K)) with 0%Z in HC.
    rewrite Z.bits_0, Z.lnot_spec in HC by done.
    destruct (Z.testbit a i), (Z.testbit K i), (Z.testbit C i);
      simpl in *; congruence. }
  intros E. by rewrite <- (H r1), <- (H r2), E.
Qed.

(** ** The generator *)

(** The record of [create_profile], given its identifier. *)
Lemma create_profile_eq os host_name parent n :
  create_profile os host_name parent n
  = (profile_record host_name (canonical_upper (uuid4 os n)) parent, S n).
Proof. unfold create_profile, generate_guid. by rewrite upper_to_str. Qed.

Lemma generate_profiles_loop_eq os hosts parent profiles n :
  generate_profiles_loop os hosts parent profiles n
  = (profiles
     ++ imap (λ i h, profile_record (name h)
                       (canonical_upper (uuid4 os (n + i))) parent) hosts,
     (n + length hosts)%nat).
Proof.
  revert profiles n. induction hosts as [|h hosts IH]; intros profiles n.
  - simpl. by rewrite app_nil_r, Nat.add_0_r.
  - cbn [generate_profiles_loop]. rewrite create_profile_eq, IH.
    rewrite <- app_assoc. cbn [imap length app]. rewrite Nat.add_0_r.
    f_equal; [|lia]. do 2 f_equal.
    apply imap_ext. intros i x _. simpl. do 3 f_equal. lia.
Qed.

Lemma without_guid_record host_name guid parent :
  without_guid (profile_record host_name guid parent)
  = PyDict [ ("Name", PyStr host_name);
             ("Dynamic Profile Parent Name", PyStr parent);
             ("Custom Command", PyStr "Yes");
             ("Command", PyStr ("ssh " +:+ host_name));
             ("Tags", PyList [PyStr "ssh"]) ].
Proof. reflexivity. Qed.

Lemma getitem_guid_record host_name guid parent :
  getitem "Guid" (profile_record host_name guid parent) = Some (PyStr guid).
Proof. reflexivity. Qed.

(** Two draws give the same identifier exactly when they agree on the
    bits [uuid4] keeps. *)
Lemma guid_eq_iff os i j :
  canonical_upper (uuid4 os i) = canonical_upper (uuid4 os j)
  ↔ free_bits (urandom16 os i) = free_bits (urandom16 os j).
Proof.
  split.
  - intros Hg. apply canonical_upper_inj in Hg; [|apply v4_int_range..].
    by apply v4_int_inj in Hg.
  - intros Hf. unfold uuid4. by rewrite !v4_int_free, Hf.
Qed.

(** C6, as stated, fails: the identifiers of a run need not be distinct.
    A random source that gives the same sixteen bytes twice gives two
    entries the same Guid. *)
Lemma repeated_draw_repeats_guid :
  (generate_profiles Env.repeating [Host "alpha"; Host "beta"] "Default" 0).1
  = [ profile_record "alpha" "00000000-0000-4000-8000-000000000007" "Default";
      profile_record "beta" "00000000-0000-4000-8000-000000000007" "Default" ].
Proof. vm_compute. reflexivity. Qed.

(** C6, amended. [generate_profiles] gives one record per entry, in
    the order of the entries; the record of an entry has its alias as
    Name, ["ssh "] followed by the alias as Command, the tags [["ssh"]],
    the custom command enabled, the given parent profile name, and as
    Guid the upper-case canonical text of a 128-bit value drawn for it.
    Two records of a run have the same Guid exactly when their draws
    from the random source agree on the 122 bits a version-4 UUID keeps
    of them; so the identifiers of a run are pairwise distinct when the
    draws are, in these bits, and not otherwise.  Whatever the random
    source, the records are the same but for the Guid. *)
Theorem generate_profiles_spec os hosts parent n :
  let profiles := (generate_profiles os hosts parent n).1 in
  length profiles = length hosts
  ∧ (∀ i h, hosts !! i = Some h →
       ∃ guid v,
         profiles !! i
         = Some (PyDict [ ("Name", PyStr (name h));
                          ("Guid", PyStr guid);
                          ("Dynamic Profile Parent Name", PyStr parent);
                          ("Custom Command", PyStr "Yes");
                          ("Command", PyStr ("ssh " +:+ name h));
                          ("Tags", PyList [PyStr "ssh"]) ])
         ∧ guid = canonical_upper v
         ∧ (0 ≤ v < 2 ^ 128)%Z
         ∧ v = uuid4 os (n + i))
  ∧ (∀ i j, (i < length hosts)%nat → (j < length hosts)%nat →
       (profiles !! i ≫= getitem "Guid" = profiles !! j ≫= getitem "Guid"
        ↔ free_bits (urandom16 os (n + i)) = free_bits (urandom16 os (n + j))))
  ∧ (NoDup ((λ i, free_bits (urandom16 os i)) <$> seq n (length hosts)) →
     NoDup (getitem "Guid" <$> profiles))
  ∧ (∀ os' n',
       without_guid <$> (generate_profiles os' hosts parent n').1
       = without_guid <$> profiles).
Proof.
  intros profiles. unfold generate_profiles in *.
  assert (profiles
          = imap (λ i h, profile_record (name h)
                           (canonical_upper (uuid4 os (n + i))) parent) hosts) as E.
  { unfold profiles. by rewrite generate_profiles_loop_eq. }
  split; [|split; [|split; [|split]]].
  - by rewrite E, length_imap.
  - intros i h Hi. exists (canonical_upper (uuid4 os (n + i))), (uuid4 os (n + i)).
    split; [|split; [done|split; [apply v4_int_range|done]]].
    by rewrite E, list_lookup_imap, Hi.
  - intros i j Hi Hj. rewrite E, !list_lookup_imap.
    destruct (lookup_lt_is_Some_2 hosts i Hi) as [hi ->].
    destruct (lookup_lt_is_Some_2 hosts j Hj) as [hj ->].
    cbn [fmap option_fmap option_map mbind option_bind].
    rewrite !getitem_guid_record, <- guid_eq_iff.
    split; [intros H; congruence|by intros ->].
  - intros Hnd. apply NoDup_alt. intros i j x.
    rewrite !list_lookup_fmap, E, !list_lookup_imap.
    destruct (hosts !! i) as [hi|] eqn:Hi; [|done].
    destruct (hosts !! j) as [hj|] eqn:Hj; [|done].
    cbn [fmap option_fmap option_map]. rewrite !getitem_guid_record.
    intros Hx Hy.
    assert (canonical_upper (uuid4 os (n + i)) = canonical_upper (uuid4 os (n + j)))
      as Hg by congruence.
    apply guid_eq_iff in Hg.
    apply lookup_lt_Some in Hi, Hj.
    eapply (proj1 (NoDup_alt _) Hnd i j (free_bits (urandom16 os (n + i)))).
    + by rewrite list_lookup_fmap, lookup_seq_lt.
    + rewrite list_lookup_fmap, lookup_seq_lt by done. simpl. by rewrite Hg.
  - intros os' n'. rewrite generate_profiles_loop_eq, E. cbn [fst app].
    rewrite !fmap_imap. apply imap_ext. intros i h _. unfold compose.
    by rewrite !without_guid_record.
Qed.

Lemma generate_profiles_spec_witness :
  NoDup (getitem "Guid"
         <$> (generate_profiles Env.scenario
                [Host "alpha"; Host "beta"; Host "gamma"] "Default" 0).1)
  ∧ (generate_profiles Env.repeating [Host "alpha"; Host "beta"] "Default" 0).1 !! 0%nat
    ≫= getitem "Guid"
    = (generate_profiles Env.repeating [Host "alpha"; Host "beta"] "Default" 0).1 !! 1%nat
      ≫= getitem "Guid"
  ∧ (generate_profiles Env.scenario [Host "alpha"] "Default" 0).1
    = [PyDict [ ("Name", PyStr "alpha");
                ("Guid", PyStr "00000000-0000-4000-8000-000000000000");
                ("Dynamic Profile Parent Name", PyStr "Default");
                ("Custom Command", PyStr "Yes");
                ("Command", PyStr "ssh alpha");
                ("Tags", PyList [PyStr "ssh"]) ]].
Proof.
  split; [|split; [|vm_compute; reflexivity]].
  - apply (generate_profiles_spec Env.scenario
             [Host "alpha"; Host "beta"; Host "gamma"] "Default" 0).
    apply (bool_decide_unpack _). vm_compute. exact I.
  - destruct (generate_profiles_spec Env.repeating
                [Host "alpha"; Host "beta"] "Default" 0) as (_ & _ & H & _).
    apply (H 0%nat 1%nat); [simpl; lia..|]. vm_compute. reflexivity.
Defined.

(** ** The resolver: the entries do not depend on what is printed *)

Section Agree.

Variable os : OS.
Variables rec rec' : string → pstate → option (list host * pstate).
Hypothesis Hrec : ∀ p st st',
  visited st = visited st' → agree (rec p st) (rec' p st').

Lemma parse_included_agree files hosts st st' :
  visited st = visited st' →
  agree (parse_included rec files hosts st) (parse_included rec' files hosts st').
Proof.
  revert hosts st st'. induction files as [|f files IH]; intros hosts st st' HV; simpl.
  - done.
  - pose proof (Hrec f st st' HV) as H. unfold agree in H.
    destruct (rec f st) as [[h1 st1]|], (rec' f st') as [[h1' st1']|]; try done.
    destruct H as [-> H]. by apply IH.
Qed.

Lemma parse_line_agree v v' dir line hosts st st' :
  visited st = visited st' →
  agree (parse_line os rec v dir line hosts st)
        (parse_line os rec' v' dir line hosts st').
Proof.
  intros HV. unfold parse_line.
  destruct (_ || _); [done|].
  destruct (Py.split _) as [|tok0 args]; [done|].
  destruct (bool_decide (Py.lower tok0 = "include")).
  { destruct args as [|a args]; [done|].
    destruct (resolve_includes_error _ _ _); [done|]. apply parse_included_agree.
    destruct (resolve_includes _ _ _); [done|]. by destruct v, v'. }
  destruct (bool_decide _); [|done]. by destruct args.
Qed.

Lemma parse_lines_agree v v' dir lines hosts st st' :
  visited st = visited st' →
  agree (parse_lines os rec v dir lines hosts st)
        (parse_lines os rec' v' dir lines hosts st').
Proof.
  revert hosts st st'. induction lines as [|l lines IH]; intros hosts st st' HV; simpl.
  - done.
  - pose proof (parse_line_agree v v' dir l hosts st st' HV) as H. unfold agree in H.
    destruct (parse_line os rec v dir l hosts st) as [[h1 st1]|],
             (parse_line os rec' v' dir l hosts st') as [[h1' st1']|]; try done.
    destruct H as [-> H]. by apply IH.
Qed.

End Agree.

Lemma parse_config_file_agree os fuel v v' p st st' :
  visited st = visited st' →
  agree (parse_config_file os fuel v p st) (parse_config_file os fuel v' p st').
Proof.
  revert p st st'. induction fuel as [|fuel IH]; intros p st st' HV; [done|].
  rewrite !parse_config_file_eq. cbv zeta. rewrite <- HV.
  case_bool_decide; [by destruct v, v'|].
  destruct (negb _); [split; [done|]; destruct v, v'; simpl; by rewrite HV|].
  match goal with
  | |- agree (match ?a with _ => _ end) (match ?b with _ => _ end) =>
      assert (agree a b) as Hag
  end.
  { apply parse_lines_agree; [done|]. destruct v, v'; simpl; by rewrite HV. }
  unfold agree in Hag.
  destruct (parse_lines _ _ v _ _ _ _) as [[h1 st1]|],
           (parse_lines _ _ v' _ _ _ _) as [[h1' st1']|]; try done.
  destruct Hag as [-> Hag].
  destruct (lines_run os _ _ _).2; [|done]. by destruct v, v'.
Qed.

(** Whatever the verbosity and the output so far, the entries are those
    of [hosts_of]. *)
Lemma parse_ssh_config_hosts os fuel p v out :
  fst <$> parse_ssh_config os fuel p v out = hosts_of os fuel p.
Proof.
  unfold hosts_of, parse_ssh_config.
  pose proof (parse_config_file_agree os fuel v true p
                (initial_state out) (initial_state []) eq_refl) as H.
  unfold agree in H.
  destruct (parse_config_file os fuel v p _) as [[h st]|],
           (parse_config_file os fuel true p _) as [[h' st']|]; try done.
  by destruct H as [-> _].
Qed.

(** ** Multi-file output *)



(** How the writing of one file ends. *)
Lemma makedirs_returned os dir w u w' :
  makedirs os dir w = (Returned u, w') →
  makedirs_ok os dir = true ∧ w' = called_makedirs dir w.
Proof. unfold makedirs. destruct (makedirs_ok os dir); [by intros [= <-]|done]. Qed.


Lemma makedirs_ok_returns os dir w :
  makedirs_ok os dir = true →
  makedirs os dir w = (Returned tt, called_makedirs dir w).
Proof. intros H. unfold makedirs. by rewrite H. Qed.

Lemma dump_to_returned os path output w u w' :
  dump_to os path output w = (Returned u, w') →
  open_w_ok os path = true
  ∧ w' = write_file path (Json.dumps output) w
  ∧ ∀ n, write_limit os path = Some n →
         (String.length (Json.dumps output) ≤ n)%nat.
Proof.
  unfold dump_to. destruct (open_w_ok os path); [|done]. cbv zeta.
  destruct (write_limit os path) as [n|]; [|by intros [= <-]].
  destruct (Nat.ltb_spec n (String.length (Json.dumps output))); [done|].
  intros [= <-]. split; [done|]. split; [done|]. by intros ? [= <-].
Qed.

Lemma dump_to_raised os path output w e w' :
  dump_to os path output w = (Raised e, w') →
  e = "OSError: " +:+ path
  ∧ (open_w_ok os path = false ∧ w' = w
     ∨ open_w_ok os path = true
       ∧ ∃ n, write_limit os path = Some n
              ∧ (n < String.length (Json.dumps output))%nat
              ∧ w' = write_file path (String.substring 0 n (Json.dumps output)) w).
Proof.
  unfold dump_to. destruct (open_w_ok os path); [|intros [= <- <-]; by auto].
  cbv zeta. destruct (write_limit os path) as [n|]; [|done].
  destruct (Nat.ltb_spec n (String.length (Json.dumps output))); [|done].
  intros [= <- <-]. split; [done|]. right. split; [done|]. by exists n.
Qed.


Lemma dump_to_stdout os path output w :
  w_stdout (dump_to os path output w).2 = w_stdout w.
Proof.
  unfold dump_to. destruct (open_w_ok os path); [|done]. cbv zeta.
  destruct (write_limit os path) as [n|]; [|done]. by destruct (_ <? _)%nat.
Qed.

Section MultiFile.

Variable os : OS.
Variable dir : string.
Variable vb : bool.

(** What the loop of [write_multi_file] leaves: every profile has a
    path; a path holds the document of the last profile written to it;
    one line is printed per profile. *)
Lemma write_multi_loop_spec profiles w w' :
  write_multi_loop os profiles dir vb w = (Returned tt, w') →
  Forall (λ p, is_Some (profile_path dir p)) profiles
  ∧ (∀ path, w_disk w' !! path
             = match last_written dir path profiles with
               | Some p => Some (Json.dumps (single_doc p))
               | None => w_disk w !! path
               end)
  ∧ w_stdout w'
    = w_stdout w
      ++ (if vb
          then omap (λ p, (λ path, "  Wrote: " +:+ path) <$> profile_path dir p) profiles
          else []).
Proof.
  revert w. induction profiles as [|p profiles IH]; intros w.
  - simpl. intros [= <-]. split; [constructor|]. split; [done|].
    destruct vb; by rewrite app_nil_r.
  - cbn [write_multi_loop last_written omap list_omap].
    destruct (getitem "Name" p) as [[n| |]|] eqn:En; try done.
    assert (profile_path dir p = Some (multi_file_path dir n)) as Hp
      by (unfold profile_path; by rewrite En).
    rewrite Hp.
    destruct (dump_to os _ _ w) as [[[]|e] w1] eqn:Ed; [|done].
    apply dump_to_returned in Ed as (_ & -> & _).
    intros (Hall & Hdisk & Hout)%IH. split; [|split].
    + constructor; [by rewrite Hp|done].
    + intros path. rewrite Hdisk.
      destruct (last_written dir path profiles); [done|].
      assert (∀ x, w_disk (wprint_if vb x
                     (write_file (multi_file_path dir n)
                        (Json.dumps (PyDict [("Profiles", PyList [p])])) w))
                   = <[multi_file_path dir n :=
                         Json.dumps (single_doc p)]> (w_disk w)) as ->
        by (intros x; by destruct vb).
      case_bool_decide as E.
      * injection E as <-. by rewrite lookup_insert_eq.
      * rewrite lookup_insert_ne; [done|]. by intros <-.
    + rewrite Hout. destruct vb; simpl; [|done]. by rewrite <- app_assoc.
Qed.

Lemma last_written_None path profiles :
  last_written dir path profiles = None →
  ∀ k r, profiles !! k = Some r → profile_path dir r ≠ Some path.
Proof.
  induction profiles as [|p profiles IH]; simpl; [done|].
  destruct (last_written dir path profiles); [done|].
  case_bool_decide as Hp; [done|]. intros _ [|k] r; simpl.
  - by intros [= <-].
  - by apply IH.
Qed.

Lemma last_written_index path profiles q :
  last_written dir path profiles = Some q →
  ∃ k, profiles !! k = Some q ∧ profile_path dir q = Some path
       ∧ ∀ k' r, (k < k')%nat → profiles !! k' = Some r →
                 profile_path dir r ≠ Some path.
Proof.
  induction profiles as [|p profiles IH]; simpl; [done|].
  destruct (last_written dir path profiles) as [q'|] eqn:E.
  - intros [= ->]. destruct (IH eq_refl) as (k & Hk & Hp & Hlast).
    exists (S k). split; [done|]. split; [done|].
    intros [|k'] r Hlt Hr; [lia|]. apply (Hlast k' r); [lia|done].
  - case_bool_decide as Hp; [|done]. intros [= ->].
    exists 0%nat. split; [done|]. split; [done|].
    intros [|k'] r Hlt Hr; [lia|]. simpl in Hr.
    by eapply last_written_None.
Qed.

Lemma last_written_is_Some path profiles :
  is_Some (last_written dir path profiles)
  ↔ path ∈ omap (profile_path dir) profiles.
Proof.
  induction profiles as [|p profiles IH]; simpl.
  - split; [by intros [? ?]|by intros ?%elem_of_nil].
  - destruct (last_written dir path profiles) as [q|] eqn:E.
    + split; [intros _|done].
      destruct (profile_path dir p); [apply list_elem_of_further|]; by apply IH.
    + case_bool_decide as Hp.
      * split; [intros _|done]. rewrite Hp. apply list_elem_of_here.
      * split; [by intros [? ?]|].
        destruct (profile_path dir p) as [x|] eqn:Ex.
        -- intros [->|H]%elem_of_cons; [done|]. by apply IH in H as [? ?].
        -- intros H. by apply IH in H as [? ?].
Qed.

End MultiFile.






(** ** Exit statuses *)



Lemma disk_wprint_if vb line w : w_disk (wprint_if vb line w) = w_disk w.
Proof. by destruct vb. Qed.

Lemma disk_print_hosts i hosts w : w_disk (print_hosts i hosts w) = w_disk w.
Proof. revert i w. induction hosts as [|h hosts IH]; intros i w; simpl; [done|]. by rewrite IH. Qed.

Lemma dirs_wprint_if vb line w : w_dirs (wprint_if vb line w) = w_dirs w.
Proof. by destruct vb. Qed.

Lemma dirs_print_hosts i hosts w : w_dirs (print_hosts i hosts w) = w_dirs w.
Proof. revert i w. induction hosts as [|h hosts IH]; intros i w; simpl; [done|]. by rewrite IH. Qed.

Lemma stdout_wprint_if vb line w :
  w_stdout (wprint_if vb line w) = w_stdout w ++ (if vb then [line] else []).
Proof. destruct vb; [done|]. by rewrite app_nil_r. Qed.

(** A write either fails or goes through. *)
Lemma write_fails_cases os path text :
  write_fails os path text
  ∨ (open_w_ok os path = true
     ∧ ∀ n, write_limit os path = Some n → (String.length text ≤ n)%nat).
Proof.
  unfold write_fails. destruct (open_w_ok os path); [|by left; left].
  destruct (write_limit os path) as [n|].
  - destruct (Nat.lt_ge_cases n (String.length text)).
    + left. right. by exists n.
    + right. split; [done|]. by intros ? [= <-].
  - by right.
Qed.

Lemma dump_to_fails os path output w :
  write_fails os path (Json.dumps output) →
  ∃ e w', dump_to os path output w = (Raised e, w').
Proof.
  unfold dump_to. intros [Ho|(n & Hl & Hn)].
  - rewrite Ho. by eexists _, _.
  - destruct (open_w_ok os path); [|by eexists _, _]. cbv zeta. rewrite Hl.
    apply Nat.ltb_lt in Hn. rewrite Hn. by eexists _, _.
Qed.

Lemma dump_to_raised_fails os path output w e w' :
  dump_to os path output w = (Raised e, w') →
  write_fails os path (Json.dumps output).
Proof.
  intros (_ & [[Ho _]|(_ & n & Hl & Hn & _)])%dump_to_raised; [by left|].
  right. by exists n.
Qed.

Lemma dump_to_returned_ok os path output w u w' :
  dump_to os path output w = (Returned u, w') →
  ¬ write_fails os path (Json.dumps output).
Proof.
  intros (Ho & _ & Hl)%dump_to_returned [Ho'|(n & Hn & Hlt)]; [congruence|].
  apply Hl in Hn. lia.
Qed.

(** How [write_single_file] ends. *)
Lemma write_single_file_returned os profiles output_path vb w u w' :
  write_single_file os profiles output_path vb w = (Returned u, w') →
  let dir := PosixPath.dirname output_path in
  let text := Json.dumps (PyDict [("Profiles", PyList profiles)]) in
  (dir = EmptyString ∨ makedirs_ok os dir = true)
  ∧ ¬ write_fails os output_path text
  ∧ w_disk w' = <[output_path := text]> (w_disk w)
  ∧ w_stdout w'
    = w_stdout w
      ++ (if vb
          then [Json.nl +:+ "Wrote " +:+ pretty (length profiles)
                +:+ " profile(s) to: " +:+ output_path]
          else [])
  ∧ w_dirs w' = w_dirs w ++ (if bool_decide (dir = EmptyString) then [] else [dir]).
Proof.
  unfold write_single_file. cbv zeta.
  set (made := if bool_decide _ then _ else _).
  assert (∀ u0 w0, made = (Returned u0, w0) →
            (PosixPath.dirname output_path = EmptyString
             ∨ makedirs_ok os (PosixPath.dirname output_path) = true)
            ∧ w_disk w0 = w_disk w ∧ w_stdout w0 = w_stdout w
            ∧ w_dirs w0
              = w_dirs w ++ (if bool_decide (PosixPath.dirname output_path = EmptyString)
                             then [] else [PosixPath.dirname output_path])) as Hmade.
  { intros u0 w0. unfold made. case_bool_decide as Hd.
    - intros [= _ <-]. rewrite app_nil_r. by auto.
    - intros [Hok ->]%makedirs_returned. by auto. }
  destruct made as [[u0|e0] w0]; [|done].
  destruct (Hmade u0 w0 eq_refl) as (Hdir & Hdisk0 & Hout0 & Hdirs0).
  destruct (dump_to os _ _ w0) as [[[]|e] w1] eqn:E; [|done].
  pose proof (dump_to_returned_ok _ _ _ _ _ _ E) as Hnf.
  apply dump_to_returned in E as (_ & -> & _). intros [= Hw]. subst w'.
  split; [done|]. split; [done|].
  rewrite disk_wprint_if, stdout_wprint_if, dirs_wprint_if.
  cbn [write_file w_disk w_stdout w_dirs]. by rewrite Hdisk0, Hout0, Hdirs0.
Qed.

Lemma write_single_file_raised os profiles output_path vb w e w' :
  write_single_file os profiles output_path vb w = (Raised e, w') →
  let dir := PosixPath.dirname output_path in
  let text := Json.dumps (PyDict [("Profiles", PyList profiles)]) in
  w_stdout w' = w_stdout w
  ∧ w_dirs w' = w_dirs w ++ (if bool_decide (dir = EmptyString) then [] else [dir])
  ∧ (dir ≠ EmptyString ∧ makedirs_ok os dir = false ∧ w_disk w' = w_disk w
     ∨ (dir = EmptyString ∨ makedirs_ok os dir = true)
       ∧ (open_w_ok os output_path = false ∧ w_disk w' = w_disk w
          ∨ open_w_ok os output_path = true
            ∧ ∃ n, write_limit os output_path = Some n
                   ∧ (n < String.length text)%nat
                   ∧ w_disk w'
                     = <[output_path := String.substring 0 n text]> (w_disk w))).
Proof.
  unfold write_single_file. cbv zeta.
  set (made := if bool_decide _ then _ else _).
  assert (match made with
          | (Returned _, w0) =>
              (PosixPath.dirname output_path = EmptyString
               ∨ makedirs_ok os (PosixPath.dirname output_path) = true)
              ∧ w_disk w0 = w_disk w
          | (Raised _, w0) =>
              PosixPath.dirname output_path ≠ EmptyString
              ∧ makedirs_ok os (PosixPath.dirname output_path) = false
              ∧ w_disk w0 = w_disk w
          end
          ∧ w_stdout made.2 = w_stdout w
          ∧ w_dirs made.2
            = w_dirs w ++ (if bool_decide (PosixPath.dirname output_path = EmptyString)
                           then [] else [PosixPath.dirname output_path])) as Hmade.
  { unfold made, makedirs. case_bool_decide as Hd.
    - cbn [snd]. rewrite app_nil_r. by auto.
    - by destruct (makedirs_ok os _); cbn [snd]; auto. }
  destruct made as [[u0|e0] w0]; cbn [snd] in Hmade;
    destruct Hmade as (Hm & Hout0 & Hdirs0).
  2:{ intros [= <- <-]. split; [done|]. split; [done|]. by left. }
  destruct Hm as [Hdir Hdisk0].
  destruct (dump_to os _ _ w0) as [[[]|e'] w1] eqn:E; [done|].
  intros [= <- <-].
  apply dump_to_raised in E as (_ & [[Ho ->]|(Ho & n & Hl & Hn & ->)]);
    cbn [write_file w_disk w_stdout w_dirs];
    (split; [done|]); (split; [done|]); right; (split; [done|]).
  - by left.
  - right. split; [done|]. exists n. by rewrite Hdisk0.
Qed.

Lemma write_multi_loop_quiet os profiles dir w :
  w_stdout (write_multi_loop os profiles dir false w).2 = w_stdout w.
Proof.
  revert w. induction profiles as [|p profiles IH]; intros w; [done|].
  cbn [write_multi_loop].
  destruct (getitem "Name" p) as [[n| |]|]; try done.
  pose proof (dump_to_stdout os (multi_file_path dir n)
                (PyDict [("Profiles", PyList [p])]) w) as H.
  destruct (dump_to os _ _ w) as [[[]|e] w1]; [|done].
  cbn [wprint_if]. by rewrite IH.
Qed.

(** A writer that is not verbose prints nothing. *)
Lemma write_quiet os (multi : bool) profiles dir file w :
  w_stdout (if multi then write_multi_file os profiles dir false w
            else write_single_file os profiles file false w).2
  = w_stdout w.
Proof.
  destruct multi.
  - unfold write_multi_file, makedirs. destruct (makedirs_ok os _); [|done].
    pose proof (write_multi_loop_quiet os profiles dir (called_makedirs dir w)) as H.
    by destruct (write_multi_loop _ _ _ _ _) as [[[]|e] w'].
  - destruct (write_single_file os profiles file false w) as [[[]|e] w'] eqn:E.
    + apply write_single_file_returned in E as (_ & _ & _ & E & _). cbn [snd].
      by rewrite E, app_nil_r.
    + apply write_single_file_raised in E as [E _]. cbn [snd]. by rewrite E.
Qed.



(** The ways a run ends. *)
Lemma main_cases os fuel a answer r :
  main os fuel a answer = Some r →
  let cfg := expand_path os (config a) in
  let vb := verbose a && negb (quiet a) in
  (path_exists os cfg = false ∧ exit_status r = 1%Z ∧ w_disk (final r) = ∅
   ∧ last (w_stdout (final r))
     = Some (Json.nl +:+ "Error: SSH config file not found: " +:+ cfg))
  ∨ (path_exists os cfg = true
     ∧ ∃ hosts, hosts_of os fuel cfg = Some hosts
       ∧ ((hosts = [] ∧ exit_status r = 0%Z ∧ w_disk (final r) = ∅
           ∧ last (w_stdout (final r))
             = Some (Json.nl +:+ "No Host entries found in SSH config."))
          ∨ (hosts ≠ [] ∧ yes a = false ∧ answer = None
             ∧ exit_status r = 1%Z ∧ w_disk (final r) = ∅)
          ∨ (hosts ≠ [] ∧ confirmed a answer = false ∧ is_Some answer
             ∧ exit_status r = 0%Z ∧ w_disk (final r) = ∅
             ∧ last (w_stdout (final r)) = Some (Json.nl +:+ "Cancelled by user."))
          ∨ (hosts ≠ [] ∧ confirmed a answer = true
             ∧ ∃ w, w_disk w = ∅ ∧ w_dirs w = []
                 ∧ last (w_stdout w)
                   ≠ Some (Json.nl +:+ "No Host entries found in SSH config.")
                 ∧ match written_by os a
                          (generate_profiles os hosts (parent_profile a) 0).1 w with
                   | (Raised _, w') => exit_status r = 1%Z ∧ final r = w'
                   | (Returned _, w') =>
                       exit_status r = 0%Z ∧ w_disk (final r) = w_disk w'
                       ∧ w_dirs (final r) = w_dirs w'
                       ∧ w_stdout (final r)
                         = w_stdout w'
                           ++ (if vb
                               then [Json.nl +:+ "Done!"; Py.repeat_char "=" 60]
                               else [])
                   end))).
Proof.
  unfold main. cbv zeta.
  set (vb := verbose a && negb (quiet a)).
  set (cfg := expand_path os (config a)).
  set (w0 := wprint_if vb _ (wprint_if vb _ (wprint_if vb _ _))).
  assert (w_disk w0 = ∅) as Hw0 by (unfold w0; by rewrite !disk_wprint_if).
  assert (w_dirs w0 = []) as Hd0 by (unfold w0; by rewrite !dirs_wprint_if).
  assert (vb = false → w_stdout w0 = []) as Hq0 by (by intros ->).
  destruct (path_exists os cfg) eqn:Hex; cbn [negb].
  2:{ intros [= <-]. left. cbn [exit_status final wprint w_disk w_stdout].
      split; [done|]. split; [done|]. split; [done|]. apply last_snoc. }
  pose proof (parse_ssh_config_hosts os fuel cfg vb
                (w_stdout (wprint_if vb (Json.nl +:+ "Parsing SSH config...") w0))) as Hh.
  destruct (parse_ssh_config os fuel cfg vb _) as [[hosts st]|] eqn:Ep; [|done].
  cbn [fmap option_fmap option_map fst] in Hh.
  set (ws := with_stdout (stdout st) _).
  assert (w_disk ws = ∅) as Hws by (unfold ws; cbn [with_stdout w_disk];
                                     by rewrite disk_wprint_if).
  assert (w_stdout ws = stdout st) as Hwso by done.
  assert (w_dirs ws = []) as Hwsd by (unfold ws; cbn [with_stdout w_dirs];
                                      by rewrite dirs_wprint_if).
  assert (vb = false → stdout st = []) as Hqst.
  { intros Hvb. apply parse_config_file_ok in Ep as [_ _ _ (o & Ho & Hnil) _].
    rewrite (Hnil Hvb), app_nil_r in Ho. rewrite Ho. cbn [initial_state stdout].
    rewrite Hvb. by apply Hq0. }
  intros Hmain. right. split; [done|]. exists hosts. split; [done|].
  destruct hosts as [|h hs].
  { injection Hmain as <-. left. cbn [exit_status final wprint w_disk w_stdout].
    split; [done|]. split; [done|]. split; [done|]. apply last_snoc. }
  right.
  destruct (generate_profiles os (h :: hs) (parent_profile a) 0)
    as [profiles n'] eqn:G.
  cbn [fst].
  set (w1 := wprint_if vb _ (if vb then _ else _)) in Hmain.
  assert (w_disk w1 = ∅) as Hw1.
  { unfold w1. rewrite disk_wprint_if. destruct vb; [rewrite disk_print_hosts|];
    by rewrite disk_wprint_if. }
  assert (w_dirs w1 = []) as Hd1.
  { unfold w1. rewrite dirs_wprint_if. destruct vb; [rewrite dirs_print_hosts|];
    by rewrite dirs_wprint_if. }
  assert (vb = false → w_stdout w1 = []) as Hq1.
  { intros Hvb. unfold w1. rewrite Hvb. cbn [wprint_if w_stdout].
    rewrite Hwso. by apply Hqst. }
  assert (∀ w2, w_disk w2 = ∅ → w_dirs w2 = [] →
            (vb = false →
             last (w_stdout w2)
             ≠ Some (Json.nl +:+ "No Host entries found in SSH config.")) →
            match (if multi_file a
                   then write_multi_file os profiles
                          (expand_path os (output_dir a)) vb
                          (wprint_if vb (Json.nl +:+ "Writing profiles...") w2)
                   else write_single_file os profiles
                          (PosixPath.join (expand_path os (output_dir a))
                             "ssh-hosts.json") vb
                          (wprint_if vb (Json.nl +:+ "Writing profiles...") w2)) with
            | (Raised _, w) => Some (Run 1 w)
            | (Returned _, w) =>
                Some (Run 0 (wprint_if vb (Py.repeat_char "=" 60)
                               (wprint_if vb (Json.nl +:+ "Done!") w)))
            end = Some r →
            ∃ w, w_disk w = ∅ ∧ w_dirs w = []
               ∧ last (w_stdout w)
                 ≠ Some (Json.nl +:+ "No Host entries found in SSH config.")
               ∧ match written_by os a profiles w with
                 | (Raised _, w') => exit_status r = 1%Z ∧ final r = w'
                 | (Returned _, w') =>
                     exit_status r = 0%Z ∧ w_disk (final r) = w_disk w'
                     ∧ w_dirs (final r) = w_dirs w'
                     ∧ w_stdout (final r)
                       = w_stdout w'
                         ++ (if vb
                             then [Json.nl +:+ "Done!"; Py.repeat_char "=" 60]
                             else [])
                 end) as Hwrite.
  { intros w2 Hw2 Hd2 Hl2 Hr.
    exists (wprint_if vb (Json.nl +:+ "Writing profiles...") w2).
    split; [by rewrite disk_wprint_if|]. split; [by rewrite dirs_wprint_if|]. split.
    { destruct vb; [|by apply Hl2]. cbn [wprint_if wprint w_stdout].
      rewrite last_snoc. intros H. vm_compute in H. discriminate. }
    unfold written_by. fold vb.
    destruct (if multi_file a then _ else _) as [[[]|e] w3];
      injection Hr as <-; cbn [exit_status final]; [|done].
    split; [done|]. split; [by rewrite !disk_wprint_if|].
    split; [by rewrite !dirs_wprint_if|].
    destruct vb; cbn [wprint_if wprint w_stdout]; [|by rewrite app_nil_r].
    by rewrite <- app_assoc. }
  unfold confirmed. destruct (yes a) eqn:Hy; cbn [negb orb] in *.
  { right. right. split; [done|]. split; [done|]. apply (Hwrite w1); [done|done| |done].
    intros Hvb. by rewrite (Hq1 Hvb). }
  unfold confirm_write in Hmain. cbv zeta in Hmain.
  destruct answer as [line|].
  2:{ injection Hmain as <-. left. by cbn [exit_status final wprint w_disk]. }
  right.
  destruct (_ || _) eqn:Hans in Hmain.
  - right. split; [done|]. split; [done|]. eapply Hwrite; [| | |exact Hmain].
    + by cbn [wprint w_disk].
    + by cbn [wprint w_dirs].
    + intros _. cbn [wprint w_stdout]. rewrite last_snoc.
      intros H. vm_compute in H. discriminate.
  - left. injection Hmain as <-. split; [done|]. split; [done|].
    split; [by eexists|]. cbn [exit_status final wprint w_disk w_stdout].
    split; [done|]. split; [done|]. apply last_snoc.
Qed.




(** ** JSON: reading back what was written *)

Lemma skip_ws_indent level s :
  JsonRead.skip_ws (Json.newline_indent level +:+ s) = JsonRead.skip_ws s.
Proof.
  unfold Json.newline_indent, Json.nl. generalize (2 * level)%nat. intros n.
  simpl. induction n as [|n IH]; simpl; [done|]. apply IH.
Qed.

Lemma parse_chars_escape s rest :
  JsonRead.parse_chars (Json.escape s +:+ String dquote rest) = Some (s, rest).
Proof.
  unfold dquote in *. induction s as [|c s IH]; [reflexivity|].
  cbn [Json.escape]. rewrite str_app_assoc.
  destruct c as [[] [] [] [] [] [] [] []];
    match goal with
    | |- context [Json.escape_char ?c] =>
        let e := eval vm_compute in (Json.escape_char c) in
        change (Json.escape_char c) with e
    end;
    simpl; rewrite IH; reflexivity.
Qed.

Lemma val_size_list l : val_size (PyList l) = S (elems_size l).
Proof.
  unfold elems_size. simpl. f_equal.
  induction l as [|x l IH]; simpl; [done|]. by rewrite IH.
Qed.

Lemma val_size_dict l : val_size (PyDict l) = S (members_size l).
Proof.
  unfold members_size. simpl. f_equal.
  induction l as [|x l IH]; simpl; [done|]. by rewrite IH.
Qed.

Lemma encode_list_cons level x l :
  Json.encode level (PyList (x :: l))
  = "[" +:+ Json.newline_indent (S level) +:+ Json.encode (S level) x
    +:+ encode_tail (S level) l +:+ Json.newline_indent level +:+ "]".
Proof.
  cbn [Json.encode]. do 4 f_equal.
  induction l as [|y l IH]; [done|]. cbn [encode_tail]. by rewrite <- IH.
Qed.

Lemma encode_dict_cons level k x l :
  Json.encode level (PyDict ((k, x) :: l))
  = "{" +:+ Json.newline_indent (S level) +:+ Json.encode_str k +:+ ": "
    +:+ Json.encode (S level) x
    +:+ encode_members_tail (S level) l +:+ Json.newline_indent level +:+ "}".
Proof.
  cbn [Json.encode]. do 6 f_equal.
  induction l as [|[k' y] l IH]; [done|]. cbn [encode_members_tail]. by rewrite <- IH.
Qed.

Lemma next_char_indent level s :
  JsonRead.next_char (Json.newline_indent level +:+ s) = JsonRead.next_char s.
Proof. unfold JsonRead.next_char. by rewrite skip_ws_indent. Qed.

Lemma next_char_space s :
  JsonRead.next_char (String " " s) = JsonRead.next_char s.
Proof. reflexivity. Qed.

Lemma next_char_head c s :
  JsonRead.is_ws c = false → JsonRead.next_char (String c s) = Some (c, s).
Proof. intros H. unfold JsonRead.next_char. simpl. by rewrite H. Qed.

(** The first character of an encoded value. *)
Lemma encode_head level v rest :
  ∃ c t, Json.encode level v +:+ rest = String c t
         ∧ JsonRead.next_char (Json.encode level v +:+ rest) = Some (c, t)
         ∧ c ≠ "]"%char ∧ c ≠ "}"%char ∧ c ≠ ","%char
         ∧ (c = dquote ∨ c = "["%char ∨ c = "{"%char).
Proof.
  destruct v as [s|[|x l]|[|[k x] l]].
  - eexists _, _. split; [reflexivity|]. repeat split; try done. by left.
  - eexists _, _. split; [reflexivity|]. repeat split; try done. right; by left.
  - rewrite encode_list_cons. eexists _, _. split; [reflexivity|].
    repeat split; try done. right; by left.
  - eexists _, _. split; [reflexivity|]. repeat split; try done. right; by right.
  - rewrite encode_dict_cons. eexists _, _. split; [reflexivity|].
    repeat split; try done. right; by right.
Qed.

Lemma parse_value_S f s :
  JsonRead.parse_value (S f) s =
  match JsonRead.next_char s with
  | None => None
  | Some (c, s') =>
      if bool_decide (c = dquote) then
        match JsonRead.parse_chars s' with
        | Some (str, rest) => Some (PyStr str, rest)
        | None => None
        end
      else if bool_decide (c = "["%char) then
        match JsonRead.next_char s' with
        | None => None
        | Some (c', rest) =>
            if bool_decide (c' = "]"%char) then Some (PyList [], rest)
            else
              match JsonRead.parse_elements f s' with
              | Some (l, rest') => Some (PyList l, rest')
              | None => None
              end
        end
      else if bool_decide (c = "{"%char) then
        match JsonRead.next_char s' with
        | None => None
        | Some (c', rest) =>
            if bool_decide (c' = "}"%char) then Some (PyDict [], rest)
            else
              match JsonRead.parse_members f s' with
              | Some (pairs, rest') => Some (PyDict (JsonRead.dict_of pairs), rest')
              | None => None
              end
        end
      else None
  end.
Proof. reflexivity. Qed.

Lemma parse_elements_S f s :
  JsonRead.parse_elements (S f) s =
  match JsonRead.parse_value f s with
  | None => None
  | Some (v, rest) =>
      match JsonRead.next_char rest with
      | None => None
      | Some (c, rest') =>
          if bool_decide (c = ","%char) then
            match JsonRead.parse_elements f rest' with
            | Some (l, rest'') => Some (v :: l, rest'')
            | None => None
            end
          else if bool_decide (c = "]"%char) then Some ([v], rest')
          else None
      end
  end.
Proof. reflexivity. Qed.

Lemma parse_members_S f s :
  JsonRead.parse_members (S f) s =
  match JsonRead.next_char s with
  | None => None
  | Some (c, s') =>
      if bool_decide (c = dquote) then
        match JsonRead.parse_chars s' with
        | None => None
        | Some (k, rest) =>
            match JsonRead.next_char rest with
            | None => None
            | Some (c', rest') =>
                if bool_decide (c' = ":"%char) then
                  match JsonRead.parse_value f rest' with
                  | None => None
                  | Some (v, rest'') =>
                      match JsonRead.next_char rest'' with
                      | None => None
                      | Some (c'', r) =>
                          if bool_decide (c'' = ","%char) then
                            match JsonRead.parse_members f r with
                            | Some (l, r') => Some ((k, v) :: l, r')
                            | None => None
                            end
                          else if bool_decide (c'' = "}"%char)
                          then Some ([(k, v)], r)
                          else None
                      end
                  end
                else None
            end
        end
      else None
  end.
Proof. reflexivity. Qed.

(** White space before a value, an element or a member is skipped. *)
Lemma parse_value_ws f s s' :
  JsonRead.next_char s = JsonRead.next_char s' →
  JsonRead.parse_value f s = JsonRead.parse_value f s'.
Proof. intros H. destruct f as [|f]; [done|]. by rewrite !parse_value_S, H. Qed.

Lemma parse_elements_ws f s s' :
  JsonRead.next_char s = JsonRead.next_char s' →
  JsonRead.parse_elements f s = JsonRead.parse_elements f s'.
Proof.
  intros H. destruct f as [|f]; [done|].
  by rewrite !parse_elements_S, (parse_value_ws f s s' H).
Qed.

Lemma parse_members_ws f s s' :
  JsonRead.next_char s = JsonRead.next_char s' →
  JsonRead.parse_members f s = JsonRead.parse_members f s'.
Proof. intros H. destruct f as [|f]; [done|]. by rewrite !parse_members_S, H. Qed.

Lemma elems_size_cons x l :
  elems_size (x :: l) = (S (val_size x) + elems_size l)%nat.
Proof. reflexivity. Qed.

Lemma members_size_cons kv l :
  members_size (kv :: l) = (S (val_size kv.2) + members_size l)%nat.
Proof. reflexivity. Qed.

Lemma parse_elements_encode level x l close rest :
  Forall reads_back (x :: l) →
  JsonRead.next_char close = Some ("]"%char, rest) →
  ∀ fuel, (elems_size (x :: l) ≤ fuel)%nat →
  JsonRead.parse_elements fuel
    (Json.encode level x +:+ encode_tail level l +:+ close)
  = Some (x :: l, rest).
Proof.
  intros H Hclose. revert x H. induction l as [|y l IH]; intros x H fuel Hf.
  - apply Forall_cons in H as [Hx _]. rewrite elems_size_cons in Hf.
    destruct fuel as [|f]; [lia|]. rewrite parse_elements_S.
    rewrite Hx by lia. cbn [encode_tail String.append]. by rewrite Hclose.
  - apply Forall_cons in H as [Hx H]. rewrite elems_size_cons in Hf.
    destruct fuel as [|f]; [lia|]. rewrite parse_elements_S.
    rewrite Hx by lia. cbn [encode_tail].
    rewrite !str_app_assoc. cbn [String.append].
    rewrite next_char_head by done.
    rewrite bool_decide_eq_true_2 by done.
    rewrite (parse_elements_ws f _ _ (next_char_indent _ _)).
    rewrite <- !str_app_assoc, str_app_assoc.
    rewrite (IH y H f) by lia.
    done.
Qed.

Lemma encode_str_app k rest :
  Json.encode_str k +:+ rest = String dquote (Json.escape k +:+ String dquote rest).
Proof. unfold Json.encode_str. simpl. by rewrite str_app_assoc. Qed.

Lemma parse_members_encode level k x l close rest :
  Forall (λ kv, reads_back kv.2) ((k, x) :: l) →
  JsonRead.next_char close = Some ("}"%char, rest) →
  ∀ fuel, (members_size ((k, x) :: l) ≤ fuel)%nat →
  JsonRead.parse_members fuel
    (Json.encode_str k +:+ ": " +:+ Json.encode level x
     +:+ encode_members_tail level l +:+ close)
  = Some ((k, x) :: l, rest).
Proof.
  intros H Hclose. revert k x H.
  induction l as [|[k' y] l IH]; intros k x H fuel Hf.
  - apply Forall_cons in H as [Hx _]. rewrite members_size_cons in Hf.
    destruct fuel as [|f]; [lia|]. rewrite parse_members_S.
    rewrite encode_str_app, next_char_head by done.
    rewrite bool_decide_eq_true_2 by done. rewrite parse_chars_escape.
    cbn [String.append]. rewrite next_char_head by done.
    rewrite bool_decide_eq_true_2 by done.
    rewrite (parse_value_ws f _ _ (next_char_space _)).
    rewrite Hx by (simpl in *; lia). cbn [encode_members_tail String.append].
    by rewrite Hclose.
  - apply Forall_cons in H as [Hx H]. rewrite members_size_cons in Hf.
    destruct fuel as [|f]; [lia|]. rewrite parse_members_S.
    rewrite encode_str_app, next_char_head by done.
    rewrite bool_decide_eq_true_2 by done. rewrite parse_chars_escape.
    cbn [String.append]. rewrite next_char_head by done.
    rewrite bool_decide_eq_true_2 by done.
    rewrite (parse_value_ws f _ _ (next_char_space _)).
    rewrite Hx by (simpl in *; lia). cbn [encode_members_tail].
    rewrite !str_app_assoc. cbn [String.append].
    rewrite next_char_head by done.
    rewrite bool_decide_eq_true_2 by done.
    rewrite (parse_members_ws f _ _ (next_char_indent _ _)).
    pose proof (IH k' y H f) as IH'.
    rewrite ?str_app_assoc in IH'. cbn [String.append] in IH'.
    rewrite ?str_app_assoc. cbn [String.append].
    rewrite IH' by lia.
    done.
Qed.

(** A dict whose keys are distinct is the dict of its items. *)
Lemma dict_set_fresh k v items :
  k ∉ items.*1 → JsonRead.dict_set k v items = items ++ [(k, v)].
Proof.
  induction items as [|[k' v'] items IH]; intros Hk; simpl; [done|].
  rewrite bool_decide_eq_false_2 by (intros ->; apply Hk; apply list_elem_of_here).
  rewrite IH; [done|]. intros Hin. apply Hk. by apply list_elem_of_further.
Qed.

Lemma dict_of_NoDup pairs : NoDup pairs.*1 → JsonRead.dict_of pairs = pairs.
Proof.
  unfold JsonRead.dict_of.
  assert (∀ acc, NoDup (acc ++ pairs).*1 →
            fold_left (λ d kv, JsonRead.dict_set kv.1 kv.2 d) pairs acc
            = acc ++ pairs) as H.
  { induction pairs as [|[k v] pairs IH]; intros acc Hnd; simpl.
    - by rewrite app_nil_r.
    - rewrite dict_set_fresh.
      + rewrite IH; rewrite <- app_assoc; done.
      + rewrite fmap_app in Hnd. apply NoDup_app in Hnd as (_ & Hd & _).
        intros Hin. apply (Hd k Hin). apply list_elem_of_here. }
  intros Hnd. by apply (H []).
Qed.

(** Reading back what [encode] wrote gives the value. *)
Lemma parse_value_encode v : wf_val v → reads_back v.
Proof.
  induction v as [s|l IH|items IH] using pyval_ind; intros Hwf fuel level rest Hf.
  - destruct fuel as [|f]; [simpl in Hf; lia|]. cbn [Json.encode].
    rewrite parse_value_S, encode_str_app, next_char_head by done.
    rewrite bool_decide_eq_true_2 by done. by rewrite parse_chars_escape.
  - inversion Hwf as [|l' Hl|]; subst.
    assert (Forall reads_back l) as Hrb.
    { rewrite Forall_forall in IH, Hl. apply Forall_forall. intros x Hx.
      by apply IH, Hl. }
    rewrite val_size_list in Hf. destruct fuel as [|f]; [lia|].
    destruct l as [|x l]; [reflexivity|].
    rewrite encode_list_cons, parse_value_S. rewrite !str_app_assoc.
    cbn [String.append]. rewrite next_char_head by done.
    rewrite bool_decide_eq_false_2 by done.
    rewrite bool_decide_eq_true_2 by done.
    rewrite next_char_indent.
    destruct (encode_head (S level) x
                (encode_tail (S level) l +:+ Json.newline_indent level
                 +:+ String "]" rest))
      as (c & t & _ & -> & Hc & _).
    rewrite bool_decide_eq_false_2 by done.
    rewrite (parse_elements_ws f _ _ (next_char_indent _ _)).
    rewrite (parse_elements_encode (S level) x l _ rest Hrb); [done| |lia].
    rewrite next_char_indent. by rewrite next_char_head.
  - inversion Hwf as [| |items' Hnd Hl]; subst.
    assert (Forall (λ kv, reads_back kv.2) items) as Hrb.
    { rewrite Forall_forall in IH, Hl. apply Forall_forall. intros x Hx.
      by apply IH, Hl. }
    rewrite val_size_dict in Hf. destruct fuel as [|f]; [lia|].
    destruct items as [|[k x] l]; [reflexivity|].
    rewrite encode_dict_cons, parse_value_S. rewrite !str_app_assoc.
    cbn [String.append]. rewrite next_char_head by done.
    rewrite bool_decide_eq_false_2 by done.
    rewrite bool_decide_eq_false_2 by done.
    rewrite bool_decide_eq_true_2 by done.
    rewrite next_char_indent, encode_str_app, next_char_head by done.
    rewrite bool_decide_eq_false_2 by done.
    rewrite (parse_members_ws f _ _ (next_char_indent _ _)).
    rewrite <- encode_str_app.
    pose proof (parse_members_encode (S level) k x l
                  (Json.newline_indent level +:+ "}" +:+ rest) rest Hrb) as H.
    rewrite ?str_app_assoc in H. cbn [String.append] in H.
    rewrite ?str_app_assoc. cbn [String.append].
    rewrite H; [by rewrite dict_of_NoDup| |lia].
    rewrite next_char_indent. by rewrite next_char_head.
Qed.

Lemma length_newline_indent level :
  (1 ≤ String.length (Json.newline_indent level))%nat.
Proof. unfold Json.newline_indent, Json.nl. simpl. lia. Qed.

(** An encoding is at least as long as the fuel that reading it takes. *)
Lemma val_size_le_length v level :
  (val_size v ≤ String.length (Json.encode level v))%nat.
Proof.
  revert level. induction v as [s|l IH|items IH] using pyval_ind; intros level.
  - simpl. lia.
  - rewrite val_size_list. destruct l as [|x l]; [compute; lia|].
    apply Forall_cons in IH as [Hx IH].
    rewrite encode_list_cons, elems_size_cons, !str_length_app.
    pose proof (length_newline_indent (S level)). specialize (Hx (S level)).
    assert (elems_size l ≤ String.length (encode_tail (S level) l))%nat;
      [|cbn [String.length]; lia].
    induction IH as [|y l Hy _ IHl]; [compute; lia|].
    cbn [encode_tail]. rewrite elems_size_cons, !str_length_app.
    specialize (Hy (S level)). cbn [String.length]. lia.
  - rewrite val_size_dict. destruct items as [|[k x] l]; [compute; lia|].
    apply Forall_cons in IH as [Hx IH]. cbn [snd] in Hx.
    rewrite encode_dict_cons, members_size_cons, !str_length_app.
    pose proof (length_newline_indent (S level)). specialize (Hx (S level)).
    assert (members_size l ≤ String.length (encode_members_tail (S level) l))%nat;
      [|cbn [String.length snd]; lia].
    induction IH as [|[k' y] l Hy _ IHl]; [compute; lia|].
    cbn [encode_members_tail]. rewrite members_size_cons, !str_length_app.
    specialize (Hy (S level)). cbn [String.length snd] in *. lia.
Qed.

(** [json.loads(json.dumps(v, indent=2)) == v] *)
Lemma loads_dumps v : wf_val v → JsonRead.loads (Json.dumps v) = Some v.
Proof.
  intros Hwf. unfold JsonRead.loads, Json.dumps.
  pose proof (parse_value_encode v Hwf (String.length (Json.encode 0 v)) 0
                EmptyString (val_size_le_length v 0)) as H.
  rewrite str_app_nil_r in H. by rewrite H.
Qed.

Lemma is_profile_wf p : is_profile p → wf_val p.
Proof.
  intros (n & g & par & f & c & tags & ->). constructor.
  - apply (bool_decide_unpack _). vm_compute. exact I.
  - repeat (apply Forall_cons; split); try constructor.
    apply Forall_forall. intros x (t & -> & _)%list_elem_of_fmap. constructor.
Qed.

Lemma generated_profiles_are_records os hosts parent n :
  Forall is_profile (generate_profiles os hosts parent n).1.
Proof.
  unfold generate_profiles. rewrite generate_profiles_loop_eq. cbn [fst app].
  apply Forall_forall. intros p (i & h & -> & _)%elem_of_lookup_imap.
  by exists (name h), (canonical_upper (uuid4 os (n + i))), parent, "Yes",
    ("ssh " +:+ name h), ["ssh"].
Qed.

(** C8. Writing any sequence of profile records in single-file mode,
    when the write succeeds, leaves at the output path the text of
    [json.dump] of the dict whose key ["Profiles"] holds the list of the
    records; the text of a record has its fields in the order Name, Guid,
    Dynamic Profile Parent Name, Custom Command, Command, Tags; reading
    the text back succeeds and gives that dict again: as many profile
    objects as records, each with its fields, so with its name and its
    command. *)
Theorem single_file_round_trip os profiles output_path vb w w' :
  Forall is_profile profiles →
  write_single_file os profiles output_path vb w = (Returned tt, w') →
  ∃ text,
    w_disk w' !! output_path = Some text
    ∧ text = Json.dumps (PyDict [("Profiles", PyList profiles)])
    ∧ JsonRead.loads text = Some (PyDict [("Profiles", PyList profiles)])
    ∧ (∀ level name guid parent flag command tags,
         Json.encode level
           (PyDict [ ("Name", PyStr name);
                     ("Guid", PyStr guid);
                     ("Dynamic Profile Parent Name", PyStr parent);
                     ("Custom Command", PyStr flag);
                     ("Command", PyStr command);
                     ("Tags", PyList (PyStr <$> tags)) ])
         = "{" +:+ Json.newline_indent (S level)
           +:+ Json.encode_str "Name" +:+ ": " +:+ Json.encode_str name
           +:+ "," +:+ Json.newline_indent (S level)
           +:+ Json.encode_str "Guid" +:+ ": " +:+ Json.encode_str guid
           +:+ "," +:+ Json.newline_indent (S level)
           +:+ Json.encode_str "Dynamic Profile Parent Name" +:+ ": "
           +:+ Json.encode_str parent
           +:+ "," +:+ Json.newline_indent (S level)
           +:+ Json.encode_str "Custom Command" +:+ ": " +:+ Json.encode_str flag
           +:+ "," +:+ Json.newline_indent (S level)
           +:+ Json.encode_str "Command" +:+ ": " +:+ Json.encode_str command
           +:+ "," +:+ Json.newline_indent (S level)
           +:+ Json.encode_str "Tags" +:+ ": "
           +:+ Json.encode (S level) (PyList (PyStr <$> tags))
           +:+ Json.newline_indent level +:+ "}").
Proof.
  intros Hp (_ & _ & Hd & _)%write_single_file_returned.
  exists (Json.dumps (PyDict [("Profiles", PyList profiles)])).
  split; [|split; [done|split]].
  - rewrite Hd. apply lookup_insert_eq.
  - apply loads_dumps. constructor.
    + apply NoDup_singleton.
    + apply Forall_cons. split; [|constructor]. cbn [snd]. apply wf_list.
      eapply Forall_impl; [exact Hp|]. apply is_profile_wf.
  - intros. rewrite encode_dict_cons. cbn [encode_members_tail].
    rewrite !str_app_assoc. reflexivity.
Qed.

Lemma single_file_round_trip_witness :
  let profiles :=
    (generate_profiles Env.scenario
       [Host "alpha"; Host "beta"; Host "gamma"] "Default" 0).1 in
  ∃ w' text,
    write_single_file Env.scenario profiles "/out/ssh-hosts.json" false (World [] ∅)
    = (Returned tt, w')
    ∧ w_disk w' !! "/out/ssh-hosts.json" = Some text
    ∧ JsonRead.loads text = Some (PyDict [("Profiles", PyList profiles)])
    ∧ length profiles = 3%nat.
Proof.
  intros profiles.
  destruct (write_single_file Env.scenario profiles "/out/ssh-hosts.json" false
              (World [] ∅)) as [[[]|e] w'] eqn:E; [|by vm_compute in E].
  destruct (single_file_round_trip Env.scenario profiles "/out/ssh-hosts.json"
              false (World [] ∅) w'
              (generated_profiles_are_records Env.scenario _ "Default" 0) E)
    as (text & H1 & _ & H3 & _).
  exists w', text. split; [done|]. split; [done|]. split; [done|].
  vm_compute. reflexivity.
Defined.

(** * Further properties *)

(** ** More on the resolver *)

Lemma from_host_line_mono os files files' h :
  files ⊆ files' → from_host_line os files h → from_host_line os files' h.
Proof.
  intros Hsub (p & line & Hp & H). exists p, line.
  split; [by apply Hsub|done].
Qed.

Lemma sound_refl os st : sound os st [] st.
Proof. split; [constructor|]. intros q Hq. by left. Qed.

Lemma sound_trans os vb st1 h1 st2 h2 st3 :
  step_ok os vb st2 h2 st3 →
  sound os st1 h1 st2 → sound os st2 h2 st3 → sound os st1 (h1 ++ h2) st3.
Proof.
  intros [_ _ (new & Hnew & _) _ _] [F1 E1] [F2 E2]. split.
  - apply Forall_app. split; [|done].
    eapply Forall_impl; [exact F1|]. intros h. apply from_host_line_mono.
    rewrite Hnew. intros q Hq. apply elem_of_app. by left.
  - intros q [Hq|Hq]%E2; [by apply E1|by right].
Qed.

Lemma sound_print os vb line st : sound os st [] (print_if vb line st).
Proof.
  split; [constructor|]. intros q Hq. left. by destruct vb.
Qed.

Section LoopSound.

Variable os : OS.
Variable rec : string → pstate → option (list host * pstate).
Variable vb : bool.
Hypothesis Hok : rec_ok os vb rec.
Hypothesis Hsound : rec_sound os rec.

Lemma parse_included_sound files st hs st' :
  parse_included rec files [] st = Some (hs, st') → sound os st hs st'.
Proof.
  revert st hs st'. induction files as [|f files IH]; intros st hs st'; simpl.
  - intros [= <- <-]. apply sound_refl.
  - destruct (rec f st) as [[h1 st1]|] eqn:E1; [|done].
    rewrite parse_included_acc.
    destruct (parse_included rec files [] st1) as [[h2 st2]|] eqn:E2; [|done].
    intros [= <- <-]. simpl.
    eapply sound_trans; [by eapply parse_included_ok|by eapply Hsound|by apply IH].
Qed.

Lemma parse_line_sound p0 dir line st hs st' :
  p0 ∈ opened st → line ∈ (read_text os p0).1 →
  parse_line os rec vb dir line [] st = Some (hs, st') → sound os st hs st'.
Proof.
  intros Hp0 Hline. pose proof (eq_refl (tokens_of line)) as Htok. revert Htok.
  unfold tokens_of at 2, parse_line. cbv zeta.
  destruct (_ || _); [intros _ [= <- <-]; apply sound_refl|].
  destruct (Py.split _) as [|tok0 args]; [intros _ [= <- <-]; apply sound_refl|].
  intros Htok.
  destruct (bool_decide (Py.lower tok0 = "include")).
  { destruct args as [|a args]; [intros [= <- <-]; apply sound_refl|].
    destruct (resolve_includes_error _ _ _); [intros [= <- <-]; apply sound_refl|].
    intros H. pose proof (parse_included_ok os rec vb Hok _ _ _ _ H) as Hstep.
    apply parse_included_sound in H.
    destruct (resolve_includes _ _ _); [done|].
    change hs with ([] ++ hs).
    eapply sound_trans; [exact Hstep|apply sound_print|done]. }
  case_bool_decide as Hk; [|intros [= <- <-]; apply sound_refl].
  destruct args as [|a args]; [intros [= <- <-]; apply sound_refl|].
  rewrite add_hosts_app. intros [= <- <-]. split; [|intros q Hq; by left].
  apply Forall_forall. intros h (n & -> & Hn)%list_elem_of_fmap.
  exists p0, line. split; [done|]. split; [done|].
  unfold declared. rewrite Htok. by rewrite bool_decide_eq_true_2.
Qed.

Lemma parse_lines_sound p0 dir lines st hs st' :
  p0 ∈ opened st → lines ⊆ (read_text os p0).1 →
  parse_lines os rec vb dir lines [] st = Some (hs, st') → sound os st hs st'.
Proof.
  revert st hs st'. induction lines as [|l lines IH]; intros st hs st' Hp0 Hsub; simpl.
  - intros [= <- <-]. apply sound_refl.
  - destruct (parse_line os rec vb dir l [] st) as [[h1 st1]|] eqn:E1; [|done].
    rewrite parse_lines_acc.
    destruct (parse_lines os rec vb dir lines [] st1) as [[h2 st2]|] eqn:E2; [|done].
    intros [= <- <-].
    pose proof (parse_line_ok os rec vb Hok _ _ _ _ _ E1) as [_ _ (new & Hnew & _) _ _].
    eapply sound_trans.
    + by eapply parse_lines_ok.
    + eapply parse_line_sound; [done| |done]. apply Hsub, list_elem_of_here.
    + apply IH; [|by intros x Hx; apply Hsub, list_elem_of_further|done].
      rewrite Hnew. apply elem_of_app. by left.
Qed.

End LoopSound.

Lemma parse_config_file_sound os fuel vb :
  rec_sound os (parse_config_file os fuel vb).
Proof.
  induction fuel as [|fuel IH]; intros p st hs st'; [done|].
  rewrite parse_config_file_eq. cbv zeta.
  case_bool_decide as Hv.
  { intros [= <- <-]. apply sound_print. }
  destruct (path_exists os (abspath os p)) eqn:Hex; simpl.
  2:{ intros [= <- <-]. split; [constructor|]. intros q Hq. left. by destruct vb. }
  destruct (parse_lines _ _ _ _ _ _ _) as [[h1 st1]|] eqn:E; [|done].
  pose proof (parse_lines_ok os _ vb (parse_config_file_ok os fuel vb) _ _ _ _ _ E)
    as Hstep.
  apply (parse_lines_sound os _ vb (parse_config_file_ok os fuel vb) IH (abspath os p))
    in E as [F Hop].
  3:{ destruct (lines_run_prefix os (PosixPath.dirname (abspath os p))
                  (read_text os (abspath os p)).1 (read_text os (abspath os p)).2)
        as (rest & Hrest & _).
      intros x Hx. rewrite Hrest. apply elem_of_app. by left. }
  2:{ simpl. destruct vb; simpl; apply elem_of_app; right; apply list_elem_of_here. }
  assert (sound os st h1 st1) as Hs.
  { split; [done|]. intros q Hq. destruct (Hop q Hq) as [Hq'|Hq']; [|by right].
    assert (q ∈ opened st ++ [abspath os p]) as Hq'' by (by destruct vb).
    apply elem_of_app in Hq'' as [Hq''|Hq'']; [by left|].
    apply list_elem_of_singleton in Hq'' as ->. by right. }
  destruct (lines_run os _ _ _).2; intros [= <- <-]; [|done].
  destruct Hs as [F' Hop']. split; by destruct vb.
Qed.

Lemma declared_tokens line n : n ∈ declared line → token n.
Proof.
  unfold declared. destruct (tokens_of line) as [[|kw args]|] eqn:E;
    try (by intros ?%elem_of_nil).
  case_bool_decide; [|by intros ?%elem_of_nil].
  intros [_ Hn]%list_elem_of_filter. unfold tokens_of in E.
  destruct (_ || _); [done|]. injection E as E.
  pose proof (split_tokens (Py.strip line)) as Ht. rewrite E in Ht.
  apply Forall_cons in Ht as [_ Ht]. by eapply Forall_forall in Ht.
Qed.

(** X1. Every entry of a resolution is an alias that a Host line of a
    file opened during the resolution declares: an argument of the line
    other than the wildcard; it is not empty and holds no white space. *)
Theorem entries_come_from_host_lines os fuel config_path vb out hosts st :
  parse_ssh_config os fuel config_path vb out = Some (hosts, st) →
  Forall (λ h, token (name h) ∧ from_host_line os (opened st) h) hosts.
Proof.
  intros [F _]%parse_config_file_sound.
  eapply Forall_impl; [exact F|]. intros h Hh. split; [|done].
  destruct Hh as (p & line & _ & _ & Hn). by eapply declared_tokens.
Qed.

Lemma entries_come_from_host_lines_witness :
  ∃ hosts st,
    parse_ssh_config Env.scenario 2 "/home/u/.ssh/config" true [] = Some (hosts, st)
    ∧ Forall (λ h, token (name h) ∧ from_host_line Env.scenario (opened st) h) hosts.
Proof.
  eexists _, _. split; [vm_compute; reflexivity|].
  eapply (entries_come_from_host_lines Env.scenario 2 "/home/u/.ssh/config" true []).
  vm_compute. reflexivity.
Defined.

(** X2. When no line of the files that a resolution opens declares an
    alias, the resolution finds no entry. *)
Theorem no_host_lines_no_entries os fuel config_path vb out hosts st :
  parse_ssh_config os fuel config_path vb out = Some (hosts, st) →
  Forall (λ q, Forall (λ line, declared line = []) (read_text os q).1) (opened st) →
  hosts = [].
Proof.
  intros [F _]%parse_config_file_sound Hno.
  destruct hosts as [|h hosts]; [done|].
  apply Forall_cons in F as [(p & line & Hp & Hl & Hn) _].
  eapply Forall_forall in Hno; [|exact Hp].
  eapply Forall_forall in Hno; [|exact Hl].
  rewrite Hno in Hn. by apply elem_of_nil in Hn.
Qed.

Lemma no_host_lines_no_entries_witness :
  ∃ hosts st,
    parse_ssh_config Env.hostless 1 "/home/u/.ssh/config" true [] = Some (hosts, st)
    ∧ hosts = [].
Proof.
  eexists _, _. split; [vm_compute; reflexivity|].
  eapply (no_host_lines_no_entries Env.hostless 1 "/home/u/.ssh/config" true []).
  - vm_compute. reflexivity.
  - repeat constructor.
Defined.

(** X3. A resolution opens existing files only. *)
Theorem opened_files_exist os fuel config_path vb out hosts st :
  parse_ssh_config os fuel config_path vb out = Some (hosts, st) →
  ∀ q, q ∈ opened st → path_exists os q = true.
Proof.
  intros [_ E]%parse_config_file_sound q Hq.
  destruct (E q Hq) as [Hq'|Hq']; [|done]. by apply elem_of_nil in Hq'.
Qed.

Lemma opened_files_exist_witness :
  ∃ hosts st,
    parse_ssh_config Env.faulty 2 "/cfg/main" true [] = Some (hosts, st)
    ∧ ∀ q, q ∈ opened st → path_exists Env.faulty q = true.
Proof.
  eexists _, _. split; [vm_compute; reflexivity|].
  eapply (opened_files_exist Env.faulty 2 "/cfg/main" true []).
  vm_compute. reflexivity.
Defined.


(** X5. A resolution only appends to the output, and a quiet one prints
    nothing: no warning and no error either. *)
Theorem quiet_resolution_is_silent os fuel config_path vb out hosts st :
  parse_ssh_config os fuel config_path vb out = Some (hosts, st) →
  ∃ o, stdout st = out ++ o ∧ (vb = false → o = []).
Proof. by intros [_ _ _ H _]%parse_config_file_ok. Qed.

Lemma quiet_resolution_is_silent_witness :
  ∃ hosts st,
    parse_ssh_config Env.faulty 2 "/cfg/main" false [] = Some (hosts, st)
    ∧ ∃ o, stdout st = [] ++ o ∧ (false = false → o = []).
Proof.
  eexists _, _. split; [vm_compute; reflexivity|].
  eapply (quiet_resolution_is_silent Env.faulty 2 "/cfg/main" false []).
  vm_compute. reflexivity.
Defined.

(** ** Lines and their tokens *)

Lemma all_space_app a b : all_space (a +:+ b) = all_space a && all_space b.
Proof.
  induction a as [|c a IH]; simpl; [done|]. rewrite IH. by destruct (Py.isspace c).
Qed.

Lemma all_space_rev s : all_space (String.rev s) = all_space s.
Proof.
  induction s as [|c s IH]; [done|].
  change (String c s) with (String c EmptyString +:+ s).
  rewrite str_rev_app, !all_space_app, IH. apply andb_comm.
Qed.

Lemma lstrip_pad pad s : all_space pad = true → Py.lstrip (pad +:+ s) = Py.lstrip s.
Proof.
  induction pad as [|c pad IH]; simpl; [done|].
  destruct (Py.isspace c); [apply IH|done].
Qed.

(** A string is its padding on the left followed by what [lstrip] keeps. *)
Lemma lstrip_split s : ∃ pad, all_space pad = true ∧ s = pad +:+ Py.lstrip s.
Proof.
  induction s as [|c s (pad & Hp & IH)]; [by exists EmptyString|]. simpl.
  destruct (Py.isspace c) eqn:E.
  - exists (String c pad). simpl. rewrite E. split; [done|]. by rewrite <- IH.
  - by exists EmptyString.
Qed.

Lemma rstrip_split s : ∃ pad, all_space pad = true ∧ s = Py.rstrip s +:+ pad.
Proof.
  destruct (lstrip_split (String.rev s)) as (pad & Hp & E).
  exists (String.rev pad). split; [by rewrite all_space_rev|].
  unfold Py.rstrip. by rewrite <- str_rev_app, <- E, str_rev_involutive.
Qed.

Lemma strip_split s :
  ∃ p q, all_space p = true ∧ all_space q = true ∧ s = p +:+ Py.strip s +:+ q.
Proof.
  destruct (lstrip_split s) as (p & Hp & E).
  destruct (rstrip_split (Py.lstrip s)) as (q & Hq & E').
  exists p, q. split; [done|]. split; [done|].
  unfold Py.strip. by rewrite <- E', <- E.
Qed.

Lemma lstrip_starts_clean s : starts_clean (Py.lstrip s).
Proof.
  induction s as [|c s IH]; simpl; [done|]. by destruct (Py.isspace c) eqn:E.
Qed.

Lemma strip_starts_clean s : starts_clean (Py.strip s).
Proof.
  unfold Py.strip. pose proof (lstrip_starts_clean s) as H.
  destruct (rstrip_split (Py.lstrip s)) as (q & _ & E).
  destruct (Py.rstrip (Py.lstrip s)) as [|c x]; [done|].
  rewrite E in H. exact H.
Qed.

Lemma split_go_pad_l pad s :
  all_space pad = true → Py.split_go EmptyString (pad +:+ s) = Py.split_go EmptyString s.
Proof.
  induction pad as [|c pad IH]; simpl; [done|].
  destruct (Py.isspace c); [apply IH|done].
Qed.

Lemma split_go_pad_r cur s pad :
  all_space pad = true → Py.split_go cur (s +:+ pad) = Py.split_go cur s.
Proof.
  intros Hp. revert cur. induction s as [|c s IH]; intros cur.
  - simpl. revert cur. induction pad as [|c pad IH]; intros cur; [done|].
    simpl in Hp. destruct (Py.isspace c) eqn:E; [|done]. simpl. rewrite E.
    rewrite (IH Hp EmptyString). by destruct cur.
  - simpl. destruct (Py.isspace c); [|apply IH].
    rewrite (IH EmptyString). done.
Qed.

(** [split] does not see the white space that [strip] removes. *)
Lemma split_strip s : Py.split (Py.strip s) = Py.split s.
Proof.
  destruct (strip_split s) as (p & q & Hp & Hq & E).
  rewrite E at 2. unfold Py.split.
  by rewrite split_go_pad_l, split_go_pad_r.
Qed.

Lemma split_go_head cur t :
  cur ≠ EmptyString →
  ∃ x rest, Py.split_go cur t = (String.rev cur +:+ x) :: rest.
Proof.
  revert cur. induction t as [|c t IH]; intros cur Hc; simpl.
  - destruct cur; [done|]. exists EmptyString, []. by rewrite str_app_nil_r.
  - destruct (Py.isspace c).
    + destruct cur; [done|]. eexists EmptyString, _. by rewrite str_app_nil_r.
    + destruct (IH (String c cur)) as (x & rest & E); [done|].
      exists (String c x), rest. rewrite E.
      change (String c cur) with (String c EmptyString +:+ cur).
      by rewrite str_rev_app, str_app_assoc.
Qed.

(** The tokens of a line, from [split] alone: none when the line is
    blank or when its first token starts with [#]. *)
Lemma tokens_of_split line :
  tokens_of line
  = match Py.split line with
    | [] => None
    | t :: ts => if Py.startswith t "#" then None else Some (t :: ts)
    end.
Proof.
  unfold tokens_of. cbv zeta. rewrite <- (split_strip line).
  pose proof (strip_starts_clean line) as H.
  destruct (Py.strip line) as [|c s]; [done|]. simpl in H.
  unfold Py.split. simpl Py.split_go. rewrite H.
  destruct (split_go_head (String c EmptyString) s) as (x & rest & E); [done|].
  rewrite E. simpl. by destruct (bool_decide (c = "#"%char)).
Qed.

Lemma parse_line_tokens os rec vb dir line hosts st :
  parse_line os rec vb dir line hosts st
  = match tokens_of line with
    | Some (tok0 :: args) =>
        if bool_decide (Py.lower tok0 = "include") then
          match args with
          | [] => Some (hosts, st)
          | _ =>
              match resolve_includes_error os (Py.join " " args) dir with
              | Some _ => Some (hosts, st)
              | None =>
                  let included_files := resolve_includes os (Py.join " " args) dir in
                  parse_included rec included_files hosts
                    match included_files with
                    | [] => st
                    | _ =>
                        print_if vb
                          ("    Include directive resolved to "
                           +:+ pretty (length included_files) +:+ " file(s)") st
                    end
              end
          end
        else if bool_decide (Py.lower tok0 = "host") then
          match args with
          | [] => Some (hosts, st)
          | host_names => Some (add_hosts host_names hosts, st)
          end
        else Some (hosts, st)
    | _ => Some (hosts, st)
    end.
Proof.
  unfold parse_line, tokens_of. cbv zeta.
  destruct (_ || _); [done|]. by destruct (Py.split _).
Qed.

Lemma lower_char_hash c : Py.lower_char c = "#"%char → c = "#"%char.
Proof.
  destruct c as [[] [] [] [] [] [] [] []]; vm_compute; congruence.
Qed.

Lemma lower_startswith_hash kw kw' :
  Py.lower kw = Py.lower kw' → Py.startswith kw "#" = Py.startswith kw' "#".
Proof.
  destruct kw as [|c k], kw' as [|c' k']; try done. simpl. intros [= E _].
  do 2 case_bool_decide; try done; subst.
  - symmetry in E. by apply lower_char_hash in E.
  - by apply lower_char_hash in E.
Qed.

(** X6. A line is read by its tokens, and its keyword without regard to
    case: two lines with the same arguments and with keywords that are
    equal in lower case have the same effect, however their tokens are
    spaced and whatever white space surrounds them. *)
Theorem keyword_case_and_spacing_ignored os rec vb dir line line' kw kw' args hosts st :
  Py.split line = kw :: args →
  Py.split line' = kw' :: args →
  Py.lower kw = Py.lower kw' →
  parse_line os rec vb dir line hosts st = parse_line os rec vb dir line' hosts st.
Proof.
  intros E E' Hk. rewrite !parse_line_tokens, !tokens_of_split, E, E'.
  rewrite (lower_startswith_hash kw kw' Hk).
  destruct (Py.startswith kw' "#"); [done|]. by rewrite Hk.
Qed.

Lemma keyword_case_and_spacing_ignored_witness :
  parse_line Env.scenario (λ _ st, Some ([], st)) true "/d" "Host a b" []
    (initial_state [])
  = parse_line Env.scenario (λ _ st, Some ([], st)) true "/d" "	hOST   a	b  " []
      (initial_state []).
Proof.
  apply (keyword_case_and_spacing_ignored _ _ _ _ _ _ "Host" "hOST" ["a"; "b"]);
    reflexivity.
Defined.

(** X7. A line whose first character after the leading white space is
    [#] has no effect, whatever follows: a directive in a comment is not
    read. *)
Theorem comment_line_is_ignored os rec vb dir pad rest hosts st :
  all_space pad = true →
  parse_line os rec vb dir (pad +:+ String "#" rest) hosts st = Some (hosts, st).
Proof.
  intros Hp. rewrite parse_line_tokens, tokens_of_split. unfold Py.split.
  rewrite split_go_pad_l by done. simpl.
  destruct (split_go_head (String "#" EmptyString) rest) as (x & r & E); [done|].
  by rewrite E.
Qed.

Lemma comment_line_is_ignored_witness :
  parse_line Env.scenario (λ _ st, Some ([], st)) true "/d" "  # Host a b" []
    (initial_state [])
  = Some ([], initial_state []).
Proof.
  apply (comment_line_is_ignored _ _ _ _ "  " " Host a b"). reflexivity.
Defined.

(** ** More on the generator *)

Lemma hex_with_add digit a b n :
  hex_with digit (a + b) n
  = hex_with digit a (n / 16 ^ Z.of_nat b)%Z +:+ hex_with digit b n.
Proof.
  revert n. induction b as [|b IH]; intros n.
  - rewrite Nat.add_0_r. simpl. by rewrite Z.div_1_r, str_app_nil_r.
  - rewrite Nat.add_succ_r. cbn [hex_with]. rewrite IH, str_app_assoc.
    do 2 f_equal. rewrite Nat2Z.inj_succ, Z.pow_succ_r, Z.div_div by lia. done.
Qed.

Lemma all_HEX_app a b : all_HEX (a +:+ b) = all_HEX a && all_HEX b.
Proof.
  induction a as [|c a IH]; [done|]. cbn [String.append all_HEX]. cbv zeta.
  rewrite IH. by rewrite andb_assoc.
Qed.

Lemma below_16 (P : Z → Prop) :
  (∀ m, (m < 16)%nat → P (Z.of_nat m)) → ∀ d, (0 ≤ d < 16)%Z → P d.
Proof. intros H d Hd. rewrite <- (Z2Nat.id d) by lia. apply H. lia. Qed.

Lemma all_HEX_hex_with k n : all_HEX (hex_with HEX_digit k n) = true.
Proof.
  revert n. induction k as [|k IH]; intros n; [done|].
  cbn [hex_with]. rewrite all_HEX_app, IH.
  pose proof (Z.mod_pos_bound n 16 eq_refl) as H. revert H.
  generalize (n mod 16)%Z. apply below_16. intros m Hm.
  do 16 (destruct m as [|m]; [reflexivity|]). lia.
Qed.

Lemma substring_app_skip a b n m :
  String.substring (String.length a + n) m (a +:+ b) = String.substring n m b.
Proof. induction a as [|c a IH]; [done|]. simpl. apply IH. Qed.

(** The digits of the version and of the variant. *)
Lemma v4_int_version r : ((Uuid.v4_int (r mod 2 ^ 128) / 16 ^ 19) mod 16 = 4)%Z.
Proof.
  rewrite v4_int_free. unfold free_bits. generalize (r mod 2 ^ 128)%Z. intros a.
  change (16 ^ 19)%Z with (2 ^ 76)%Z. rewrite <- Z.shiftr_div_pow2 by done.
  change 16%Z with (2 ^ 4)%Z.
  apply Z.bits_inj'. intros i Hi. rewrite Z.testbit_mod_pow2 by done.
  destruct (Z.ltb_spec i 4) as [Hlt|Hge].
  - rewrite Z.shiftr_spec, Z.lor_spec, Z.land_spec, Z.lnot_spec by lia.
    assert (i = 0 ∨ i = 1 ∨ i = 2 ∨ i = 3)%Z as [-> | [-> | [-> | -> ]]] by lia;
      simpl; by rewrite andb_false_r.
  - simpl. symmetry. apply Z.bits_above_log2; [done|]. simpl. lia.
Qed.

Lemma v4_int_variant r :
  (8 ≤ (Uuid.v4_int (r mod 2 ^ 128) / 16 ^ 15) mod 16 < 12)%Z.
Proof.
  rewrite v4_int_free. unfold free_bits. generalize (r mod 2 ^ 128)%Z. intros a.
  change (16 ^ 15)%Z with (2 ^ 60)%Z. rewrite <- Z.shiftr_div_pow2 by done.
  set (v := Z.lor _ _).
  assert (Z.testbit (Z.shiftr v 60 mod 16) 3 = true) as H3.
  { change 16%Z with (2 ^ 4)%Z. rewrite Z.testbit_mod_pow2 by done.
    unfold v. rewrite Z.shiftr_spec, Z.lor_spec by lia. simpl.
    apply orb_true_r. }
  assert (Z.testbit (Z.shiftr v 60 mod 16) 2 = false) as H2.
  { change 16%Z with (2 ^ 4)%Z. rewrite Z.testbit_mod_pow2 by done.
    unfold v. rewrite Z.shiftr_spec, Z.lor_spec, Z.land_spec, Z.lnot_spec by lia.
    simpl. by rewrite andb_false_r. }
  pose proof (Z.mod_pos_bound (Z.shiftr v 60) 16 eq_refl) as Hb.
  revert Hb H3 H2. generalize (Z.shiftr v 60 mod 16)%Z.
  apply (below_16 (λ z, Z.testbit z 3 = true → Z.testbit z 2 = false
                        → (8 ≤ z < 12)%Z)).
  intros m Hm.
  do 16 (destruct m as [|m];
         [intros H3 H2; first [by vm_compute in H3|by vm_compute in H2|lia]|]).
  lia.
Qed.

Lemma substring_mid a b R n m :
  String.length a = n → String.length b = m →
  String.substring n m (a +:+ b +:+ R) = b.
Proof.
  intros <- <-. rewrite <- (Nat.add_0_r (String.length a)), substring_app_skip.
  apply substring_0_app.
Qed.

Lemma hex_with_1 digit n :
  hex_with digit 1 n = String (digit (n mod 16)%Z) EmptyString.
Proof. done. Qed.

(** X8. The identifier of a profile has the form of a version-4 UUID in
    upper case: 32 hexadecimal digits in groups of 8, 4, 4, 4 and 12,
    the third group starting with 4 and the fourth with 8, 9, A or B,
    whatever the random source gives; and each identifier takes one draw
    of it. *)
Theorem generate_guid_is_version_4 os n :
  v4_text (generate_guid os n).1 ∧ (generate_guid os n).2 = S n.
Proof.
  split; [|done]. unfold generate_guid. cbn [fst]. rewrite upper_to_str.
  unfold canonical_upper, grouped, uuid4.
  set (v := Uuid.v4_int _).
  pose proof (v4_int_version (urandom16 os n)) as Hver.
  pose proof (v4_int_variant (urandom16 os n)) as Hvar. fold v in Hver, Hvar.
  change 32%nat with (8 + (4 + (1 + (3 + (1 + (3 + 12))))))%nat.
  rewrite !hex_with_add, !hex_with_1.
  change (Z.of_nat (3 + (1 + (3 + 12)))) with 19%Z.
  change (Z.of_nat (3 + 12)) with 15%Z.
  rewrite Hver. change (HEX_digit 4) with "4"%char.
  set (a := hex_with HEX_digit 8 _). set (b := hex_with HEX_digit 4 _).
  set (c := hex_with HEX_digit 3 _). set (d := hex_with HEX_digit 3 _).
  set (e := hex_with HEX_digit 12 _).
  set (y := HEX_digit _).
  assert (String.length a = 8 ∧ String.length b = 4 ∧ String.length c = 3
          ∧ String.length d = 3 ∧ String.length e = 12) as (La & Lb & Lc & Ld & Le)
    by (unfold a, b, c, d, e; by rewrite !hex_with_length).
  exists a, b, c, y, d, e.
  split; [|repeat (split; [done|]); split].
  - set (hex := a +:+ _).
    assert (String.substring 0 8 hex = a) as ->.
    { apply (substring_mid EmptyString); done. }
    assert (String.substring 8 4 hex = b) as ->.
    { by apply substring_mid. }
    assert (String.substring 12 4 hex = String "4" c) as ->.
    { assert (hex = (a +:+ b) +:+ String "4" c +:+ String y d +:+ e) as ->
        by (unfold hex; by rewrite !str_app_assoc).
      apply substring_mid; [rewrite !str_length_app; lia|simpl; lia]. }
    assert (String.substring 16 4 hex = String y d) as ->.
    { assert (hex = (a +:+ b +:+ String "4" c) +:+ String y d +:+ e) as ->
        by (unfold hex; by rewrite !str_app_assoc).
      apply substring_mid; [rewrite !str_length_app; simpl; lia|simpl; lia]. }
    assert (String.substring 20 12 hex = e) as ->.
    { assert (hex = (a +:+ b +:+ String "4" c +:+ String y d) +:+ e +:+ EmptyString)
        as -> by (unfold hex; by rewrite !str_app_assoc, str_app_nil_r).
      apply substring_mid; [rewrite !str_length_app; simpl; lia|done]. }
    done.
  - unfold a, b, c, d, e. by rewrite !all_HEX_app, !all_HEX_hex_with.
  - unfold y. revert Hvar. generalize ((v / 16 ^ 15) mod 16)%Z. intros k Hk.
    assert (k = 8 ∨ k = 9 ∨ k = 10 ∨ k = 11)%Z as [-> | [-> | [-> | -> ]]] by lia;
      cbv [HEX_digit]; simpl; repeat constructor.
Qed.

(** X9. Generating the profiles of two lists of entries one after the
    other gives the profiles of the two lists put together: a profile
    depends on its entry, on the parent name and on its own draw of the
    random source only. *)
Theorem generate_profiles_app os hosts1 hosts2 parent n :
  generate_profiles os (hosts1 ++ hosts2) parent n
  = let '(profiles1, n1) := generate_profiles os hosts1 parent n in
    let '(profiles2, n2) := generate_profiles os hosts2 parent n1 in
    (profiles1 ++ profiles2, n2).
Proof.
  unfold generate_profiles. rewrite !generate_profiles_loop_eq. cbn [app].
  rewrite imap_app, length_app, Nat.add_assoc.
  apply (f_equal (λ l, (_ ++ l, _))).
  apply imap_ext. intros i h _. cbn. by rewrite Nat.add_assoc.
Qed.

(** ** More on the output *)

(** X10. In multi-file mode the file of a profile lies in the output
    directory itself, whatever the name of the profile: the file name
    holds no slash, so a name cannot lead out of the directory, nor
    into a directory below it. *)
Theorem multi_file_stays_in_output_dir dir n :
  dir ≠ EmptyString → Py.endswith dir "/" = false →
  ∃ f, multi_file_path dir n = dir +:+ "/" +:+ f
       ∧ has_char "/" f = false
       ∧ PosixPath.dirname (multi_file_path dir n) = dir.
Proof.
  intros Hd He. exists (sanitize n +:+ ".json").
  assert (has_char "/" (sanitize n +:+ ".json") = false) as Hf.
  { rewrite has_char_app. by destruct (sanitize_clean n) as [-> _]. }
  unfold multi_file_path.
  destruct (dirname_join dir _ Hd He Hf) as [-> ->]. done.
Qed.

Lemma multi_file_stays_in_output_dir_witness :
  ∃ f, multi_file_path "/out" "/etc/../*" = "/out" +:+ "/" +:+ f
       ∧ has_char "/" f = false
       ∧ PosixPath.dirname (multi_file_path "/out" "/etc/../*") = "/out".
Proof.
  apply (multi_file_stays_in_output_dir "/out" "/etc/../*"); [done|reflexivity].
Defined.

(** X11. Profiles with different names can have the same file: a slash
    and an underscore in a name give the same file name, and so do a
    star and the word it is replaced by. *)
Theorem different_names_same_file dir a b :
  multi_file_path dir (a +:+ "/" +:+ b) = multi_file_path dir (a +:+ "_" +:+ b)
  ∧ multi_file_path dir (a +:+ "*" +:+ b)
    = multi_file_path dir (a +:+ "wildcard" +:+ b).
Proof.
  unfold multi_file_path, sanitize. by rewrite !replace_app.
Qed.

Lemma write_multi_loop_app os ps1 ps2 dir vb w :
  write_multi_loop os (ps1 ++ ps2) dir vb w
  = match write_multi_loop os ps1 dir vb w with
    | (Returned _, w1) => write_multi_loop os ps2 dir vb w1
    | r => r
    end.
Proof.
  revert w. induction ps1 as [|p ps1 IH]; intros w; [done|].
  cbn [app write_multi_loop].
  destruct (getitem "Name" p) as [[n| |]|]; try done.
  destruct (dump_to os _ _ w) as [[[]|e] w']; [apply IH|done].
Qed.

Lemma dump_to_dirs os path output w :
  w_dirs (dump_to os path output w).2 = w_dirs w.
Proof.
  unfold dump_to. destruct (open_w_ok os path); [|done]. cbv zeta.
  destruct (write_limit os path) as [n|]; [|done]. by destruct (_ <? _)%nat.
Qed.

Lemma write_multi_loop_dirs os profiles dir vb w :
  w_dirs (write_multi_loop os profiles dir vb w).2 = w_dirs w.
Proof.
  revert w. induction profiles as [|p profiles IH]; intros w; [done|].
  cbn [write_multi_loop].
  destruct (getitem "Name" p) as [[n| |]|]; try done.
  pose proof (dump_to_dirs os (multi_file_path dir n)
                (PyDict [("Profiles", PyList [p])]) w) as H.
  destruct (dump_to os _ _ w) as [[[]|e] w1]; [|done].
  by rewrite IH, dirs_wprint_if.
Qed.

(** X12. Writing in multi-file mode is not all or nothing: when the
    file of a profile cannot be opened, the call raises, and the files
    of the profiles before it stay written, as does the call of
    [os.makedirs] on the output directory. *)
Theorem write_multi_file_keeps_earlier_files os ps1 p ps2 dir vb w w1 path :
  makedirs_ok os dir = true →
  write_multi_loop os ps1 dir vb (called_makedirs dir w) = (Returned tt, w1) →
  profile_path dir p = Some path →
  open_w_ok os path = false →
  write_multi_file os (ps1 ++ p :: ps2) dir vb w
  = (Raised ("OSError: " +:+ path), w1)
  ∧ w_dirs w1 = w_dirs w ++ [dir]
  ∧ ∀ q, q ∈ ps1 →
      ∃ path' r, profile_path dir q = Some path'
                 ∧ w_disk w1 !! path' = Some (Json.dumps (single_doc r)).
Proof.
  intros Hmk H1 Hp Hop. split; [|split].
  - unfold write_multi_file. rewrite makedirs_ok_returns by done.
    rewrite write_multi_loop_app, H1. cbn [write_multi_loop].
    unfold profile_path in Hp.
    destruct (getitem "Name" p) as [[n| |]|]; try done. injection Hp as Hp.
    unfold dump_to. by rewrite Hp, Hop.
  - pose proof (write_multi_loop_dirs os ps1 dir vb (called_makedirs dir w)) as Hd.
    by rewrite H1 in Hd.
  - intros q Hq. apply write_multi_loop_spec in H1 as (Hall & Hdisk & _).
    eapply Forall_forall in Hall as [path' Hq']; [|exact Hq].
    exists path'. rewrite Hdisk.
    assert (is_Some (last_written dir path' ps1)) as [r Hr].
    { apply last_written_is_Some. apply list_elem_of_omap. by exists q. }
    exists r. by rewrite Hr.
Qed.

Lemma write_multi_file_keeps_earlier_files_witness :
  ∃ w1,
    write_multi_file (write_protected Env.scenario "/out/b.json")
      ([profile_record "a" "G1" "Default"]
       ++ profile_record "b" "G2" "Default" :: [profile_record "c" "G3" "Default"])
      "/out" true (World [] ∅)
    = (Raised ("OSError: " +:+ "/out/b.json"), w1)
    ∧ w_dirs w1 = [] ++ ["/out"]
    ∧ ∀ q, q ∈ [profile_record "a" "G1" "Default"] →
        ∃ path' r, profile_path "/out" q = Some path'
                   ∧ w_disk w1 !! path' = Some (Json.dumps (single_doc r)).
Proof.
  eexists.
  apply (write_multi_file_keeps_earlier_files
           (write_protected Env.scenario "/out/b.json")
           [profile_record "a" "G1" "Default"] (profile_record "b" "G2" "Default")
           [profile_record "c" "G3" "Default"] "/out" true (World [] ∅) _
           "/out/b.json").
  - reflexivity.
  - vm_compute. reflexivity.
  - reflexivity.
  - reflexivity.
Defined.

(** ** More on [main] *)

Lemma dump_to_goes_through os path output w :
  ¬ write_fails os path (Json.dumps output) →
  dump_to os path output w = (Returned tt, write_file path (Json.dumps output) w).
Proof.
  intros Hnf. destruct (dump_to os path output w) as [[[]|e] w'] eqn:E.
  - by apply dump_to_returned in E as (_ & -> & _).
  - by apply dump_to_raised_fails in E.
Qed.




Lemma single_doc_wf p : is_profile p → wf_val (single_doc p).
Proof.
  intros Hp%is_profile_wf. constructor; [apply NoDup_singleton|].
  repeat constructor. done.
Qed.

Lemma doc_wf os hosts parent n :
  wf_val (PyDict [("Profiles", PyList (generate_profiles os hosts parent n).1)]).
Proof.
  constructor; [apply NoDup_singleton|]. repeat constructor.
  eapply Forall_impl; [apply generated_profiles_are_records|]. apply is_profile_wf.
Qed.

(** X14. A run writes a file only after the config file was found, a
    host was found in it, and the write was confirmed, by [--yes] or by
    the answer to the prompt. *)
Theorem main_writes_only_when_confirmed os fuel a answer r path text :
  main os fuel a answer = Some r →
  w_disk (final r) !! path = Some text →
  path_exists os (expand_path os (config a)) = true
  ∧ confirmed a answer = true
  ∧ ∃ h hs, hosts_of os fuel (expand_path os (config a)) = Some (h :: hs).
Proof.
  intros Hmain Hfile.
  assert (w_disk (final r) ≠ ∅) as Hne.
  { intros E. by rewrite E, lookup_empty in Hfile. }
  destruct (main_cases _ _ _ _ _ Hmain) as [(_ & _ & E & _)|(Hex & hosts & Hh & Hc)];
    [done|].
  destruct Hc as [(_ & _ & E & _)|[(_ & _ & _ & _ & E)
                                  |[(_ & _ & _ & _ & E & _)|(Hne' & Hc & _)]]];
    try done.
  split; [done|]. split; [done|]. destruct hosts as [|h hs]; [done|]. by eexists _, _.
Qed.

Lemma main_writes_only_when_confirmed_witness :
  ∃ r text,
    main Env.scenario 2 Env.default_args None = Some r
    ∧ w_disk (final r)
      !! "/home/u/Library/Application Support/iTerm2/DynamicProfiles/ssh-hosts.json"
      = Some text
    ∧ path_exists Env.scenario (expand_path Env.scenario (config Env.default_args))
      = true
    ∧ confirmed Env.default_args None = true
    ∧ ∃ h hs,
        hosts_of Env.scenario 2 (expand_path Env.scenario (config Env.default_args))
        = Some (h :: hs).
Proof.
  destruct (main Env.scenario 2 Env.default_args None) as [r|] eqn:Hm;
    [|vm_compute in Hm; discriminate].
  assert (∃ text,
            w_disk (final r)
            !! "/home/u/Library/Application Support/iTerm2/DynamicProfiles/ssh-hosts.json"
            = Some text) as [text Hf].
  { apply (f_equal (λ o, (λ r, w_disk (final r)
              !! "/home/u/Library/Application Support/iTerm2/DynamicProfiles/ssh-hosts.json")
              <$> o)) in Hm.
    vm_compute in Hm. injection Hm as Hm. eexists. symmetry. exact Hm. }
  exists r, text. split; [reflexivity|]. split; [exact Hf|].
  exact (main_writes_only_when_confirmed _ _ _ _ _ _ _ Hm Hf).
Defined.

(** X15. In single-file mode, when a run leaves a file, it leaves one
    file only, [ssh-hosts.json] in the output directory, after it has
    called [os.makedirs] on the directory of the file, if the name of
    the directory is not empty.  The run ends with status 0 or 1.  With
    status 0 the file holds the document of the profiles of the hosts
    that the resolution of the config file finds, in their order, and
    reads back as this document.  With status 1 the write has stopped
    after the file was opened, and the file holds the characters
    written until then: a proper prefix of the text of the document. *)
Theorem main_single_file_end_to_end os fuel a answer r path text :
  main os fuel a answer = Some r →
  multi_file a = false →
  w_disk (final r) !! path = Some text →
  ∃ hosts,
    hosts_of os fuel (expand_path os (config a)) = Some hosts
    ∧ path = PosixPath.join (expand_path os (output_dir a)) "ssh-hosts.json"
    ∧ w_disk (final r) = {[ path := text ]}
    ∧ w_dirs (final r)
      = (if bool_decide (PosixPath.dirname path = EmptyString) then []
         else [PosixPath.dirname path])
    ∧ let doc :=
        PyDict [("Profiles",
                 PyList (imap (λ i h, profile_record (name h)
                                        (canonical_upper (uuid4 os i))
                                        (parent_profile a)) hosts))] in
      (exit_status r = 0%Z ∨ exit_status r = 1%Z)
      ∧ (exit_status r = 0%Z →
           text = Json.dumps doc ∧ JsonRead.loads text = Some doc)
      ∧ (exit_status r = 1%Z →
           open_w_ok os path = true
           ∧ ∃ n, write_limit os path = Some n
                  ∧ (n < String.length (Json.dumps doc))%nat
                  ∧ text = String.substring 0 n (Json.dumps doc)).
Proof.
  intros Hmain Hsingle Hfile.
  assert (w_disk (final r) ≠ ∅) as Hne.
  { intros E. by rewrite E, lookup_empty in Hfile. }
  destruct (main_cases _ _ _ _ _ Hmain) as [(_ & _ & E & _)|(Hex & hosts & Hh & Hc)];
    [done|].
  destruct Hc as [(_ & _ & E & _)|[(_ & _ & _ & _ & E)
                                  |[(_ & _ & _ & _ & E & _)|(_ & _ & Hw)]]];
    try done.
  destruct Hw as (w & Hw & Hwd & _ & Hr). exists hosts. split; [done|].
  pose proof (doc_wf os hosts (parent_profile a) 0) as Hwf.
  apply loads_dumps in Hwf. revert Hr Hwf.
  unfold written_by, generate_profiles. rewrite Hsingle, generate_profiles_loop_eq.
  cbn [fst app Nat.add].
  set (profiles := imap _ hosts). set (out := PosixPath.join _ _). intros Hr Hwf.
  destruct (write_single_file os profiles out _ w) as [[[]|e] w'] eqn:Ew.
  - apply write_single_file_returned in Ew as (_ & _ & Hd & _ & Hdirs).
    destruct Hr as (Hs & Hr & Hrd & _).
    rewrite Hr, Hd, Hw in Hfile |- *. rewrite insert_empty in Hfile |- *.
    apply lookup_singleton_Some in Hfile as [<- <-].
    split; [done|]. split; [done|]. split; [by rewrite Hrd, Hdirs, Hwd|].
    split; [by left|]. split; [done|]. intros Hs'. by rewrite Hs in Hs'.
  - destruct Hr as [Hs Hr]. rewrite Hr in Hfile, Hne |- *. clear Hr.
    apply write_single_file_raised in Ew
      as (_ & Hdirs & [(_ & _ & Hd)|[_ [[_ Hd]|(Ho & n & Hl & Hn & Hd)]]]).
    + by rewrite Hd, Hw in Hne.
    + by rewrite Hd, Hw in Hne.
    + rewrite Hd, Hw in Hfile |- *. rewrite insert_empty in Hfile |- *.
      apply lookup_singleton_Some in Hfile as [<- <-].
      split; [done|]. split; [done|]. split; [by rewrite Hdirs, Hwd|].
      split; [by right|]. split; [intros Hs'; by rewrite Hs in Hs'|].
      intros _. split; [done|]. by exists n.
Qed.

Lemma main_single_file_end_to_end_witness :
  (∃ r text,
     main Env.scenario 2 Env.default_args None = Some r
     ∧ w_disk (final r)
       = {[ "/home/u/Library/Application Support/iTerm2/DynamicProfiles/ssh-hosts.json"
            := text ]}
     ∧ exit_status r = 0%Z)
  ∧ (∃ r text,
       main (disk_full Env.scenario 16) 2 Env.default_args None = Some r
       ∧ w_disk (final r)
         = {[ "/home/u/Library/Application Support/iTerm2/DynamicProfiles/ssh-hosts.json"
              := text ]}
       ∧ exit_status r = 1%Z
       ∧ text = "{" +:+ Json.nl +:+ "  " +:+ Json.encode_str "Profiles" +:+ ": ").
Proof.
  split.
  - destruct (main Env.scenario 2 Env.default_args None) as [r|] eqn:Hm;
      [|vm_compute in Hm; discriminate].
    assert (∃ text,
              w_disk (final r)
              !! "/home/u/Library/Application Support/iTerm2/DynamicProfiles/ssh-hosts.json"
              = Some text) as [text Hf].
    { apply (f_equal (λ o, (λ r, w_disk (final r)
                !! "/home/u/Library/Application Support/iTerm2/DynamicProfiles/ssh-hosts.json")
                <$> o)) in Hm.
      vm_compute in Hm. injection Hm as Hm. eexists. symmetry. exact Hm. }
    assert (exit_status r = 0%Z) as Hs.
    { apply (f_equal (λ o, exit_status <$> o)) in Hm.
      vm_compute in Hm. injection Hm as Hm. symmetry. exact Hm. }
    destruct (main_single_file_end_to_end _ _ _ _ _ _ _ Hm eq_refl Hf)
      as (hosts & _ & _ & H & _).
    exists r, text. split; [reflexivity|]. split; [exact H|exact Hs].
  - destruct (main (disk_full Env.scenario 16) 2 Env.default_args None)
      as [r|] eqn:Hm; [|vm_compute in Hm; discriminate].
    assert (w_disk (final r)
            !! "/home/u/Library/Application Support/iTerm2/DynamicProfiles/ssh-hosts.json"
            = Some ("{" +:+ Json.nl +:+ "  " +:+ Json.encode_str "Profiles" +:+ ": "))
      as Hf.
    { apply (f_equal (λ o, (λ r, w_disk (final r)
                !! "/home/u/Library/Application Support/iTerm2/DynamicProfiles/ssh-hosts.json")
                <$> o)) in Hm.
      vm_compute in Hm. injection Hm as Hm. symmetry. exact Hm. }
    assert (exit_status r = 1%Z) as Hs.
    { apply (f_equal (λ o, exit_status <$> o)) in Hm.
      vm_compute in Hm. injection Hm as Hm. symmetry. exact Hm. }
    destruct (main_single_file_end_to_end _ _ _ _ _ _ _ Hm eq_refl Hf)
      as (hosts & _ & _ & H & _).
    eexists r, _. split; [reflexivity|]. split; [exact H|]. split; [exact Hs|].
    reflexivity.
Defined.

(** X16. In multi-file mode, after a confirmed run that ends with status
    0, every host that the resolution finds has its file in the output
    directory, named after the host; and every file there is the file of
    one of the hosts, and reads back as a document with one profile, the
    profile of a host of that file name. *)
Theorem main_multi_file_end_to_end os fuel a answer r :
  main os fuel a answer = Some r →
  multi_file a = true →
  confirmed a answer = true →
  exit_status r = 0%Z →
  let out := expand_path os (output_dir a) in
  ∃ hosts,
    hosts_of os fuel (expand_path os (config a)) = Some hosts
    ∧ (∀ h, h ∈ hosts → is_Some (w_disk (final r) !! multi_file_path out (name h)))
    ∧ (∀ path text,
         w_disk (final r) !! path = Some text →
         ∃ i h, hosts !! i = Some h
                ∧ path = multi_file_path out (name h)
                ∧ JsonRead.loads text
                  = Some (single_doc (profile_record (name h)
                                        (canonical_upper (uuid4 os i))
                                        (parent_profile a)))).
Proof.
  intros Hmain Hmulti Hconf Hs out.
  destruct (main_cases _ _ _ _ _ Hmain) as [(_ & E & _)|(Hex & hosts & Hh & Hc)];
    [by rewrite E in Hs|].
  exists hosts. split; [done|].
  destruct Hc as [(-> & _ & E & _)|[(_ & _ & _ & E & _)|[(_ & E & _)|(_ & _ & Hw)]]].
  { split; [by intros h ?%elem_of_nil|]. intros path text. by rewrite E, lookup_empty. }
  { by rewrite E in Hs. }
  { by rewrite E in Hconf. }
  destruct Hw as (w & Hw & _ & _ & Hr). revert Hr.
  unfold written_by, generate_profiles. rewrite Hmulti, generate_profiles_loop_eq.
  cbn [fst app Nat.add]. fold out.
  set (profiles := imap _ hosts). unfold write_multi_file.
  destruct (makedirs os out w) as [[[]|e0] w0] eqn:Em;
    [|intros [E _]; by rewrite E in Hs].
  apply makedirs_returned in Em as [_ ->].
  destruct (write_multi_loop _ _ _ _ _) as [[[]|e] w'] eqn:El;
    [|intros [E _]; by rewrite E in Hs].
  intros (_ & Hr & _). rewrite disk_wprint_if in Hr.
  apply write_multi_loop_spec in El as (_ & Hdisk & _).
  cbn [called_makedirs w_disk] in Hdisk.
  assert (∀ i h, hosts !! i = Some h →
            profiles !! i = Some (profile_record (name h)
                                    (canonical_upper (uuid4 os i)) (parent_profile a)))
    as Hprof.
  { intros i h Hi. unfold profiles. by rewrite list_lookup_imap, Hi. }
  split.
  - intros h (i & Hi)%list_elem_of_lookup_1. rewrite Hr, Hdisk.
    assert (is_Some (last_written out (multi_file_path out (name h)) profiles))
      as [q ->]; [|by eexists].
    apply last_written_is_Some, list_elem_of_omap.
    exists (profile_record (name h) (canonical_upper (uuid4 os i)) (parent_profile a)).
    split; [|reflexivity]. eapply list_elem_of_lookup_2. by apply Hprof.
  - intros path text. rewrite Hr, Hdisk, Hw, lookup_empty.
    destruct (last_written out path profiles) as [q|] eqn:Eq; [|done].
    intros [= <-]. apply last_written_index in Eq as (k & Hk & Hq & _).
    unfold profiles in Hk. rewrite list_lookup_imap in Hk.
    destruct (hosts !! k) as [h|] eqn:Hh'; [|done]. injection Hk as <-.
    exists k, h. split; [done|]. split; [by injection Hq|].
    apply loads_dumps, single_doc_wf.
    by exists (name h), (canonical_upper (uuid4 os k)), (parent_profile a), "Yes",
      ("ssh " +:+ name h), ["ssh"].
Qed.

Lemma main_multi_file_end_to_end_witness :
  ∃ r, main Env.scenario 2 multi_args None = Some r
       ∧ is_Some (w_disk (final r) !! "/home/u/out/gamma.json").
Proof.
  destruct (main Env.scenario 2 multi_args None) as [r|] eqn:Hm;
    [|vm_compute in Hm; discriminate].
  assert (exit_status r = 0%Z) as Hs.
  { apply (f_equal (λ o, exit_status <$> o)) in Hm.
    vm_compute in Hm. injection Hm as Hm. symmetry. exact Hm. }
  destruct (main_multi_file_end_to_end _ _ _ _ _ Hm eq_refl eq_refl Hs)
    as (hosts & Hh & Hall & _).
  exists r. split; [reflexivity|].
  vm_compute in Hh. injection Hh as <-.
  apply (Hall (Host "gamma")). do 2 apply list_elem_of_further. apply list_elem_of_here.
Defined.







(** X18. With [--quiet] and [--yes] a run prints nothing, except for
    the one line that says that the config file was not found or that
    it holds no host. *)
Theorem quiet_run_prints_failures_only os fuel a answer r :
  main os fuel a answer = Some r →
  quiet a = true →
  yes a = true →
  let cfg := expand_path os (config a) in
  w_stdout (final r)
  = if path_exists os cfg then
      match hosts_of os fuel cfg with
      | Some [] => [Json.nl +:+ "No Host entries found in SSH config."]
      | _ => []
      end
    else [Json.nl +:+ "Error: SSH config file not found: " +:+ cfg].
Proof.
  intros Hmain Hq Hy cfg. revert Hmain. unfold main. cbv zeta. fold cfg.
  rewrite Hq, Hy, andb_false_r. cbn [negb wprint_if].
  destruct (path_exists os cfg); cbn [negb]; [|by intros [= <-]].
  rewrite <- (parse_ssh_config_hosts os fuel cfg false []).
  unfold World. cbn [w_stdout].
  destruct (parse_ssh_config os fuel cfg false []) as [[hosts st]|] eqn:E; [|done].
  cbn [fmap option_fmap option_map fst].
  apply parse_config_file_ok in E as [_ _ _ (o & Ho & Hnil) _].
  rewrite (Hnil eq_refl) in Ho. cbn in Ho. rewrite Ho.
  destruct hosts as [|h hs]; [by intros [= <-]|].
  destruct (generate_profiles os (h :: hs) (parent_profile a) 0) as [profiles n'].
  set (w := with_stdout [] _).
  pose proof (write_quiet os (multi_file a) profiles (expand_path os (output_dir a))
                (PosixPath.join (expand_path os (output_dir a)) "ssh-hosts.json")
                w) as Hw.
  destruct (multi_file a);
    match goal with
    | |- match ?c with _ => _ end = _ → _ =>
        change (w_stdout c.2 = []) in Hw;
        destruct c as [[[]|e] w']; intros [= <-]; exact Hw
    end.
Qed.

Lemma quiet_run_prints_failures_only_witness :
  ∃ r, main Env.scenario 2 quiet_args None = Some r
       ∧ w_stdout (final r) = [].
Proof.
  destruct (main Env.scenario 2 quiet_args None) as [r|] eqn:Hm;
    [|vm_compute in Hm; discriminate].
  exists r. split; [reflexivity|].
  pose proof (quiet_run_prints_failures_only _ _ _ _ _ Hm eq_refl eq_refl) as H.
  vm_compute in H. exact H.
Defined.

Lemma lstrip_all_space s : all_space s = true → Py.lstrip s = EmptyString.
Proof.
  induction s as [|c s IH]; [done|]. simpl.
  destruct (Py.isspace c); [exact IH|done].
Qed.

Lemma lstrip_app_pad s pad :
  all_space pad = true →
  Py.lstrip (s +:+ pad) = if all_space s then EmptyString else Py.lstrip s +:+ pad.
Proof.
  intros Hp. induction s as [|c s IH]; [by apply lstrip_all_space|].
  cbn [String.append Py.lstrip all_space]. by destruct (Py.isspace c).
Qed.

Lemma rstrip_pad s pad : all_space pad = true → Py.rstrip (s +:+ pad) = Py.rstrip s.
Proof.
  intros Hp. unfold Py.rstrip. rewrite str_rev_app, lstrip_pad; [done|].
  by rewrite all_space_rev.
Qed.

(** [strip] does not see the white space around a string. *)
Lemma strip_pad p s q :
  all_space p = true → all_space q = true →
  Py.strip (p +:+ s +:+ q) = Py.strip s.
Proof.
  intros Hp Hq. unfold Py.strip. rewrite lstrip_pad, lstrip_app_pad by done.
  destruct (all_space s) eqn:Es; [by rewrite lstrip_all_space|].
  by apply rstrip_pad.
Qed.

(** X19. At the prompt, an answer of white space only, as the empty
    line, confirms the write; and the white space around an answer does
    not count. *)
Theorem confirm_write_default_is_yes profiles p line q w :
  all_space p = true → all_space q = true →
  (confirm_write profiles (Some p) w).1 = Returned true
  ∧ confirm_write profiles (Some (p +:+ line +:+ q)) w
    = confirm_write profiles (Some line) w.
Proof.
  intros Hp Hq. unfold confirm_write. cbv zeta. split.
  - pose proof (strip_pad p EmptyString EmptyString Hp eq_refl) as H.
    rewrite str_app_nil_r in H. by rewrite H.
  - by rewrite strip_pad.
Qed.

Lemma confirm_write_default_is_yes_witness :
  (confirm_write [] (Some "  ") (World [] ∅)).1 = Returned true
  ∧ confirm_write [] (Some ("  " +:+ "No" +:+ " ")) (World [] ∅)
    = confirm_write [] (Some "No") (World [] ∅).
Proof.
  apply (confirm_write_default_is_yes [] "  " "No" " "); reflexivity.
Defined.

(** ** More on the JSON text *)

Lemma all_plain_app a b : all_plain (a +:+ b) = all_plain a && all_plain b.
Proof.
  induction a as [|c a IH]; [done|]. cbn [String.append all_plain]. cbv zeta.
  by rewrite IH, andb_assoc.
Qed.

Lemma all_plain_escape_char c : all_plain (Json.escape_char c) = true.
Proof. destruct c as [[] [] [] [] [] [] [] []]; vm_compute; reflexivity. Qed.

Lemma all_plain_encode_str s : all_plain (Json.encode_str s) = true.
Proof.
  unfold Json.encode_str.
  change (String dquote ?x) with (String dquote EmptyString +:+ x).
  rewrite !all_plain_app. cbn [andb].
  assert (all_plain (Json.escape s) = true) as ->; [|done].
  induction s as [|c s IH]; [done|]. cbn [Json.escape].
  by rewrite all_plain_app, all_plain_escape_char, IH.
Qed.

Lemma all_plain_newline_indent level : all_plain (Json.newline_indent level) = true.
Proof.
  unfold Json.newline_indent. rewrite all_plain_app. cbn [andb].
  generalize (2 * level)%nat. intros n. assert (all_plain Json.nl = true) as -> by done.
  induction n as [|n IH]; [done|]. exact IH.
Qed.

Lemma all_plain_encode v level : all_plain (Json.encode level v) = true.
Proof.
  revert level. induction v as [s|l IH|items IH] using pyval_ind; intros level.
  - apply all_plain_encode_str.
  - destruct l as [|x l]; [done|]. apply Forall_cons in IH as [Hx IH].
    rewrite encode_list_cons, !all_plain_app, !all_plain_newline_indent, Hx.
    assert (all_plain (encode_tail (S level) l) = true) as ->; [|done].
    induction IH as [|y l Hy _ IHl]; [done|]. cbn [encode_tail].
    by rewrite !all_plain_app, all_plain_newline_indent, Hy, IHl.
  - destruct items as [|[k x] l]; [done|]. apply Forall_cons in IH as [Hx IH].
    cbn [snd] in Hx.
    rewrite encode_dict_cons, !all_plain_app, !all_plain_newline_indent,
      all_plain_encode_str, Hx.
    assert (all_plain (encode_members_tail (S level) l) = true) as ->; [|done].
    induction IH as [|[k' y] l Hy _ IHl]; [done|]. cbn [encode_members_tail].
    cbn [snd] in Hy.
    by rewrite !all_plain_app, all_plain_newline_indent, all_plain_encode_str, Hy, IHl.
Qed.

Lemma all_plain_substring s n :
  all_plain s = true → all_plain (String.substring 0 n s) = true.
Proof.
  revert s. induction n as [|n IH]; intros [|c s]; try done.
  cbn [String.substring all_plain]. cbv zeta.
  intros [-> Hs]%andb_true_iff. by apply IH.
Qed.

Lemma dump_to_plain os path output w :
  (∀ p t, w_disk w !! p = Some t → all_plain t = true) →
  ∀ p t, w_disk (dump_to os path output w).2 !! p = Some t → all_plain t = true.
Proof.
  intros Hw p t. destruct (dump_to os path output w) as [[[]|e] w'] eqn:E; cbn [snd].
  - apply dump_to_returned in E as (_ & -> & _). cbn [write_file w_disk].
    intros [[_ <-]|[_ H]]%lookup_insert_Some; [apply all_plain_encode|by eapply Hw].
  - apply dump_to_raised in E as (_ & [[_ ->]|(_ & n & _ & _ & ->)]); [by apply Hw|].
    cbn [write_file w_disk].
    intros [[_ <-]|[_ H]]%lookup_insert_Some; [|by eapply Hw].
    apply all_plain_substring, all_plain_encode.
Qed.

Lemma write_multi_loop_plain os profiles dir vb w :
  (∀ p t, w_disk w !! p = Some t → all_plain t = true) →
  ∀ p t, w_disk (write_multi_loop os profiles dir vb w).2 !! p = Some t →
         all_plain t = true.
Proof.
  revert w. induction profiles as [|q profiles IH]; intros w Hw; [done|].
  cbn [write_multi_loop].
  destruct (getitem "Name" q) as [[n| |]|]; try done.
  pose proof (dump_to_plain os (multi_file_path dir n)
                (PyDict [("Profiles", PyList [q])]) w Hw) as H.
  destruct (dump_to os _ _ w) as [[[]|e] w1]; cbn [snd] in H; [|done].
  apply IH. intros p t. rewrite disk_wprint_if. apply H.
Qed.

(** X20. Every file that a writer leaves holds printable ASCII
    characters and line feeds only, in either mode, whether the call
    returns or raises, and whatever the characters of the names: a name
    with control characters or with characters beyond ASCII is written
    in escaped form. *)
Theorem written_files_are_plain_ascii os (multi : bool) profiles target vb out path text :
  w_disk (if multi then write_multi_file os profiles target vb (World out ∅)
          else write_single_file os profiles target vb (World out ∅)).2
    !! path = Some text →
  all_plain text = true.
Proof.
  assert (∀ p t, w_disk (World out ∅) !! p = Some t → all_plain t = true) as Hempty.
  { intros p t. unfold World. cbn [w_disk]. by rewrite lookup_empty. }
  destruct multi.
  - unfold write_multi_file, makedirs. cbv zeta.
    pose proof (write_multi_loop_plain os profiles target vb
                  (called_makedirs target (World out ∅)) Hempty) as H.
    destruct (makedirs_ok os _); [|by apply Hempty].
    destruct (write_multi_loop _ _ _ _ _) as [[[]|e] w']; cbn [snd] in *.
    + rewrite disk_wprint_if. apply H.
    + apply H.
  - destruct (write_single_file os profiles target vb (World out ∅))
      as [[[]|e] w'] eqn:E; cbn [snd].
    + apply write_single_file_returned in E as (_ & _ & -> & _).
      intros [[_ <-]|[_ H]]%lookup_insert_Some; [apply all_plain_encode|by eapply Hempty].
    + apply write_single_file_raised in E
        as (_ & _ & [(_ & _ & ->)|[_ [[_ ->]|(_ & n & _ & _ & ->)]]]);
        [by apply Hempty..|].
      intros [[_ <-]|[_ H]]%lookup_insert_Some; [|by eapply Hempty].
      apply all_plain_substring, all_plain_encode.
Qed.

Lemma written_files_are_plain_ascii_witness :
  ∃ text,
    w_disk (write_single_file Env.scenario
              [profile_record (String "233" "t" +:+ String "009" "x") "G" "Default"]
              "/out/ssh-hosts.json" true (World [] ∅)).2
      !! "/out/ssh-hosts.json" = Some text
    ∧ all_plain text = true.
Proof.
  eexists. split; [vm_compute; reflexivity|].
  apply (written_files_are_plain_ascii Env.scenario false
           [profile_record (String "233" "t" +:+ String "009" "x") "G" "Default"]
           "/out/ssh-hosts.json" true [] "/out/ssh-hosts.json").
  vm_compute. reflexivity.
Defined.
